(** * vbump: semantic version bumps and the release workflow

    A shallow embedding of [src/index.ts], [src/cli.ts] and
    [src/init-config.ts].

    Strings are [string]: the UTF-8 bytes of the JavaScript string.
    The separators the program splits on (['.'], [',']) and the
    placeholder [{version}] are ASCII, so splitting and searching the
    bytes is splitting and searching the characters. *)

From Stdlib Require Import ZArith Lia List Ascii String Bool.
From stdpp Require Import gmap strings.

Import ListNotations.

Set Default Proof Using "Type".

#[global] Arguments String.append !s1 s2 : simpl nomatch.

(** ** JavaScript values the program computes with *)

Module JS.

(** *** Exceptions and completions *)

Inductive exn : Type :=
| Error (message : string)
| TypeError (message : string)
| SyntaxError (message : string).

Definition message (e : exn) : string :=
  match e with
  | Error m | TypeError m | SyntaxError m => m
  end.

(** A call returns, throws, or leaves what this development follows
    ([Unmodelled]: a double that is not followed, see [number], or a
    configuration file that is not of its declared type): the program
    itself goes on there, the embedding does not say how. *)
Inductive completion (A : Type) : Type :=
| Return (a : A)
| Throw (e : exn)
| Unmodelled.
Arguments Return {A} a.
Arguments Throw {A} e.
Arguments Unmodelled {A}.

(** *** Strings *)

(** [s.split(sep)] for a separator of one character. *)
Fixpoint split (sep : ascii) (s : string) : list string :=
  match s with
  | EmptyString => [EmptyString]
  | String c r =>
      if Ascii.eqb c sep then EmptyString :: split sep r
      else match split sep r with
           | h :: t => String c h :: t
           | [] => [String c EmptyString]
           end
  end.

(** [parts.join(sep)]. *)
Fixpoint join (sep : string) (parts : list string) : string :=
  match parts with
  | [] => EmptyString
  | [p] => p
  | p :: rest => p +:+ sep +:+ join sep rest
  end.

Fixpoint strip_prefix (p s : string) : option string :=
  match p, s with
  | EmptyString, _ => Some s
  | String a p', String b s' =>
      if Ascii.eqb a b then strip_prefix p' s' else None
  | String _ _, EmptyString => None
  end.

(** ECMAScript WhiteSpace and LineTerminator code points, in UTF-8:
    the one-byte ones, U+00A0, and the three-byte ones (U+1680,
    U+2000..U+200A, U+2028, U+2029, U+202F, U+205F, U+3000, U+FEFF). *)
Definition ws1 (a : ascii) : bool :=
  let n := nat_of_ascii a in
  ((9 <=? n) && (n <=? 13)) || (n =? 32).

Definition ws2 (a b : ascii) : bool :=
  (nat_of_ascii a =? 194) && (nat_of_ascii b =? 160).

Definition ws3 (a b c : ascii) : bool :=
  let x := nat_of_ascii a in
  let y := nat_of_ascii b in
  let z := nat_of_ascii c in
  ((x =? 225) && (y =? 154) && (z =? 128))
  || ((x =? 226) && (y =? 128)
      && (((128 <=? z) && (z <=? 138)) || (z =? 168) || (z =? 169) || (z =? 175)))
  || ((x =? 226) && (y =? 129) && (z =? 159))
  || ((x =? 227) && (y =? 128) && (z =? 128))
  || ((x =? 239) && (y =? 187) && (z =? 191)).

(** Drops the white space a list of bytes starts with.  With
    [backwards] the list is a string read from its end, and the bytes of
    a character come last byte first. *)
Fixpoint drop_ws (backwards : bool) (l : list ascii) : list ascii :=
  match l with
  | [] => []
  | a :: r1 =>
      if ws1 a then drop_ws backwards r1
      else match r1 with
           | [] => l
           | b :: r2 =>
               if (if backwards then ws2 b a else ws2 a b)
               then drop_ws backwards r2
               else match r2 with
                    | [] => l
                    | c :: r3 =>
                        if (if backwards then ws3 c b a else ws3 a b c)
                        then drop_ws backwards r3
                        else l
                    end
           end
  end.

(** [s.trimStart()] and [s.trimEnd()]. *)
Definition trimStart (s : string) : string :=
  string_of_list_ascii (drop_ws false (list_ascii_of_string s)).

Definition trimEnd (s : string) : string :=
  string_of_list_ascii
    (rev (drop_ws true (rev (list_ascii_of_string s)))).

(** [s.trim()]. *)
Definition trim (s : string) : string := trimEnd (trimStart s).

(** *** Numbers *)

(** The doubles this development follows are NaN and the integers of
    magnitude at most 2^53, each of which a double holds exactly (-0 is
    held as [Int 0]: it prints as ["0"], adds like 0 and is falsy like
    0).  [Other] is a double that is not followed: it is not NaN, and
    nothing else is said about it; in a value built by [JSON.parse],
    where every integer up to 2^53 is an [Int], it is not zero. *)
Inductive number : Type :=
| NaN
| Int (z : Z)
| Other.

Definition two53 : Z := 9007199254740992.

Definition isNaN (n : number) : bool :=
  match n with NaN => true | _ => false end.

(** The double nearest to an integer, as far as it is followed. *)
Definition of_Z (z : Z) : number :=
  if (Z.abs z <=? two53)%Z then Int z else Other.

(** [n + 1] in double arithmetic.  Below 2^53 the sum is exact; 2^53 + 1
    lies halfway between the doubles 2^53 and 2^53 + 2 and rounds to the
    even one, 2^53. *)
Definition add1 (n : number) : number :=
  match n with
  | NaN => NaN
  | Int z => if (z =? two53)%Z then Int z else Int (z + 1)
  | Other => Other
  end.

Definition digit_of_ascii (c : ascii) : option Z :=
  let n := nat_of_ascii c in
  if (48 <=? n) && (n <=? 57) then Some (Z.of_nat (n - 48)) else None.

Definition hexdigit_of_ascii (c : ascii) : option Z :=
  let n := nat_of_ascii c in
  if (48 <=? n) && (n <=? 57) then Some (Z.of_nat (n - 48))
  else if (97 <=? n) && (n <=? 102) then Some (Z.of_nat (n - 87))
  else if (65 <=? n) && (n <=? 70) then Some (Z.of_nat (n - 55))
  else None.

(** Value of a run of digits in [base], most significant first; [None]
    when a character is not a digit of the base. *)
Fixpoint digits_value (base : Z) (acc : Z) (s : string) : option Z :=
  match s with
  | EmptyString => Some acc
  | String c r =>
      match hexdigit_of_ascii c with
      | Some d => if (d <? base)%Z then digits_value base (acc * base + d) r
                  else None
      | None => None
      end
  end.

(** Splits off the longest prefix of decimal digits. *)
Fixpoint span_digits (s : string) : string * string :=
  match s with
  | EmptyString => (EmptyString, EmptyString)
  | String c r =>
      match digit_of_ascii c with
      | Some _ => let (d, rest) := span_digits r in (String c d, rest)
      | None => (EmptyString, s)
      end
  end.

Definition decimal_value (s : string) : Z :=
  match digits_value 10 0 s with Some v => v | None => 0%Z end.

(** NonDecimalIntegerLiteral: [0x], [0o], [0b] and at least one digit. *)
Definition nondecimal_literal (s : string) : option Z :=
  match s with
  | String z (String p (String c r)) =>
      if Ascii.eqb z "0" then
        let base :=
          if existsb (Ascii.eqb p) ["x"; "X"]%char then Some 16%Z
          else if existsb (Ascii.eqb p) ["o"; "O"]%char then Some 8%Z
          else if existsb (Ascii.eqb p) ["b"; "B"]%char then Some 2%Z
          else None in
        match base with
        | Some b => digits_value b 0 (String c r)
        | None => None
        end
      else None
  | _ => None
  end.

(** ExponentPart, if any, then the end of the literal: the exponent. *)
Definition exponent_part (s : string) : option Z :=
  match s with
  | EmptyString => Some 0%Z
  | String e r =>
      if existsb (Ascii.eqb e) ["e"; "E"]%char then
        let '(neg, r') :=
          match r with
          | String "-" r' => (true, r')
          | String "+" r' => (false, r')
          | _ => (false, r)
          end in
        match span_digits r' with
        | (String _ _ as ds, EmptyString) =>
            Some (if neg : bool then - decimal_value ds else decimal_value ds)%Z
        | _ => None
        end
      else None
  end.

(** The double nearest to [m * 10^e], for [0 <= m].  An integer of
    magnitude at most 2^53 is that double and is followed; a fraction
    of at most 2^-1075, half the least double, rounds to zero; for another
    fraction or a larger magnitude the nearest double is not computed. *)
Definition of_decimal (neg : bool) (m e : Z) : number :=
  let sign (z : Z) := if neg then (- z)%Z else z in
  if (0 <=? e)%Z then of_Z (sign (m * 10 ^ e)%Z)
  else if (m mod 10 ^ (- e) =? 0)%Z then of_Z (sign (m / 10 ^ (- e))%Z)
  else if (m * 2 ^ 1075 <=? 10 ^ (- e))%Z then Int 0
  else Other.

(** StrUnsignedDecimalLiteral. *)
Definition unsigned_decimal_literal (neg : bool) (s : string) : number :=
  if String.eqb s "Infinity" then Other
  else
    let (ip, r) := span_digits s in
    let '(fp, r', dot) :=
      match r with
      | String "." r1 => let (fp, r2) := span_digits r1 in (fp, r2, true)
      | _ => (EmptyString, r, false)
      end in
    let well_formed :=
      match ip, fp with
      | EmptyString, EmptyString => false
      | EmptyString, _ => dot
      | _, _ => true
      end in
    if well_formed then
      match exponent_part r' with
      | Some e =>
          of_decimal neg (decimal_value (ip +:+ fp))
                     (e - Z.of_nat (String.length fp))
      | None => NaN
      end
    else NaN.

(** [Number(s)]: StringToNumber. *)
Definition Number (s : string) : number :=
  let t := trim s in
  match t with
  | EmptyString => Int 0
  | String c r =>
      match nondecimal_literal t with
      | Some v => of_Z v
      | None =>
          if Ascii.eqb c "-" then
            match nondecimal_literal r with
            | Some _ => NaN
            | None => unsigned_decimal_literal true r
            end
          else if Ascii.eqb c "+" then
            match nondecimal_literal r with
            | Some _ => NaN
            | None => unsigned_decimal_literal false r
            end
          else unsigned_decimal_literal false t
      end
  end.

Definition ascii_of_digit (d : Z) : ascii := ascii_of_nat (48 + Z.to_nat d).

Fixpoint digits_of (fuel : nat) (n : Z) (acc : string) : string :=
  let acc' := String (ascii_of_digit (n mod 10)) acc in
  match fuel with
  | O => acc'
  | S f => if (n <? 10)%Z then acc' else digits_of f (n / 10) acc'
  end.

(** Decimal digits of [0 <= n]; [log2 n] steps are enough, a decimal
    digit holding more than one bit. *)
Definition decimal (n : Z) : string :=
  digits_of (Z.to_nat (Z.log2 n)) n EmptyString.

(** Number::toString(n), radix 10, where the double is followed. *)
Definition ToString (n : number) : option string :=
  match n with
  | NaN => Some "NaN"
  | Int z => Some (if (z <? 0)%Z then String "-" (decimal (- z)) else decimal z)
  | Other => None
  end.

(** *** Values read from JSON *)

(** What [JSON.parse] builds.  An object keeps its properties in order;
    [JSON.parse] leaves no key twice. *)
#[local] Unset Elimination Schemes.
Inductive json : Type :=
| JNull
| JBool (b : bool)
| JNumber (n : number)
| JString (s : string)
| JArray (items : list json)
| JObject (props : list (string * json)).
#[local] Set Elimination Schemes.

(** ToBoolean. *)
Definition ToBoolean (v : json) : bool :=
  match v with
  | JNull => false
  | JBool b => b
  | JNumber NaN => false
  | JNumber (Int z) => negb (z =? 0)%Z
  | JNumber Other => true
  | JString s => negb (String.eqb s "")
  | JArray _ | JObject _ => true
  end.

(** [o[key]] on the properties of an object. *)
Fixpoint get_property (key : string) (props : list (string * json))
  : option json :=
  match props with
  | [] => None
  | (k, v) :: rest => if String.eqb k key then Some v else get_property key rest
  end.

(** [o[key] = v]: an existing property keeps its place, a new one goes
    last. *)
Fixpoint set_property (key : string) (v : json) (props : list (string * json))
  : list (string * json) :=
  match props with
  | [] => [(key, v)]
  | (k, v') :: rest =>
      if String.eqb k key then (k, v) :: rest
      else (k, v') :: set_property key v rest
  end.

(** ToString of a value read from JSON: an array joins its elements with
    commas, [null] elements as the empty string; an object has the
    [Object.prototype.toString] tag. *)
Fixpoint ToString_json (v : json) : option string :=
  match v with
  | JNull => Some "null"
  | JBool b => Some (if b then "true" else "false")
  | JNumber n => ToString n
  | JString s => Some s
  | JArray items =>
      (fix elements (l : list json) : option string :=
         match l with
         | [] => Some ""
         | x :: rest =>
             let first :=
               match x with JNull => Some "" | _ => ToString_json x end in
             match rest with
             | [] => first
             | _ =>
                 match first, elements rest with
                 | Some a, Some b => Some (a +:+ "," +:+ b)
                 | _, _ => None
                 end
             end
         end) items
  | JObject _ => Some "[object Object]"
  end.

Definition typeof (v : json) : string :=
  match v with
  | JBool _ => "boolean"
  | JNumber _ => "number"
  | JString _ => "string"
  | JNull | JArray _ | JObject _ => "object"
  end.

(** *** [String.prototype.replace] with a string pattern *)

(** The text before and after the first occurrence of [pat]. *)
Fixpoint find_first (pat s : string) : option (string * string) :=
  match strip_prefix pat s with
  | Some rest => Some (EmptyString, rest)
  | None =>
      match s with
      | EmptyString => None
      | String c r =>
          match find_first pat r with
          | Some (before, rest) => Some (String c before, rest)
          | None => None
          end
      end
  end.

(** GetSubstitution without captures: [$$], [$&], [$`] and [$'] are
    expanded, any other [$] stays. *)
Fixpoint get_substitution (matched before rest : string) (template : string)
  : string :=
  match template with
  | String "$" (String c r as r0) =>
      if Ascii.eqb c "$" then String "$" (get_substitution matched before rest r)
      else if Ascii.eqb c "&" then matched +:+ get_substitution matched before rest r
      else if Ascii.eqb c "`" then before +:+ get_substitution matched before rest r
      else if Ascii.eqb c "'" then rest +:+ get_substitution matched before rest r
      else String "$" (get_substitution matched before rest r0)
  | String c r => String c (get_substitution matched before rest r)
  | EmptyString => EmptyString
  end.

(** [s.replace(pat, replacement)]: the first occurrence only. *)
Definition replace (pat replacement s : string) : string :=
  match find_first pat s with
  | Some (before, rest) =>
      before +:+ get_substitution pat before rest replacement +:+ rest
  | None => s
  end.

End JS.

(** ** [src/index.ts] *)

Import JS.

Inductive BumpType : Type := major | minor | patch.

(** [calculateNewVersion(currentVersion, bumpType)].  [BumpType] has the
    three kinds only, so the [default] arm of the [switch] has no
    counterpart.  Where a component is a number that is not followed (a
    fraction, a magnitude above 2^53) the code returns a string all the
    same, which is not given here: the result is [Unmodelled], and says
    nothing of what the code returns. *)
Definition calculateNewVersion (currentVersion : string) (bumpType : BumpType)
  : completion string :=
  let parts := map Number (split "." currentVersion) in
  if negb (length parts =? 3) || existsb isNaN parts then
    Throw (Error ("Invalid version format: " +:+ currentVersion
                  +:+ ". Expected semantic version (e.g., 1.2.3)"))
  else
    match parts with
    | [major_; minor_; patch_] =>
        match bumpType with
        | major =>
            match ToString (add1 major_) with
            | Some a => Return (a +:+ ".0.0")
            | None => Unmodelled
            end
        | minor =>
            match ToString major_, ToString (add1 minor_) with
            | Some a, Some b => Return (a +:+ "." +:+ b +:+ ".0")
            | _, _ => Unmodelled
            end
        | patch =>
            match ToString major_, ToString minor_, ToString (add1 patch_) with
            | Some a, Some b, Some c => Return (a +:+ "." +:+ b +:+ "." +:+ c)
            | _, _, _ => Unmodelled
            end
        end
    | _ => Unmodelled
    end.

(** ** The process: files, the console, the [git] executable *)

(** The file system is a finite map from paths to the text of the files:
    a path exists when it is in the map, and a write succeeds. *)

(** The state a run acts on.  [repo] is whatever [git] keeps: the
    repository, its remotes, the checked-out branch. *)
Record World (R : Type) : Type := mkWorld {
  cwd : string;
  files : gmap string string;
  repo : R;
}.
Arguments mkWorld {R} cwd files repo.
Arguments cwd {R} w.
Arguments files {R} w.
Arguments repo {R} w.

(** What the program takes from Node.js and from the machine, and does
    not define itself.
    - [path_join]: [join] of [path].
    - [JSON_parse]: [JSON.parse]; [inr m] is a SyntaxError with message [m].
    - [JSON_stringify v indent]: [JSON.stringify(v, null, indent)].
    - [execFile_git args]: [execFile('git', args)]; the files and the
      repository afterwards, and the standard output ([inl]) or the
      message of the error it rejects with ([inr]). *)
Class Platform : Type := {
  repository : Type;
  path_join : string → string → string;
  JSON_parse : string → json + string;
  JSON_stringify : json → nat → string;
  execFile_git :
    list string → World repository →
    gmap string string * repository * (string + string);
}.

(** What a run does that can be seen from outside, in order.  A call of
    [git] is seen with its arguments and with what came of it: the
    standard output, or the message of the failure. *)
Inductive event : Type :=
| Git (args : list string) (result : string + string)
| WriteFile (path content : string)
| ConsoleLog (line : string)
| ConsoleWarn (line : string)
| ConsoleError (line : string)
| Exit (code : Z).

Record run (W A : Type) : Type := mkRun {
  events : list event;
  after : W;
  outcome : completion A;
}.
Arguments mkRun {W A} events after outcome.
Arguments events {W A} r.
Arguments after {W A} r.
Arguments outcome {W A} r.

Section Process.
Context `{P : Platform}.

Definition M (A : Type) : Type := World repository → run (World repository) A.

#[export] Instance M_ret : MRet M := λ A a w, mkRun [] w (Return a).

#[export] Instance M_bind : MBind M := λ A B f m w,
  let r := m w in
  match outcome r with
  | Return a =>
      let r' := f a (after r) in
      mkRun (events r ++ events r') (after r') (outcome r')
  | Throw e => mkRun (events r) (after r) (Throw e)
  | Unmodelled => mkRun (events r) (after r) Unmodelled
  end.

Definition throw {A} (e : exn) : M A := λ w, mkRun [] w (Throw e).

Definition lift {A} (c : completion A) : M A := λ w, mkRun [] w c.

(** [try { m } catch (e) { handler e }]. *)
Definition try_catch {A} (m : M A) (handler : exn → M A) : M A := λ w,
  let r := m w in
  match outcome r with
  | Throw e =>
      let r' := handler e (after r) in
      mkRun (events r ++ events r') (after r') (outcome r')
  | _ => r
  end.

Definition emit (e : event) : M unit := λ w, mkRun [e] w (Return tt).

Definition console_log (line : string) : M unit := emit (ConsoleLog line).
Definition console_warn (line : string) : M unit := emit (ConsoleWarn line).
Definition console_error (line : string) : M unit := emit (ConsoleError line).
Definition process_exit (code : Z) : M unit := emit (Exit code).

Definition process_cwd : M string := λ w, mkRun [] w (Return (cwd w)).

Definition existsSync (path : string) : M bool := λ w,
  mkRun [] w (Return (bool_decide (is_Some (files w !! path)))).

Definition readFile (path : string) : M string := λ w,
  match files w !! path with
  | Some content => mkRun [] w (Return content)
  | None =>
      mkRun [] w
        (Throw (Error ("ENOENT: no such file or directory, open '"
                       +:+ path +:+ "'")))
  end.

(** [writeFile], when the file can be written.  A write that fails (no
    permission, no space left) is not followed: what is said of a run
    that writes is said of the runs whose writes succeed. *)
Definition writeFile (path content : string) : M unit := λ w,
  mkRun [WriteFile path content]
        (mkWorld (cwd w) (<[path := content]> (files w)) (repo w))
        (Return tt).

Definition execFileAsync_git (args : list string) : M string := λ w,
  let '(fs, r, result) := execFile_git args w in
  mkRun [Git args result] (mkWorld (cwd w) fs r)
        (match result with
         | inl stdout => Return stdout
         | inr msg => Throw (Error msg)
         end).

Definition JSON_parse_ (text : string) : M json :=
  match JSON_parse text with
  | inl v => mret v
  | inr msg => throw (SyntaxError msg)
  end.

(** [for (const x of xs) body]. *)
Fixpoint for_of {A} (xs : list A) (body : A → M unit) : M unit :=
  match xs with
  | [] => mret tt
  | x :: rest => body x ;; for_of rest body
  end.

(** A string that is truthy: neither [undefined] nor empty. *)
Definition truthy (a : option string) : option string :=
  match a with
  | Some s => if String.eqb s "" then None else Some s
  | None => None
  end.

(** [a || b] on strings. *)
Definition or_else (a : option string) (b : string) : string :=
  default b (truthy a).

(** ** [src/index.ts], the workflow *)

Record Branches : Type := mkBranches {
  source : option string;
  targets : option (list string);
}.

Record BumpOptions : Type := mkBumpOptions {
  bumpType : BumpType;
  branches : option Branches;
  commitMessage : option string;
  skipPush : option bool;
  skipMerge : option bool;
  packageFile : option string;
  dryRun : option bool;
  createTag : option bool;
  tagPrefix : option string;
}.

Record VersionInfo : Type := mkVersionInfo {
  oldVersion : string;
  newVersion : string;
}.

(** [getCurrentVersion(packageFile = 'package.json')].  The value of the
    [version] property is returned as it is read, whatever its type. *)
Definition getCurrentVersion (packageFile : option string) : M json :=
  let packageFile := default "package.json" packageFile in
  dir ← process_cwd;
  let packagePath := path_join dir packageFile in
  found ← existsSync packagePath;
  if negb found then
    throw (Error ("Package file not found: " +:+ packagePath))
  else
    content ← readFile packagePath;
    packageJson ← JSON_parse_ content;
    match packageJson with
    | JNull =>
        throw (TypeError "Cannot read properties of null (reading 'version')")
    | _ =>
        let version :=
          match packageJson with
          | JObject props => get_property "version" props
          | _ => None
          end in
        match version with
        | Some v =>
            if negb (ToBoolean v) then
              throw (Error "No version field found in package.json")
            else mret v
        | None => throw (Error "No version field found in package.json")
        end
    end.

(** [updatePackageVersion(newVersion, packageFile = 'package.json')].
    The module is strict code: the assignment throws on [null] and on a
    primitive; on an array it adds a property that [JSON.stringify] does
    not write. *)
Definition updatePackageVersion (newVersion : string)
    (packageFile : option string) : M unit :=
  let packageFile := default "package.json" packageFile in
  dir ← process_cwd;
  let packagePath := path_join dir packageFile in
  content ← readFile packagePath;
  packageJson ← JSON_parse_ content;
  updated ←
    match packageJson with
    | JObject props =>
        mret (JObject (set_property "version" (JString newVersion) props))
    | JArray items => mret (JArray items)
    | JNull =>
        throw (TypeError "Cannot set properties of null (setting 'version')")
    | JBool _ | JNumber _ | JString _ =>
        match ToString_json packageJson with
        | Some shown =>
            throw (TypeError ("Cannot create property 'version' on "
                              +:+ typeof packageJson +:+ " '" +:+ shown +:+ "'"))
        | None => lift Unmodelled
        end
    end;
  writeFile packagePath (JSON_stringify updated 2 +:+ String "010" "").

(** [execGit(args)]. *)
Definition execGit (args : list string) : M string :=
  try_catch
    (stdout ← execFileAsync_git args; mret (trim stdout))
    (λ error,
       throw (Error ("Git command failed: git " +:+ join " " args
                     +:+ String "010" "" +:+ message error))).

Definition isGitRepository : M bool :=
  try_catch (execGit ["rev-parse"; "--git-dir"] ;; mret true)
            (λ _, mret false).

Definition getCurrentBranch : M string :=
  execGit ["branch"; "--show-current"].

(** The report of a dry run. *)
Definition report_dry_run (currentVersion newVersion : string)
    (branches : Branches) (createTag : bool) (tagPrefix : string) : M unit :=
  console_log "🔍 Dry run mode enabled" ;;
  console_log ("📦 Current version: " +:+ currentVersion) ;;
  console_log ("📦 New version: " +:+ newVersion) ;;
  console_log ("🔀 Source branch: " +:+ default "undefined" (source branches)) ;;
  console_log ("🎯 Target branches: "
               +:+ or_else (join ", " <$> targets branches) "none") ;;
  console_log ("🏷️  Create tag: "
               +:+ (if createTag then tagPrefix +:+ newVersion else "no")).

(** "Merge to target branches": the loop and the switch back. *)
Definition merge_to_targets (sourceBranch : string) (skipPush : bool)
    (targets : list string) : M unit :=
  for_of targets (λ targetBranch,
    console_log ("🔀 Switching to " +:+ targetBranch +:+ "...") ;;
    execGit ["switch"; targetBranch] ;;
    execGit ["pull"] ;;
    console_log ("🔄 Merging " +:+ sourceBranch +:+ " into "
                 +:+ targetBranch +:+ "...") ;;
    execGit ["pull"; "origin"; sourceBranch] ;;
    if negb skipPush then
      console_log ("⬆️  Pushing to " +:+ targetBranch +:+ "...") ;;
      execGit ["push"; "origin"; targetBranch] ;;
      mret tt
    else mret tt) ;;
  console_log ("🔙 Switching back to " +:+ sourceBranch +:+ "...") ;;
  execGit ["switch"; sourceBranch] ;;
  mret tt.

(** The steps of [bumpVersion] after the dry-run exit. *)
Definition release (currentVersion newVersion : string) (branches : Branches)
    (commitMessage : option string) (skipPush skipMerge : bool)
    (packageFile : string) (createTag : bool) (tagPrefix : string)
  : M VersionInfo :=
  console_log "🔄 Fetching latest changes..." ;;
  execGit ["fetch"] ;;
  let sourceBranch := or_else (source branches) "develop" in
  console_log ("🔀 Switching to " +:+ sourceBranch +:+ "...") ;;
  execGit ["switch"; sourceBranch] ;;
  execGit ["pull"] ;;
  console_log ("📝 Updating version: " +:+ currentVersion
               +:+ " → " +:+ newVersion) ;;
  updatePackageVersion newVersion (Some packageFile) ;;
  let message := or_else commitMessage ("build: " +:+ newVersion) in
  console_log ("💾 Committing changes: " +:+ message) ;;
  execGit ["add"; packageFile] ;;
  execGit ["commit"; "-m"; message] ;;
  (if createTag then
     let tagName := tagPrefix +:+ newVersion in
     console_log ("🏷️  Creating tag: " +:+ tagName) ;;
     execGit ["tag"; tagName] ;;
     mret tt
   else mret tt) ;;
  (if negb skipPush then
     console_log ("⬆️  Pushing to " +:+ sourceBranch +:+ "...") ;;
     execGit ["push"; "origin"; sourceBranch] ;;
     if createTag then
       console_log "⬆️  Pushing tags..." ;;
       execGit ["push"; "origin"; "--tags"] ;;
       mret tt
     else mret tt
   else mret tt) ;;
  (match targets branches with
   | Some ts =>
       if negb skipMerge && (0 <? length ts) then
         merge_to_targets sourceBranch skipPush ts
       else mret tt
   | None => mret tt
   end) ;;
  console_log ("✅ Version bumped successfully: " +:+ newVersion) ;;
  mret (mkVersionInfo currentVersion newVersion).

(** [bumpVersion(options)].  A version that is not a string has no
    [split]: the call in [calculateNewVersion] throws. *)
Definition bumpVersion (options : BumpOptions) : M VersionInfo :=
  let branches_ :=
    default (mkBranches (Some "develop") (Some ["UAT"])) (branches options) in
  let skipPush_ := default false (skipPush options) in
  let skipMerge_ := default false (skipMerge options) in
  let packageFile_ := default "package.json" (packageFile options) in
  let dryRun_ := default false (dryRun options) in
  let createTag_ := default true (createTag options) in
  let tagPrefix_ := default "v" (tagPrefix options) in
  isRepo ← isGitRepository;
  if negb isRepo then throw (Error "Not a git repository")
  else
    version ← getCurrentVersion (Some packageFile_);
    match version with
    | JString currentVersion =>
        newVersion ← lift (calculateNewVersion currentVersion (bumpType options));
        if dryRun_ then
          report_dry_run currentVersion newVersion branches_ createTag_
                         tagPrefix_ ;;
          mret (mkVersionInfo currentVersion newVersion)
        else
          release currentVersion newVersion branches_ (commitMessage options)
                  skipPush_ skipMerge_ packageFile_ createTag_ tagPrefix_
    | _ => throw (TypeError "currentVersion.split is not a function")
    end.

End Process.

(** ** [src/cli.ts] *)

(** [VBumpConfig], the declared type of [vbump.json]. *)
Module Config.
Record t : Type := mk {
  branches : option Branches;
  commitMessageTemplate : option string;
  packageFile : option string;
  createTag : option bool;
  tagPrefix : option string;
}.
Definition empty : t := mk None None None None None.
End Config.

(** The options Commander hands to the action of the bump command.  A
    flag is [true] when given; [tag] is [Some true] after [--tag],
    [Some false] after [--no-tag]. *)
Module Flags.
Record t : Type := mk {
  major : bool;
  minor : bool;
  patch : bool;
  message : option string;
  source : option string;
  targets : option string;
  skipPush : bool;
  skipMerge : bool;
  file : option string;
  dryRun : bool;
  tag : option bool;
  tagPrefix : option string;
}.
End Flags.

(** Reading a parsed document at the type [VBumpConfig].  [Some None] is
    an absent property, [None] a property of another type than declared. *)
Definition optional {A} (read : json → option A) (v : option json)
  : option (option A) :=
  match v with
  | None => Some None
  | Some x => match read x with Some a => Some (Some a) | None => None end
  end.

Definition as_string (v : json) : option string :=
  match v with JString s => Some s | _ => None end.

Definition as_bool (v : json) : option bool :=
  match v with JBool b => Some b | _ => None end.

Definition as_strings (v : json) : option (list string) :=
  match v with
  | JArray items => mapM as_string items
  | _ => None
  end.

Definition as_Branches (v : json) : option Branches :=
  match v with
  | JObject props =>
      s ← optional as_string (get_property "source" props);
      t ← optional as_strings (get_property "targets" props);
      Some (mkBranches s t)
  | _ => None
  end.

(** A document that is not an object has none of the properties; [null]
    has no properties to read, and the first access throws. *)
Definition as_VBumpConfig (v : json) : completion Config.t :=
  match v with
  | JObject props =>
      match
        b ← optional as_Branches (get_property "branches" props);
        c ← optional as_string (get_property "commitMessageTemplate" props);
        f ← optional as_string (get_property "packageFile" props);
        g ← optional as_bool (get_property "createTag" props);
        p ← optional as_string (get_property "tagPrefix" props);
        Some (Config.mk b c f g p)
      with
      | Some config => Return config
      | None => Unmodelled
      end
  | JNull =>
      Throw (TypeError "Cannot read properties of null (reading 'branches')")
  | _ => Return Config.empty
  end.

Section Cli.
Context `{P : Platform}.

Definition CONFIG_FILE : string := "vbump.json".

(** [loadConfig()], then the parsed document read as a [VBumpConfig]. *)
Definition loadConfig : M Config.t :=
  dir ← process_cwd;
  let configPath := path_join dir CONFIG_FILE in
  found ← existsSync configPath;
  if negb found then mret Config.empty
  else
    parsed ←
      try_catch
        (content ← readFile configPath;
         v ← JSON_parse_ content;
         mret (Some v))
        (λ error,
           console_warn ("⚠️  Failed to load config file: " +:+ JS.message error) ;;
           mret None);
    match parsed with
    | Some v => lift (as_VBumpConfig v)
    | None => mret Config.empty
    end.

(** "Determine bump type from flags". *)
Definition bumpType_of_flags (options : Flags.t) : option BumpType :=
  if Flags.major options then Some major
  else if Flags.minor options then Some minor
  else if Flags.patch options then Some patch
  else None.

(** "Parse target branches": the variable [targets]. *)
Definition parse_targets (options : Flags.t) (config : Config.t)
  : option (list string) :=
  let targets_ := Config.branches config ≫= targets in
  match truthy (Flags.targets options) with
  | Some t => Some (map trim (split "," t))
  | None => targets_
  end.

(** "Merge config with CLI options": the object [bumpOptions]. *)
Definition bumpOptions (bumpType : BumpType) (options : Flags.t)
    (config : Config.t) : M BumpOptions :=
  let targets_ := parse_targets options config in
  let file_ :=
    or_else (Flags.file options)
            (or_else (Config.packageFile config) "package.json") in
  commitMessage_ ←
    match truthy (Flags.message options) with
    | Some m => mret (Some m)
    | None =>
        match truthy (Config.commitMessageTemplate config) with
        | Some template =>
            version ← getCurrentVersion (Some file_);
            match ToString_json version with
            | Some shown => mret (Some (replace "{version}" shown template))
            | None => lift Unmodelled
            end
        | None => mret None
        end
    end;
  mret (mkBumpOptions
          bumpType
          (Some (mkBranches
                   (Some (or_else (Flags.source options)
                            (or_else (Config.branches config ≫= source)
                                     "develop")))
                   (Some (default ["UAT"] targets_))))
          commitMessage_
          (Some (Flags.skipPush options))
          (Some (Flags.skipMerge options))
          (Some file_)
          (Some (Flags.dryRun options))
          (Some (match Flags.tag options with
                 | Some t => t
                 | None => default true (Config.createTag config)
                 end))
          (Some (or_else (Flags.tagPrefix options)
                   (or_else (Config.tagPrefix config) "v")))).

(** The action of the bump command. *)
Definition action (options : Flags.t) : M unit :=
  try_catch
    (match bumpType_of_flags options with
     | None =>
         console_error
           "❌ Please specify a bump type: --major, --minor, or --patch" ;;
         process_exit 1
     | Some bumpType =>
         config ← loadConfig;
         opts ← bumpOptions bumpType options config;
         result ← bumpVersion opts;
         if negb (Flags.dryRun options) then
           console_log (String "010" "🎉 Version successfully bumped from "
                        +:+ oldVersion result +:+ " to " +:+ newVersion result)
         else mret tt
     end)
    (λ error,
       console_error ("❌ Error: " +:+ JS.message error) ;;
       process_exit 1).

End Cli.

(** ** [src/cli.ts], the [current] command *)

(** [v[key]] on a value [JSON.parse] built, for a key that no string and
    no array has of itself: [null] has no properties to read, and the
    access throws; a primitive and an array do not have the property. *)
Definition member (key : string) (v : json) : completion (option json) :=
  match v with
  | JNull =>
      Throw (TypeError ("Cannot read properties of null (reading '"
                        +:+ key +:+ "')"))
  | JObject props => Return (get_property key props)
  | _ => Return None
  end.

(** [options.file || config.packageFile || 'package.json'], on the
    document [loadConfig] returned.  With a file given the configuration
    is not looked at.  A [packageFile] that is truthy and no string goes
    to [join] of [path] as it is, which is not followed. *)
Definition current_packageFile (file : option string) (config : json)
  : completion string :=
  match truthy file with
  | Some f => Return f
  | None =>
      match member "packageFile" config with
      | Return (Some (JString s)) => Return (or_else (Some s) "package.json")
      | Return (Some v) =>
          if ToBoolean v then Unmodelled else Return "package.json"
      | Return None => Return "package.json"
      | Throw e => Throw e
      | Unmodelled => Unmodelled
      end
  end.

Section Current.
Context `{P : Platform}.

(** [loadConfig()] as it stands: the parsed document, whatever it is, or
    the empty object. *)
Definition loadConfig_document : M json :=
  dir ← process_cwd;
  let configPath := path_join dir CONFIG_FILE in
  found ← existsSync configPath;
  if negb found then mret (JObject [])
  else
    try_catch
      (content ← readFile configPath;
       JSON_parse_ content)
      (λ error,
         console_warn ("⚠️  Failed to load config file: " +:+ JS.message error) ;;
         mret (JObject [])).

(** The action of [vbump current]; [file] is [options.file].  The
    template literal prints the [version] property as ToString makes a
    string of it.

    The root command declares [-f, --file] as well (line 64), and
    Commander, which is not told to take options by their position,
    gives an option that the root command knows to the root command,
    wherever it stands on the command line: [vbump current -f
    other.json] runs this action without a file, as [current_action
    None]. *)
Definition current_action (file : option string) : M unit :=
  try_catch
    (config ← loadConfig_document;
     packageFile ← lift (current_packageFile file config);
     version ← getCurrentVersion (Some packageFile);
     match ToString_json version with
     | Some shown => console_log ("📦 Current version: " +:+ shown)
     | None => lift Unmodelled
     end)
    (λ error,
       console_error ("❌ Error: " +:+ JS.message error) ;;
       process_exit 1).

End Current.

(** ** [src/init-config.ts] *)

(** [s.toLowerCase()] on the ASCII letters.  The bytes of any other
    character are kept as they are: the program compares the result with
    ['n'] only, and [N] is the one character that [toLowerCase] turns
    into [n]. *)
Definition lower (c : ascii) : ascii :=
  let n := nat_of_ascii c in
  if (65 <=? n) && (n <=? 90) then ascii_of_nat (n + 32) else c.

Definition toLowerCase (s : string) : string :=
  string_of_list_ascii (lower <$> list_ascii_of_string s).

(** "Build config": the object [config] after the assignments, made from
    the six answers. *)
Definition build_config
    (sourceBranch targetsInput commitMessage packageFile createTag tagPrefix
     : string) : json :=
  let nonempty (s : string) := negb (String.eqb s "") in
  let branches0 :=
    [("targets",
      JArray (JString <$> (if nonempty targetsInput
                           then map trim (split "," targetsInput)
                           else [])))] in
  let branches1 :=
    if nonempty (trim sourceBranch)
    then set_property "source" (JString (trim sourceBranch)) branches0
    else branches0 in
  let config0 := [("branches", JObject branches1)] in
  let config1 :=
    if nonempty (trim commitMessage)
    then set_property "commitMessageTemplate" (JString (trim commitMessage))
                      config0
    else config0 in
  let config2 :=
    if nonempty (trim packageFile)
       && negb (String.eqb (trim packageFile) "package.json")
    then set_property "packageFile" (JString (trim packageFile)) config1
    else config1 in
  let config3 :=
    if String.eqb (toLowerCase createTag) "n"
    then set_property "createTag" (JBool false) config2
    else config2 in
  let config4 :=
    if nonempty (trim tagPrefix)
    then set_property "tagPrefix" (JString (trim tagPrefix)) config3
    else config3 in
  JObject config4.

(** [question(rl, query)]: the next line typed.  The lines typed are the
    [input], one answer a line; the question itself goes to the terminal
    and is not among the events.  When the input has come to its end the
    promise is never settled, and what the process then does is not
    followed. *)
Definition question (query : string) (input : list string)
  : completion (string * list string) :=
  match input with
  | answer :: rest => Return (answer, rest)
  | [] => Unmodelled
  end.

Section Init.
Context `{P : Platform}.

(** [initConfig()], run on the lines of [input]. *)
Definition initConfig (input : list string) : M unit :=
  dir ← process_cwd;
  let configPath := path_join dir CONFIG_FILE in
  found ← existsSync configPath;
  if (found : bool) then
    console_log ("⚠️  Configuration file already exists: " +:+ CONFIG_FILE) ;;
    console_log "Delete the existing file if you want to reinitialize."
  else
    console_log ("🚀 Initializing vbump configuration..." +:+ String "010" "") ;;
    try_catch
      ('(sourceBranch, input) ← lift (question
         "Source branch (leave empty to use current branch when running): "
         input);
       '(targetsInput, input) ← lift (question
         "Target branches (comma-separated, leave empty for none): " input);
       '(commitMessage, input) ← lift (question
         "Commit message template (use {version} as placeholder, default: chore(release): {version}): "
         input);
       '(packageFile, input) ← lift (question
         "Package file path (default: package.json): " input);
       '(createTag, input) ← lift (question "Create git tags? (Y/n): " input);
       '(tagPrefix, _) ← lift (question "Tag prefix (default: none): " input);
       let config :=
         build_config sourceBranch targetsInput commitMessage packageFile
                      createTag tagPrefix in
       writeFile configPath (JSON_stringify config 2 +:+ String "010" "") ;;
       console_log (String "010" "✅ Configuration file created: "
                    +:+ CONFIG_FILE) ;;
       console_log (String "010" "Configuration:") ;;
       console_log (JSON_stringify config 2) ;;
       console_log (String "010"
                      "You can now run: vbump --major | --minor | --patch"))
      (λ error,
         console_error ("❌ Error creating config: " +:+ JS.message error) ;;
         throw error).

End Init.

(** ** A platform to run the program on

    A stand-in for Node.js and [git], for the runs the examples below
    evaluate: paths are joined with a slash, [git] prints nothing and
    fails on the commands the repository lists, and the two JSON
    functions know a handful of documents. *)
Module Fixture.

Definition quote (s : string) : string :=
  String "034" s +:+ String "034" "".

Definition newline : string := String "010" "".

(** A printer laid out as [JSON.stringify] lays out: with a gap, one
    member per line, indented by the gap once per level, and a space
    after the colon.  Strings are printed without escapes. *)
Fixpoint print (gap current : string) (v : json) {struct v} : string :=
  let inner := current +:+ gap in
  let break_ (indent : string) :=
    if String.eqb gap "" then "" else newline +:+ indent in
  let colon := if String.eqb gap "" then ":" else ": " in
  match v with
  | JNull => "null"
  | JBool b => if b then "true" else "false"
  | JNumber (Int z) => default "null" (ToString (Int z))
  | JNumber _ => "null"
  | JString s => quote s
  | JArray [] => "[]"
  | JArray items =>
      "[" +:+ break_ inner
      +:+ join ("," +:+ break_ inner) (map (print gap inner) items)
      +:+ break_ current +:+ "]"
  | JObject [] => "{}"
  | JObject props =>
      "{" +:+ break_ inner
      +:+ join ("," +:+ break_ inner)
            (map (λ kv, quote (fst kv) +:+ colon +:+ print gap inner (snd kv))
                 props)
      +:+ break_ current +:+ "}"
  end.

Definition stringify (v : json) (indent : nat) : string :=
  print (String.concat "" (replicate indent " ")) "" v.

Definition manifest (version : json) : json :=
  JObject [("name", JString "demo"); ("version", version);
           ("private", JBool true)].

Definition config_template : json :=
  JObject [("commitMessageTemplate", JString "chore(release): {version}")].

(** The documents [parse] knows, each in the layout [stringify] gives
    it with two spaces and a final newline. *)
Definition known : list json :=
  [ manifest (JString "1.2.3"); manifest (JString "1.2.4");
    manifest (JString "1.3.0"); manifest (JString "2.0.0");
    manifest (JString ""); manifest (JNumber (Int 0));
    manifest (JBool false); manifest JNull;
    JObject [("name", JString "demo")];
    config_template ].

Definition text_of (v : json) : string := stringify v 2 +:+ newline.

Definition parse (text : string) : json + string :=
  match list_find (λ v, text = text_of v) known with
  | Some (_, v) => inl v
  | None => inr "Unexpected token in JSON"
  end.

(** The repository is the list of the command lines [git] fails on. *)
#[export] Instance platform : Platform := {|
  repository := list (list string);
  path_join dir name := dir +:+ "/" +:+ name;
  JSON_parse := parse;
  JSON_stringify := stringify;
  execFile_git args w :=
    (files w, repo w,
     if bool_decide (args ∈ repo w)
     then inr ("Command failed: git " +:+ join " " args)
     else inl "");
|}.

(** A project at [/app] whose manifest has the given [version]
    property, in a repository where the [failing] commands fail. *)
Definition project_at (version : json) (failing : list (list string))
  : World (@repository platform) :=
  mkWorld "/app"
          {[ "/app/package.json" := text_of (manifest version) ]}
          failing.

(** The same at version 1.2.3. *)
Definition project (failing : list (list string))
  : World (@repository platform) :=
  project_at (JString "1.2.3") failing.

Definition with_config (config : json) (w : World (@repository platform))
  : World (@repository platform) :=
  mkWorld (cwd w) (<["/app/vbump.json" := text_of config]> (files w)) (repo w).

(** [vbump --patch], the options of a dry run, and those of a release
    into two target branches. *)
Definition patch_flags : Flags.t :=
  Flags.mk false false true None None None false false None false None None.

Definition dry_run_options : BumpOptions :=
  mkBumpOptions minor None None None None None (Some true) None None.

Definition two_targets : BumpOptions :=
  mkBumpOptions patch
    (Some (mkBranches (Some "develop") (Some ["UAT"; "production"])))
    None None None None None None None.

End Fixture.


(** The platform of [Fixture], with other documents for [JSON.parse] to
    know. *)
Definition platform_knowing (docs : list json) : Platform := {|
  repository := list (list string);
  path_join dir name := dir +:+ "/" +:+ name;
  JSON_parse text :=
    match list_find (λ v, text = Fixture.text_of v) docs with
    | Some (_, v) => inl v
    | None => inr "Unexpected token in JSON"
    end;
  JSON_stringify := Fixture.stringify;
  execFile_git args w :=
    (files w, repo w,
     if bool_decide (args ∈ repo w)
     then inr ("Command failed: git " +:+ join " " args)
     else inl "");
|}.

(** ** Vocabulary of the statements *)

Definition is_digit (c : ascii) : bool :=
  match digit_of_ascii c with Some _ => true | None => false end.

Fixpoint all_digits (s : string) : bool :=
  match s with
  | EmptyString => true
  | String c r => is_digit c && all_digits r
  end.

(** A non-negative integer written without a sign: one decimal digit or
    more, and nothing else. *)
Definition unsigned_integer (s : string) : bool :=
  negb (String.eqb s "") && all_digits s.

(** Exactly three components between dots, each an unsigned integer. *)
Definition three_unsigned_integers (s : string) : bool :=
  match split "." s with
  | [a; b; c] => unsigned_integer a && unsigned_integer b && unsigned_integer c
  | _ => false
  end.

(** The version string ["X.Y.Z"]. *)
Definition version_string (X Y Z : Z) : string :=
  decimal X +:+ "." +:+ decimal Y +:+ "." +:+ decimal Z.

(** The error of an invalid version. *)
Definition invalid_version_format (current : string) : exn :=
  Error ("Invalid version format: " +:+ current
         +:+ ". Expected semantic version (e.g., 1.2.3)").

(** The error [execGit] throws when [git args] fails with [msg]. *)
Definition git_command_failed (args : list string) (msg : string) : exn :=
  Error ("Git command failed: git " +:+ join " " args
         +:+ String "010" "" +:+ msg).

(** The command lines of the calls of [git] in a trace, the files
    written, and the lines printed. *)
Definition gits (evs : list event) : list (list string) :=
  omap (λ e, match e with Git args _ => Some args | _ => None end) evs.

Definition writes (evs : list event) : list (string * string) :=
  omap (λ e, match e with WriteFile p c => Some (p, c) | _ => None end) evs.

Definition logs (evs : list event) : list string :=
  omap (λ e, match e with ConsoleLog l => Some l | _ => None end) evs.

(** [needle] occurs in [s]. *)
Definition occurs_in (needle s : string) : Prop :=
  ∃ before rest, s = before +:+ needle +:+ rest.

(** What a completion returned, if it returned. *)
Definition outcome_value {A} (c : completion A) : option A :=
  match c with Return a => Some a | _ => None end.

(** The command lines of a merge into one target branch, and of the
    whole merge step. *)
Definition merge_commands (sourceBranch : string) (skipPush : bool)
    (targetBranch : string) : list (list string) :=
  [["switch"; targetBranch]; ["pull"]; ["pull"; "origin"; sourceBranch]]
  ++ (if skipPush then [] else [["push"; "origin"; targetBranch]]).

Definition merge_plan (sourceBranch : string) (skipPush : bool)
    (targets : list string) : list (list string) :=
  flat_map (merge_commands sourceBranch skipPush) targets
  ++ [["switch"; sourceBranch]].

(** A string option resolved with [||]: the override when it is given
    and not empty, else the persisted value when there is one and it is
    not empty, else the default. *)
Definition precedence (override persisted : option string)
    (default_ resolved : string) : Prop :=
  (∀ o, override = Some o → o ≠ "" → resolved = o)
  ∧ (∀ p, override = None ∨ override = Some "" →
          persisted = Some p → p ≠ "" → resolved = p)
  ∧ (override = None ∨ override = Some "" →
     persisted = None ∨ persisted = Some "" → resolved = default_).

(** The number of times a character occurs in a string. *)
Fixpoint occurrences (c : ascii) (s : string) : nat :=
  match s with
  | EmptyString => 0
  | String x r => (if Ascii.eqb x c then 1 else 0) + occurrences c r
  end.

Section Behaviours.
Context `{P : Platform}.

(** A computation that only reads: it does nothing that is seen and
    leaves the world as it is. *)
Definition reads_only {A} (m : M A) : Prop :=
  ∀ w, events (m w) = [] ∧ after (m w) = w.

(** A computation that at most prints: it leaves the world as it is,
    calls no [git] and writes no file. *)
Definition console_only {A} (m : M A) : Prop :=
  ∀ w, after (m w) = w ∧ gits (events (m w)) = [] ∧ writes (events (m w)) = [].

(** A computation whose calls of [git] are the command lines of [plan],
    in order: all of them when it returns, the first ones otherwise. *)
Definition follows {A} (plan : list (list string)) (m : M A) : Prop :=
  ∀ w, gits (events (m w)) `prefix_of` plan
       ∧ ∀ a, outcome (m w) = Return a → gits (events (m w)) = plan.

(** A computation in which a failing call of [git] is the last thing
    done, and which then throws the error of [execGit] for that call. *)
Definition fail_stop {A} (m : M A) : Prop :=
  ∀ w pre args msg post,
    events (m w) = pre ++ Git args (inr msg) :: post →
    post = [] ∧ outcome (m w) = Throw (git_command_failed args msg).

End Behaviours.

(** The decimal numeral of an integer, as ToString writes it. *)
Definition integer_string (z : Z) : string :=
  if (z <? 0)%Z then String "-" (decimal (- z)) else decimal z.

(** The three numbers after a bump. *)
Definition bumped (kind : BumpType) (x y z : Z) : list number :=
  match kind with
  | major => [add1 (Int x); Int 0; Int 0]
  | minor => [Int x; add1 (Int y); Int 0]
  | patch => [Int x; Int y; add1 (Int z)]
  end.

(** The command lines of [release], in order. *)
Definition release_plan (newVersion : string) (branches : Branches)
    (commitMessage : option string) (skipPush skipMerge : bool)
    (packageFile : string) (createTag : bool) (tagPrefix : string)
  : list (list string) :=
  let sourceBranch := or_else (source branches) "develop" in
  [ ["fetch"]; ["switch"; sourceBranch]; ["pull"]; ["add"; packageFile];
    ["commit"; "-m"; or_else commitMessage ("build: " +:+ newVersion)] ]
  ++ (if createTag then [["tag"; tagPrefix +:+ newVersion]] else [])
  ++ (if skipPush then []
      else ["push"; "origin"; sourceBranch]
           :: (if createTag then [["push"; "origin"; "--tags"]] else []))
  ++ match targets branches with
     | Some ts =>
         if negb skipMerge && (0 <? length ts)
         then merge_plan sourceBranch skipPush ts
         else []
     | None => []
     end.

(** An event that is no call of [git] with the first argument
    [command]. *)
Definition no_git (command : string) (e : event) : Prop :=
  match e with Git args _ => head args ≠ Some command | _ => True end.

(** An event that writes no file, and that calls [git] for nothing but
    the repository probe. *)
Definition probe_only (e : event) : Prop :=
  match e with
  | Git args _ => args = ["rev-parse"; "--git-dir"]
  | WriteFile _ _ => False
  | _ => True
  end.

(** An event that is no switch to another branch than [branch]. *)
Definition switches_to (branch : string) (e : event) : Prop :=
  match e with
  | Git args _ => head args = Some "switch" → args = ["switch"; branch]
  | _ => True
  end.

(** An event that writes no file. *)
Definition no_write (e : event) : Prop :=
  match e with WriteFile _ _ => False | _ => True end.

(** An event that is neither an error line nor the end of the process. *)
Definition no_error_exit (e : event) : Prop :=
  match e with ConsoleError _ | Exit _ => False | _ => True end.

Section Confinement.
Context `{P : Platform}.

(** A computation all of whose events are [ok], when run in the
    directory [dir], and which stays in that directory. *)
Definition emits_only {A} (dir : string) (ok : event → Prop) (m : M A) : Prop :=
  ∀ w, cwd w = dir → Forall ok (events (m w)) ∧ cwd (after (m w)) = dir.

(** A computation that writes at most once, and then the file [path]. *)
Definition writes_once {A} (dir path : string) (m : M A) : Prop :=
  ∀ w, cwd w = dir →
       writes (events (m w)) = [] ∨ ∃ content, writes (events (m w)) = [(path, content)].

End Confinement.

(** ** Strings and numbers: lemmas *)

Example split_examples :
  split "." "1.2.3" = ["1"; "2"; "3"] ∧ split "." "" = [""]
  ∧ split "," "a,,b," = ["a"; ""; "b"; ""].
Proof. repeat split. Qed.

Example trim_examples :
  trim (String "009" " a b " +:+ String "010" "") = "a b"
  ∧ trim "   " = "" ∧ trim (String "194" (String "160" "x")) = "x".
Proof. repeat split. Qed.

Example Number_examples :
  map Number [""; " 12 "; "-2"; "+7"; "0x1F"; "0b101"; "1e3"; "10e-1"; "08"]
  = map Int [0; 12; -2; 7; 31; 5; 1000; 1; 8]%Z
  ∧ map Number ["a"; "1 2"; "12px"; "1_0"; "-0x10"; "."; "5e"; "--1"]
    = replicate 8 NaN
  ∧ map Number ["Infinity"; "-Infinity"; "1e-1"; "9007199254740993"]
    = replicate 4 Other.
Proof. repeat split. Qed.

Example replace_examples :
  replace "{version}" "1.2.3" "v{version} and {version}" = "v1.2.3 and {version}"
  ∧ replace "{version}" "1.2.3" "no placeholder" = "no placeholder"
  ∧ replace "{version}" "<$&>" "x{version}y" = "x<{version}>y".
Proof. repeat split. Qed.

Section Digits.

Local Open Scope Z_scope.
#[local] Arguments ascii_of_digit : simpl never.
#[local] Arguments is_digit : simpl never.
#[local] Arguments digit_of_ascii : simpl never.
#[local] Arguments hexdigit_of_ascii : simpl never.
#[local] Arguments Ascii.eqb : simpl never.
#[local] Arguments Z.modulo : simpl never.
#[local] Arguments Z.div : simpl never.
#[local] Arguments Z.pow : simpl never.

Lemma digit_of_ascii_range c d :
  digit_of_ascii c = Some d →
  (48 ≤ nat_of_ascii c ≤ 57)%nat ∧ d = Z.of_nat (nat_of_ascii c - 48).
Proof.
  unfold digit_of_ascii.
  destruct (Nat.leb_spec 48 (nat_of_ascii c)), (Nat.leb_spec (nat_of_ascii c) 57);
    simpl; intros [= <-] || intros [=]; split; [lia | reflexivity].
Qed.

Lemma is_digit_range c :
  is_digit c = true → (48 ≤ nat_of_ascii c ≤ 57)%nat.
Proof.
  unfold is_digit. destruct (digit_of_ascii c) eqn:E; [|discriminate].
  intros _. apply digit_of_ascii_range in E. tauto.
Qed.

Lemma hexdigit_of_digit c d :
  digit_of_ascii c = Some d → hexdigit_of_ascii c = Some d ∧ 0 ≤ d < 10.
Proof.
  intros E. pose proof (digit_of_ascii_range _ _ E) as [R ->].
  unfold hexdigit_of_ascii.
  destruct (Nat.leb_spec 48 (nat_of_ascii c)); [|lia].
  destruct (Nat.leb_spec (nat_of_ascii c) 57); [|lia].
  simpl. split; [reflexivity | lia].
Qed.

Lemma nat_of_ascii_of_digit d :
  0 ≤ d < 10 → nat_of_ascii (ascii_of_digit d) = (48 + Z.to_nat d)%nat.
Proof.
  intros Hd. unfold ascii_of_digit. apply nat_ascii_embedding. lia.
Qed.

Lemma digit_of_ascii_of_digit d :
  0 ≤ d < 10 → digit_of_ascii (ascii_of_digit d) = Some d.
Proof.
  intros Hd. unfold digit_of_ascii. rewrite nat_of_ascii_of_digit by assumption.
  destruct (Nat.leb_spec 48 (48 + Z.to_nat d)); [|lia].
  destruct (Nat.leb_spec (48 + Z.to_nat d) 57); [|lia].
  simpl. f_equal. lia.
Qed.

Lemma is_digit_ascii_of_digit d : 0 ≤ d < 10 → is_digit (ascii_of_digit d) = true.
Proof.
  intros Hd. unfold is_digit. now rewrite digit_of_ascii_of_digit.
Qed.

Lemma append_empty_r (s : string) : s +:+ "" = s.
Proof. induction s as [|c s IH]; simpl; [reflexivity | now rewrite IH]. Qed.

Lemma append_assoc (a b c : string) : (a +:+ b) +:+ c = a +:+ (b +:+ c).
Proof. induction a as [|x a IH]; simpl; [reflexivity | now rewrite IH]. Qed.

Lemma all_digits_app a b :
  all_digits (a +:+ b) = all_digits a && all_digits b.
Proof.
  induction a as [|c a IH]; simpl; [reflexivity|].
  rewrite IH. now rewrite andb_assoc.
Qed.

(** *** Printing a natural number and reading it back *)

Lemma digits_of_O n acc :
  digits_of 0 n acc = String (ascii_of_digit (n mod 10)) acc.
Proof. reflexivity. Qed.

Lemma digits_of_S fuel n acc :
  digits_of (S fuel) n acc
  = if n <? 10 then String (ascii_of_digit (n mod 10)) acc
    else digits_of fuel (n / 10) (String (ascii_of_digit (n mod 10)) acc).
Proof. reflexivity. Qed.

Lemma digits_of_app fuel : ∀ n acc,
  digits_of fuel n acc = digits_of fuel n "" +:+ acc.
Proof.
  induction fuel as [|f IH]; intros n acc; [reflexivity|].
  rewrite !digits_of_S. destruct (n <? 10); [reflexivity|].
  rewrite IH. rewrite (IH _ (String _ "")). now rewrite append_assoc.
Qed.

Lemma all_digits_digits_of fuel : ∀ n acc,
  all_digits acc = true → all_digits (digits_of fuel n acc) = true.
Proof.
  assert (D : ∀ n acc, all_digits acc = true →
              all_digits (String (ascii_of_digit (n mod 10)) acc) = true).
  { intros n acc Hacc. cbn [all_digits]. rewrite Hacc.
    rewrite is_digit_ascii_of_digit; [reflexivity|].
    apply Z.mod_pos_bound. lia. }
  induction fuel as [|f IH]; intros n acc Hacc.
  - rewrite digits_of_O. now apply D.
  - rewrite digits_of_S. destruct (n <? 10); [now apply D|].
    apply IH. now apply D.
Qed.

Lemma digits_of_nonempty fuel n acc : digits_of fuel n acc ≠ "".
Proof.
  revert n acc. induction fuel as [|f IH]; intros n acc.
  - rewrite digits_of_O. discriminate.
  - rewrite digits_of_S. destruct (n <? 10); [discriminate | apply IH].
Qed.

Lemma digits_value_digit d a r :
  0 ≤ d < 10 →
  digits_value 10 a (String (ascii_of_digit d) r) = digits_value 10 (a * 10 + d) r.
Proof.
  intros Hd. cbn [digits_value].
  destruct (hexdigit_of_digit _ _ (digit_of_ascii_of_digit d Hd)) as [-> _].
  destruct (Z.ltb_spec d 10); [reflexivity | lia].
Qed.

Lemma digits_value_digits_of fuel : ∀ n acc,
  0 ≤ n < 10 ^ Z.of_nat (S fuel) →
  digits_value 10 0 (digits_of fuel n acc) = digits_value 10 n acc.
Proof.
  induction fuel as [|f IH]; intros n acc Hn.
  - change (10 ^ Z.of_nat 1) with 10 in Hn. rewrite digits_of_O.
    rewrite Z.mod_small by lia.
    rewrite digits_value_digit by lia. f_equal.
  - rewrite digits_of_S. destruct (Z.ltb_spec n 10).
    + rewrite Z.mod_small by lia. rewrite digits_value_digit by lia. f_equal.
    + rewrite IH.
      * rewrite digits_value_digit by (apply Z.mod_pos_bound; lia).
        f_equal. pose proof (Z.div_mod n 10). lia.
      * replace (10 ^ Z.of_nat (S (S f))) with (10 * 10 ^ Z.of_nat (S f)) in Hn
          by (rewrite (Nat2Z.inj_succ (S f)), Z.pow_succ_r; lia).
        split; [apply Z.div_pos; lia|].
        apply Z.div_lt_upper_bound; lia.
Qed.

Lemma decimal_fuel n : 0 ≤ n → n < 10 ^ Z.of_nat (S (Z.to_nat (Z.log2 n))).
Proof.
  intros Hn. rewrite Nat2Z.inj_succ, Z2Nat.id by apply Z.log2_nonneg.
  assert (n < 2 ^ Z.succ (Z.log2 n)).
  { destruct (Z.eq_dec n 0) as [->|]; [reflexivity|].
    apply Z.log2_spec. lia. }
  assert (2 ^ Z.succ (Z.log2 n) ≤ 10 ^ Z.succ (Z.log2 n)).
  { apply Z.pow_le_mono_l. lia. }
  lia.
Qed.

Lemma digits_value_decimal n : 0 ≤ n → digits_value 10 0 (decimal n) = Some n.
Proof.
  intros Hn. unfold decimal.
  rewrite digits_value_digits_of by (split; [assumption | now apply decimal_fuel]).
  reflexivity.
Qed.

Lemma decimal_value_decimal n : 0 ≤ n → decimal_value (decimal n) = n.
Proof.
  intros Hn. unfold decimal_value. now rewrite digits_value_decimal.
Qed.

Lemma all_digits_decimal n : all_digits (decimal n) = true.
Proof. apply all_digits_digits_of. reflexivity. Qed.

Lemma decimal_nonempty n : decimal n ≠ "".
Proof. apply digits_of_nonempty. Qed.

Lemma unsigned_integer_decimal n : unsigned_integer (decimal n) = true.
Proof.
  unfold unsigned_integer. rewrite all_digits_decimal.
  destruct (String.eqb_spec (decimal n) "") as [E|]; [|reflexivity].
  now apply decimal_nonempty in E.
Qed.

(** *** Digits hold no dot and no white space *)

Lemma digit_not_char c (x : ascii) :
  is_digit c = true → is_digit x = false → Ascii.eqb c x = false.
Proof.
  intros Hc Hx. destruct (Ascii.eqb_spec c x) as [->|]; [|reflexivity].
  congruence.
Qed.

Lemma split_digits s : all_digits s = true → split "." s = [s].
Proof.
  induction s as [|c s IH]; simpl; [reflexivity|].
  intros [Hc Hs]%andb_prop.
  rewrite (digit_not_char c ".") by (assumption || reflexivity).
  now rewrite IH.
Qed.

Lemma split_digits_dot s r :
  all_digits s = true → split "." (s +:+ String "." r) = s :: split "." r.
Proof.
  induction s as [|c s IH]; simpl; [reflexivity|].
  intros [Hc Hs]%andb_prop.
  rewrite (digit_not_char c ".") by (assumption || reflexivity).
  now rewrite IH.
Qed.

Lemma drop_ws_plain backwards a l :
  (nat_of_ascii a < 128)%nat → ws1 a = false →
  drop_ws backwards (a :: l) = a :: l.
Proof.
  intros Ha Hws. simpl. rewrite Hws.
  destruct l as [|b l]; [reflexivity|].
  assert (F : ∀ k, (128 ≤ k)%nat → (nat_of_ascii a =? k)%nat = false).
  { intros k Hk. apply Nat.eqb_neq. lia. }
  assert (L : (128 <=? nat_of_ascii a)%nat = false).
  { apply Nat.leb_gt. lia. }
  assert (W2 : (if backwards then ws2 b a else ws2 a b) = false).
  { unfold ws2. destruct backwards; rewrite F by lia;
      [apply andb_false_r | reflexivity]. }
  rewrite W2. destruct l as [|c l]; [reflexivity|].
  assert (W3 : (if backwards then ws3 c b a else ws3 a b c) = false).
  { unfold ws3. destruct backwards.
    - rewrite L. rewrite !F by lia.
      rewrite ?andb_false_r, ?andb_false_l, ?orb_false_r. reflexivity.
    - rewrite !F by lia. reflexivity. }
  now rewrite W3.
Qed.

Lemma digit_plain c :
  is_digit c = true → (nat_of_ascii c < 128)%nat ∧ ws1 c = false.
Proof.
  intros H%is_digit_range. split; [lia|]. unfold ws1.
  destruct (Nat.leb_spec 9 (nat_of_ascii c)), (Nat.leb_spec (nat_of_ascii c) 13),
    (Nat.eqb_spec (nat_of_ascii c) 32); simpl; try reflexivity; lia.
Qed.

Lemma drop_ws_digits backwards (l : list ascii) :
  Forall (λ c, is_digit c = true) l → drop_ws backwards l = l.
Proof.
  destruct 1 as [|c l Hc _]; [reflexivity|].
  destruct (digit_plain c Hc). now apply drop_ws_plain.
Qed.

Lemma all_digits_Forall s :
  all_digits s = true → Forall (λ c, is_digit c = true) (list_ascii_of_string s).
Proof.
  induction s as [|c s IH]; simpl; [constructor|].
  intros [Hc Hs]%andb_prop. constructor; auto.
Qed.

Lemma trim_digits s : all_digits s = true → trim s = s.
Proof.
  intros H%all_digits_Forall. unfold trim, trimEnd, trimStart.
  rewrite (drop_ws_digits false) by assumption.
  rewrite string_of_list_ascii_of_string.
  rewrite (drop_ws_digits true) by now apply Forall_rev.
  rewrite rev_involutive. apply string_of_list_ascii_of_string.
Qed.

(** *** [Number] on a run of digits *)

Lemma span_digits_all s : all_digits s = true → span_digits s = (s, "").
Proof.
  induction s as [|c s IH]; simpl; [reflexivity|].
  intros [Hc Hs]%andb_prop. unfold is_digit in Hc.
  destruct (digit_of_ascii c); [|discriminate]. now rewrite IH.
Qed.

Lemma nondecimal_literal_digits s :
  all_digits s = true → nondecimal_literal s = None.
Proof.
  destruct s as [|z [|p [|c r]]]; try reflexivity.
  simpl. intros [_ [Hp _]%andb_prop]%andb_prop.
  destruct (Ascii.eqb z "0"); [|reflexivity].
  now rewrite !(digit_not_char p) by (assumption || reflexivity).
Qed.

Lemma of_Z_not_NaN z : of_Z z ≠ NaN.
Proof. unfold of_Z. destruct (Z.abs z <=? two53); discriminate. Qed.

Lemma Number_digits s :
  unsigned_integer s = true → Number s = of_Z (decimal_value s).
Proof.
  unfold unsigned_integer. intros [Hne Hs]%andb_prop.
  unfold Number. rewrite trim_digits by assumption.
  destruct s as [|c r]; [discriminate|].
  rewrite nondecimal_literal_digits by assumption.
  pose proof Hs as [Hc _]%andb_prop.
  rewrite !(digit_not_char c) by (assumption || reflexivity).
  unfold unsigned_decimal_literal.
  replace (String.eqb (String c r) "Infinity") with false
    by (simpl; now rewrite (digit_not_char c) by (assumption || reflexivity)).
  rewrite span_digits_all by assumption.
  rewrite append_empty_r. simpl exponent_part. cbv iota beta.
  unfold of_decimal. simpl String.length.
  change (0 - Z.of_nat 0) with 0. change (0 <=? 0) with true. cbv iota.
  rewrite Z.pow_0_r, Z.mul_1_r. reflexivity.
Qed.

Lemma Number_decimal n : 0 ≤ n ≤ two53 → Number (decimal n) = Int n.
Proof.
  intros Hn. rewrite Number_digits by apply unsigned_integer_decimal.
  rewrite decimal_value_decimal by lia. unfold of_Z.
  destruct (Z.leb_spec (Z.abs n) two53); [reflexivity | lia].
Qed.

Lemma ToString_Int n : 0 ≤ n → ToString (Int n) = Some (decimal n).
Proof.
  intros Hn. simpl. destruct (Z.ltb_spec n 0); [lia | reflexivity].
Qed.

Lemma split_version_string a b c :
  all_digits a = true → all_digits b = true → all_digits c = true →
  split "." (a +:+ "." +:+ b +:+ "." +:+ c) = [a; b; c].
Proof.
  intros Ha Hb Hc.
  change ("." +:+ b +:+ "." +:+ c) with (String "." (b +:+ String "." c)).
  rewrite split_digits_dot by assumption.
  rewrite split_digits_dot by assumption.
  now rewrite split_digits.
Qed.

End Digits.

(** ** [calculateNewVersion] *)

Section VersionCalculator.

Local Open Scope Z_scope.
#[local] Arguments Z.add : simpl never.

Lemma existsb_isNaN (l : list string) :
  existsb isNaN (map Number l) = true ↔ ∃ c, c ∈ l ∧ Number c = NaN.
Proof.
  induction l as [|x l IH]; simpl.
  - split; [discriminate | intros (c & Hc & _); inversion Hc].
  - rewrite orb_true_iff, IH. split.
    + intros [Hx | (c & Hc & E)].
      * exists x. split; [left|]. destruct (Number x); (reflexivity || discriminate).
      * exists c. split; [now right | assumption].
    + intros (c & Hc & E). inversion Hc; subst.
      * left. now rewrite E.
      * right. eauto.
Qed.

Lemma calculateNewVersion_Throw current kind e :
  calculateNewVersion current kind = Throw e →
  e = invalid_version_format current
  ∧ (negb (length (map Number (split "." current)) =? 3)%nat
     || existsb isNaN (map Number (split "." current))) = true.
Proof.
  unfold calculateNewVersion.
  destruct (negb _ || existsb _ _) eqn:C.
  - intros [= <-]. split; reflexivity.
  - destruct (map Number (split "." current)) as [|a [|b [|c [|d l]]]];
      try discriminate.
    destruct kind.
    + destruct (ToString (add1 a)); discriminate.
    + destruct (ToString a), (ToString (add1 b)); discriminate.
    + destruct (ToString a), (ToString b), (ToString (add1 c)); discriminate.
Qed.

(** C3, as the code has it: the call fails with the invalid-version-format
    error exactly when the string does not split on ['.'] into three
    components or [Number] makes NaN of one of them; it throws nothing
    else; and three unsigned integers are never rejected.  A sign does not
    make a component NaN (see [signed_component_is_accepted]). *)
Theorem calculateNewVersion_invalid_format (current : string) (kind : BumpType) :
  (calculateNewVersion current kind = Throw (invalid_version_format current)
   ↔ length (split "." current) ≠ 3%nat
     ∨ ∃ c, c ∈ split "." current ∧ Number c = NaN)
  ∧ (∀ e, calculateNewVersion current kind = Throw e
          → e = invalid_version_format current)
  ∧ (three_unsigned_integers current = true
     → ∀ e, calculateNewVersion current kind ≠ Throw e).
Proof.
  assert (Iff : calculateNewVersion current kind
                = Throw (invalid_version_format current)
                ↔ length (split "." current) ≠ 3%nat
                  ∨ ∃ c, c ∈ split "." current ∧ Number c = NaN).
  { rewrite <- existsb_isNaN. split.
    - intros [_ C]%calculateNewVersion_Throw.
      apply orb_true_iff in C as [C | C]; [left | now right].
      rewrite length_map in C. apply negb_true_iff, Nat.eqb_neq in C. exact C.
    - intros C. unfold calculateNewVersion.
      replace (negb _ || existsb _ _) with true; [reflexivity|].
      symmetry. apply orb_true_iff. destruct C as [C | C]; [left | now right].
      rewrite length_map. now apply negb_true_iff, Nat.eqb_neq. }
  split; [exact Iff|]. split.
  - intros e H. now apply calculateNewVersion_Throw in H.
  - intros V e H.
    pose proof (calculateNewVersion_Throw _ _ _ H) as [-> _].
    apply Iff in H. unfold three_unsigned_integers in V.
    destruct (split "." current) as [|a [|b [|c [|d l]]]]; try discriminate.
    apply andb_prop in V as [[Va Vb]%andb_prop Vc].
    destruct H as [H | (x & Hx & E)]; [now apply H|].
    assert (U : unsigned_integer x = true).
    { repeat (apply elem_of_cons in Hx as [-> | Hx]; [assumption|]).
      inversion Hx. }
    rewrite (Number_digits _ U) in E. now apply of_Z_not_NaN in E.
Qed.

(** C3 as it is stated fails: ["1.-2.3"] is not three unsigned integers,
    and the minor bump of it is ["1.-1.0"]. *)
Lemma signed_component_is_accepted :
  three_unsigned_integers "1.-2.3" = false
  ∧ calculateNewVersion "1.-2.3" minor = Return "1.-1.0".
Proof. split; vm_compute; reflexivity. Qed.

Example calculateNewVersion_accepts_examples :
  calculateNewVersion "1..3" patch = Return "1.0.4"
  ∧ calculateNewVersion " 0x10 .1e3. +7 " patch = Return "16.1000.8"
  ∧ calculateNewVersion "01.2.3" major = Return "2.0.0".
Proof. repeat split. Qed.

Example calculateNewVersion_rejects_examples :
  Forall (λ current,
            calculateNewVersion current patch
            = Throw (invalid_version_format current))
         ["1.2"; "1.2.3.4"; "1.a.3"; ""].
Proof. repeat constructor. Qed.

(** C4, within the integers a double counts exactly: for [X], [Y], [Z]
    from 0 to 2^53 - 1, the three bumps of ["X.Y.Z"] are ["(X+1).0.0"],
    ["X.(Y+1).0"] and ["X.Y.(Z+1)"].  The function is a function of its
    two arguments alone: it reads and writes nothing. *)
Theorem calculateNewVersion_bumps (X Y Z : Z) :
  0 ≤ X < two53 → 0 ≤ Y < two53 → 0 ≤ Z < two53 →
  calculateNewVersion (version_string X Y Z) major
  = Return (version_string (X + 1) 0 0)
  ∧ calculateNewVersion (version_string X Y Z) minor
    = Return (version_string X (Y + 1) 0)
  ∧ calculateNewVersion (version_string X Y Z) patch
    = Return (version_string X Y (Z + 1)).
Proof.
  intros HX HY HZ.
  assert (Parts : map Number (split "." (version_string X Y Z))
                  = [Int X; Int Y; Int Z]).
  { unfold version_string.
    rewrite split_version_string by apply all_digits_decimal.
    simpl. now rewrite !Number_decimal by lia. }
  assert (Add : ∀ n, 0 ≤ n < two53 → ToString (add1 (Int n)) = Some (decimal (n + 1))).
  { intros n Hn. unfold add1.
    destruct (Z.eqb_spec n two53); [lia|]. apply ToString_Int. lia. }
  unfold calculateNewVersion. rewrite Parts.
  change (negb (length [Int X; Int Y; Int Z] =? 3)%nat
          || existsb isNaN [Int X; Int Y; Int Z]) with false.
  cbv iota. rewrite !Add, !ToString_Int by lia.
  unfold version_string. change (decimal 0) with "0".
  repeat split; reflexivity.
Qed.

Lemma calculateNewVersion_bumps_witness :
  calculateNewVersion (version_string 1 2 3) major
  = Return (version_string (1 + 1) 0 0)
  ∧ calculateNewVersion (version_string 1 2 3) minor
    = Return (version_string 1 (2 + 1) 0)
  ∧ calculateNewVersion (version_string 1 2 3) patch
    = Return (version_string 1 2 (3 + 1)).
Proof. apply calculateNewVersion_bumps; unfold two53; lia. Defined.

(** C4 as it is stated fails above that range: 2^53 + 1 is no double, and
    the major bump of ["9007199254740992.0.0"] is the same string. *)
Lemma major_bump_of_two53_is_lost :
  calculateNewVersion (version_string two53 0 0) major
  = Return (version_string two53 0 0)
  ∧ version_string two53 0 0 = "9007199254740992.0.0"
  ∧ version_string (two53 + 1) 0 0 = "9007199254740993.0.0".
Proof. repeat split; vm_compute; reflexivity. Qed.

End VersionCalculator.

(** ** Splitting at a separator *)

Lemma split_nonempty sep s : split sep s ≠ [].
Proof.
  destruct s as [|c s]; cbn [split]; [discriminate|].
  destruct (Ascii.eqb c sep); [discriminate|].
  destruct (split sep s); discriminate.
Qed.

Lemma length_split sep s : length (split sep s) = S (occurrences sep s).
Proof.
  induction s as [|c s IH]; cbn [split occurrences]; [reflexivity|].
  destruct (Ascii.eqb c sep); cbn [length]; [now rewrite IH|].
  pose proof (split_nonempty sep s).
  destruct (split sep s); [done|]. exact IH.
Qed.

Lemma split_trailing sep s :
  split sep (s +:+ String sep "") = split sep s ++ [""].
Proof.
  induction s as [|c s IH]; cbn [split String.append].
  - now rewrite Ascii.eqb_refl.
  - destruct (Ascii.eqb c sep); [now rewrite IH|].
    rewrite IH. pose proof (split_nonempty sep s).
    destruct (split sep s); [done | reflexivity].
Qed.

(** ** The workflow *)

Section Workflow.
Context `{P : Platform}.

Lemma bind_run {A B} (m : M A) (f : A → M B) w :
  (m ≫= f) w
  = match outcome (m w) with
    | Return a =>
        mkRun (events (m w) ++ events (f a (after (m w))))
              (after (f a (after (m w)))) (outcome (f a (after (m w))))
    | Throw e => mkRun (events (m w)) (after (m w)) (Throw e)
    | Unmodelled => mkRun (events (m w)) (after (m w)) Unmodelled
    end.
Proof. reflexivity. Qed.

Lemma execGit_run args w :
  execGit args w
  = let '(fs, r, result) := execFile_git args w in
    mkRun [Git args result] (mkWorld (cwd w) fs r)
          (match result with
           | inl out => Return (trim out)
           | inr msg => Throw (git_command_failed args msg)
           end).
Proof.
  unfold execGit, try_catch, execFileAsync_git, mbind, M_bind.
  destruct (execFile_git args w) as [[fs r] [out|msg]]; reflexivity.
Qed.

Lemma isGitRepository_run w :
  isGitRepository w
  = let '(fs, r, result) := execFile_git ["rev-parse"; "--git-dir"] w in
    mkRun [Git ["rev-parse"; "--git-dir"] result] (mkWorld (cwd w) fs r)
          (Return (match result with inl _ => true | inr _ => false end)).
Proof.
  unfold isGitRepository, try_catch. rewrite bind_run, execGit_run.
  destruct (execFile_git _ w) as [[fs r] [out|msg]]; reflexivity.
Qed.

(** *** Computations that only read *)

Lemma reads_only_bind {A B} (m : M A) (f : A → M B) :
  reads_only m → (∀ a, reads_only (f a)) → reads_only (m ≫= f).
Proof.
  intros Hm Hf w. rewrite bind_run. destruct (Hm w) as [E W].
  destruct (outcome (m w)) as [a| |]; cbn [events after]; rewrite ?E, ?W; auto.
  destruct (Hf a w) as [E' W']. now rewrite E', W'.
Qed.

Lemma reads_only_ret {A} (a : A) : reads_only (mret a).
Proof. intros w. split; reflexivity. Qed.

Lemma reads_only_throw {A} e : reads_only (@throw _ A e).
Proof. intros w. split; reflexivity. Qed.

Lemma reads_only_lift {A} (c : completion A) : reads_only (lift c).
Proof. intros w. split; reflexivity. Qed.

Lemma reads_only_cwd : reads_only process_cwd.
Proof. intros w. split; reflexivity. Qed.

Lemma reads_only_existsSync p : reads_only (existsSync p).
Proof. intros w. split; reflexivity. Qed.

Lemma reads_only_readFile p : reads_only (readFile p).
Proof.
  intros w. unfold readFile. destruct (files w !! p); split; reflexivity.
Qed.

Lemma reads_only_JSON_parse t : reads_only (JSON_parse_ t).
Proof.
  intros w. unfold JSON_parse_. destruct (JSON_parse t); split; reflexivity.
Qed.

Create HintDb process discriminated.
Hint Resolve reads_only_ret reads_only_throw reads_only_lift reads_only_cwd
  reads_only_existsSync reads_only_readFile reads_only_JSON_parse : process.

Ltac step_reads :=
  repeat first
    [ solve [auto with process]
    | progress cbv zeta
    | apply reads_only_bind; [|intros ?]
    | match goal with
      | |- reads_only (if ?c then _ else _) => destruct c
      | |- reads_only (match ?x with _ => _ end) => destruct x
      end ].

Lemma reads_only_getCurrentVersion f : reads_only (getCurrentVersion f).
Proof. unfold getCurrentVersion. step_reads. Qed.


(** *** Computations that at most print *)

Lemma reads_console {A} (m : M A) : reads_only m → console_only m.
Proof. intros H w. destruct (H w) as [E W]. rewrite E, W. repeat split. Qed.

Lemma gits_app a b : gits (a ++ b) = gits a ++ gits b.
Proof. apply omap_app. Qed.
Lemma writes_app a b : writes (a ++ b) = writes a ++ writes b.
Proof. apply omap_app. Qed.
Lemma logs_app a b : logs (a ++ b) = logs a ++ logs b.
Proof. apply omap_app. Qed.

Lemma console_only_bind {A B} (m : M A) (f : A → M B) :
  console_only m → (∀ a, console_only (f a)) → console_only (m ≫= f).
Proof.
  intros Hm Hf w. rewrite bind_run. destruct (Hm w) as (W & G & Wr).
  destruct (outcome (m w)) as [a| |]; cbn [events after]; auto.
  destruct (Hf a (after (m w))) as (W' & G' & Wr').
  split; [congruence|].
  split; [rewrite gits_app, G, G' | rewrite writes_app, Wr, Wr']; reflexivity.
Qed.

Lemma console_only_log l : console_only (console_log l).
Proof. intros w. repeat split. Qed.

Hint Resolve console_only_log : process.
Hint Extern 2 (console_only _) => apply reads_console : process.

Ltac step_console :=
  repeat first
    [ solve [auto with process]
    | progress cbv zeta
    | apply console_only_bind; [|intros ?]
    | match goal with
      | |- console_only (if ?c then _ else _) => destruct c
      | |- console_only (match ?x with _ => _ end) => destruct x
      end ].

Lemma console_only_report c n b t p : console_only (report_dry_run c n b t p).
Proof. unfold report_dry_run. step_console. Qed.

(** *** A failing call of [git] ends the run *)

Lemma fail_stop_bind {A B} (m : M A) (f : A → M B) :
  fail_stop m → (∀ a, fail_stop (f a)) → fail_stop (m ≫= f).
Proof.
  intros Hm Hf w pre args msg post. rewrite bind_run.
  destruct (outcome (m w)) as [a| |] eqn:O; cbn [events outcome].
  - intros E. apply app_eq_app in E as [l [[E1 E2] | [E1 E2]]].
    + destruct l as [|x l].
      * apply (Hf a _ [] args msg post). symmetry. exact E2.
      * injection E2 as <- E2. apply Hm in E1 as [_ E1]. congruence.
    + now apply Hf in E2.
  - intros E. apply Hm in E as [-> E]. split; [reflexivity | congruence].
  - intros E. apply Hm in E as [_ E]. congruence.
Qed.

Lemma fail_stop_no_git {A} (m : M A) :
  (∀ w, gits (events (m w)) = []) → fail_stop m.
Proof.
  intros H w pre args msg post E. specialize (H w). rewrite E, gits_app in H.
  destruct (gits pre); discriminate.
Qed.

Lemma fail_stop_console {A} (m : M A) : console_only m → fail_stop m.
Proof. intros H. apply fail_stop_no_git. intros w. apply H. Qed.

Lemma fail_stop_writeFile p c : fail_stop (writeFile p c).
Proof. apply fail_stop_no_git. reflexivity. Qed.

Lemma fail_stop_execGit args : fail_stop (execGit args).
Proof.
  intros w pre a msg post. rewrite execGit_run.
  destruct (execFile_git args w) as [[fs r] result]. cbn [events outcome].
  destruct pre as [|x pre]; [|destruct pre; discriminate].
  intros [= -> -> <-]. split; reflexivity.
Qed.

Lemma fail_stop_for_of {A} (xs : list A) (body : A → M unit) :
  (∀ x, fail_stop (body x)) → fail_stop (for_of xs body).
Proof.
  intros H. induction xs as [|x xs IH]; cbn [for_of].
  - apply fail_stop_console, reads_console, reads_only_ret.
  - apply fail_stop_bind; auto.
Qed.

Hint Resolve fail_stop_execGit fail_stop_writeFile : process.
Hint Extern 3 (fail_stop _) => apply fail_stop_console : process.
Hint Resolve reads_only_getCurrentVersion : process.

Ltac step_fail_stop :=
  repeat first
    [ solve [auto with process]
    | progress cbv zeta
    | apply fail_stop_for_of; intros ?
    | apply fail_stop_bind; [|intros ?]
    | match goal with
      | |- fail_stop (if ?c then _ else _) => destruct c
      | |- fail_stop (match ?x with _ => _ end) => destruct x
      end ].

Lemma fail_stop_updatePackageVersion v f : fail_stop (updatePackageVersion v f).
Proof. unfold updatePackageVersion. step_fail_stop. Qed.
Hint Resolve fail_stop_updatePackageVersion : process.

Lemma fail_stop_merge_to_targets s p ts : fail_stop (merge_to_targets s p ts).
Proof. unfold merge_to_targets. step_fail_stop. Qed.
Hint Resolve fail_stop_merge_to_targets : process.

Lemma fail_stop_release c n b m sp sm f t p : fail_stop (release c n b m sp sm f t p).
Proof. unfold release. step_fail_stop. Qed.


Hint Resolve fail_stop_release console_only_report : process.

(** *** The order of the merge step *)

Lemma follows_bind {A B} p1 p2 (m : M A) (f : A → M B) :
  follows p1 m → (∀ a, follows p2 (f a)) → follows (p1 ++ p2) (m ≫= f).
Proof.
  intros Hm Hf w. rewrite bind_run. destruct (Hm w) as [Pm Rm].
  destruct (outcome (m w)) as [a| |]; cbn [events outcome].
  - destruct (Hf a (after (m w))) as [Pf Rf].
    rewrite gits_app, (Rm a eq_refl). split.
    + now apply prefix_app.
    + intros b Hb. now rewrite (Rf b Hb).
  - split; [now apply prefix_app_r | discriminate].
  - split; [now apply prefix_app_r | discriminate].
Qed.

Lemma follows_console {A} (m : M A) : console_only m → follows [] m.
Proof. intros H w. destruct (H w) as (_ & -> & _). split; [done | reflexivity]. Qed.

Lemma follows_execGit args : follows [args] (execGit args).
Proof.
  intros w. rewrite execGit_run.
  destruct (execFile_git args w) as [[fs r] result]. split; reflexivity.
Qed.

Lemma follows_for_of {A} plan (xs : list A) (body : A → M unit) :
  (∀ x, follows (plan x) (body x)) → follows (flat_map plan xs) (for_of xs body).
Proof.
  intros H. induction xs as [|x xs IH]; cbn [for_of flat_map].
  - apply follows_console, reads_console, reads_only_ret.
  - now apply follows_bind.
Qed.

Lemma follows_merge_to_targets sourceBranch skipPush targets :
  follows (merge_plan sourceBranch skipPush targets)
          (merge_to_targets sourceBranch skipPush targets).
Proof.
  unfold merge_to_targets, merge_plan.
  apply follows_bind.
  - apply follows_for_of. intros t. unfold merge_commands.
    apply (follows_bind []); [apply follows_console; auto with process|].
    intros _. apply (follows_bind [_]); [apply follows_execGit|].
    intros _. apply (follows_bind [_]); [apply follows_execGit|].
    intros _. apply (follows_bind []); [apply follows_console; auto with process|].
    intros _. apply (follows_bind [_]); [apply follows_execGit|].
    intros _. destruct skipPush; cbn [negb].
    + apply follows_console, reads_console, reads_only_ret.
    + apply (follows_bind []); [apply follows_console; auto with process|].
      intros _. apply (follows_bind [_] []); [apply follows_execGit|].
      intros _. apply follows_console, reads_console, reads_only_ret.
  - intros _.
    apply (follows_bind []); [apply follows_console; auto with process|].
    intros _. apply (follows_bind [_] []); [apply follows_execGit|].
    intros _. apply follows_console, reads_console, reads_only_ret.
Qed.

(** In the merge step a failing call is the last one, and the calls up
    to it are the first ones of the plan: the targets after the failing
    one are not switched to, nor is the source branch switched back to
    (unless the failing call is that last switch itself). *)
Lemma merge_to_targets_failure sourceBranch skipPush targets w pre args msg post :
  events (merge_to_targets sourceBranch skipPush targets w)
  = pre ++ Git args (inr msg) :: post →
  post = []
  ∧ (gits pre ++ [args]) `prefix_of` merge_plan sourceBranch skipPush targets
  ∧ outcome (merge_to_targets sourceBranch skipPush targets w)
    = Throw (git_command_failed args msg).
Proof.
  intros E.
  destruct (fail_stop_merge_to_targets sourceBranch skipPush targets w
              pre args msg post E) as [-> O].
  split; [reflexivity|]. split; [|exact O].
  destruct (follows_merge_to_targets sourceBranch skipPush targets w) as [Pf _].
  now rewrite E, gits_app in Pf.
Qed.

Lemma isGitRepository_one_event w :
  ∃ result,
    events (isGitRepository w) = [Git ["rev-parse"; "--git-dir"] result]
    ∧ outcome (isGitRepository w)
      = Return (match result with inl _ => true | inr _ => false end).
Proof.
  rewrite isGitRepository_run.
  destruct (execFile_git _ w) as [[fs r] result]. now exists result.
Qed.

Lemma occurs_in_git_command_failed args msg :
  occurs_in ("git " +:+ join " " args) (message (git_command_failed args msg)).
Proof.
  exists "Git command failed: ", (String "010" "" +:+ msg).
  cbn [git_command_failed message].
  reflexivity.
Qed.

(** C9: when a call of [git] after the repository probe fails (so, in
    particular, any call made in the loop over the target branches), it
    is the last thing the workflow does: no later target branch is
    switched to and the source branch is not switched back to, the merge
    step making its calls in the order of [merge_plan]
    ([merge_to_targets_failure]).  The workflow throws the error of
    [execGit], whose message holds the whole command line, ["git"] and
    the arguments joined by spaces. *)
Theorem git_failure_stops_the_workflow options w pre args msg post :
  events (bumpVersion options w) = pre ++ Git args (inr msg) :: post →
  pre ≠ [] →
  post = []
  ∧ outcome (bumpVersion options w) = Throw (git_command_failed args msg)
  ∧ occurs_in ("git " +:+ join " " args) (message (git_command_failed args msg)).
Proof.
  intros E Hpre.
  cut (post = [] ∧ outcome (bumpVersion options w)
                   = Throw (git_command_failed args msg)).
  { intros [? ?]. auto using occurs_in_git_command_failed. }
  revert E. unfold bumpVersion. cbv zeta. rewrite bind_run.
  destruct (isGitRepository_one_event w) as (result & -> & ->).
  cbn [events outcome].
  destruct pre as [|x pre]; [done|]. intros [= <- E]. revert E.
  match goal with
  | |- events (?k ?w') = _ → _ =>
      assert (FS : fail_stop k); [|apply FS]
  end.
  step_fail_stop.
Qed.


(** *** The manifest *)



Lemma getCurrentVersion_missing f w :
  files w !! path_join (cwd w) (default "package.json" f) = None →
  outcome (getCurrentVersion f w)
  = Throw (Error ("Package file not found: "
                  +:+ path_join (cwd w) (default "package.json" f))).
Proof.
  intros Hfile. unfold getCurrentVersion, mbind, M_bind, process_cwd, existsSync.
  cbn [outcome after events]. rewrite Hfile.
  rewrite bool_decide_eq_false_2 by (intros [? [=]]). reflexivity.
Qed.

Lemma getCurrentVersion_object f w text props :
  files w !! path_join (cwd w) (default "package.json" f) = Some text →
  JSON_parse text = inl (JObject props) →
  outcome (getCurrentVersion f w)
  = match get_property "version" props with
    | Some v =>
        if ToBoolean v then Return v
        else Throw (Error "No version field found in package.json")
    | None => Throw (Error "No version field found in package.json")
    end.
Proof.
  intros Hfile Hparse.
  unfold getCurrentVersion, mbind, M_bind, process_cwd, existsSync, readFile,
    JSON_parse_.
  cbn [outcome after events]. rewrite Hfile.
  rewrite bool_decide_eq_true_2 by eauto.
  cbn [negb outcome after events]. rewrite !Hfile.
  cbn [outcome after events]. rewrite !Hparse.
  cbn [outcome after events mret M_ret].
  destruct (get_property "version" props) as [v|]; [|reflexivity].
  destruct (ToBoolean v); reflexivity.
Qed.

Lemma getCurrentVersion_truthy f w v :
  outcome (getCurrentVersion f w) = Return v → ToBoolean v = true.
Proof.
  unfold getCurrentVersion, mbind, M_bind, process_cwd, existsSync, readFile,
    JSON_parse_.
  cbn [outcome after events].
  destruct (bool_decide _); cbn [negb outcome after events]; [|discriminate].
  destruct (files w !! _); cbn [outcome after events]; [|discriminate].
  destruct (JSON_parse _) as [doc|]; cbn [outcome after events mret M_ret throw];
    [|discriminate].
  destruct doc as [| | | | |props]; try discriminate.
  cbv zeta. destruct (get_property "version" props) as [x|]; [|discriminate].
  destruct (ToBoolean x) eqn:T; cbn [negb outcome]; [|discriminate].
  now intros [= <-].
Qed.

(** C10: a manifest that exists and parses to an object whose [version]
    is [""], [0], [false] or [null] makes [getCurrentVersion] throw the
    missing-version error; and whatever [getCurrentVersion] returns is
    truthy. *)
Theorem getCurrentVersion_rejects_falsy_version f w text props v :
  files w !! path_join (cwd w) (default "package.json" f) = Some text →
  JSON_parse text = inl (JObject props) →
  get_property "version" props = Some v →
  v ∈ [JString ""; JNumber (Int 0); JBool false; JNull] →
  outcome (getCurrentVersion f w)
  = Throw (Error "No version field found in package.json")
  ∧ ∀ f' w' v', outcome (getCurrentVersion f' w') = Return v' → ToBoolean v' = true.
Proof.
  intros Hfile Hparse Hget Hv. split; [|apply getCurrentVersion_truthy].
  rewrite (getCurrentVersion_object _ _ _ _ Hfile Hparse), Hget.
  repeat (apply elem_of_cons in Hv as [-> | Hv]; [reflexivity|]).
  inversion Hv.
Qed.


Lemma report_dry_run_run c n b t p w :
  report_dry_run c n b t p w
  = mkRun (ConsoleLog <$>
             [ "🔍 Dry run mode enabled";
               "📦 Current version: " +:+ c;
               "📦 New version: " +:+ n;
               "🔀 Source branch: " +:+ default "undefined" (source b);
               "🎯 Target branches: "
                 +:+ or_else (join ", " <$> targets b) "none";
               "🏷️  Create tag: " +:+ (if t then p +:+ n else "no") ])
          w (Return tt).
Proof. reflexivity. Qed.

(** C5: with [dryRun] set, the only call of [git] is the repository probe
    [rev-parse --git-dir], no file is written, and the world is the one
    the probe left.  What is returned is the version read from the
    manifest with the version computed from it, and it is returned
    whenever the probe succeeds, the manifest holds a version string and
    the version is valid, after the report has been printed.  When the
    probe leaves the world as it is, a second dry run is the first one
    again: same report, same result, same world. *)
Theorem dry_run_changes_nothing options w :
  dryRun options = Some true →
  let r := bumpVersion options w in
  let probe := isGitRepository w in
  let file := Some (default "package.json" (packageFile options)) in
  gits (events r) = [["rev-parse"; "--git-dir"]]
  ∧ writes (events r) = []
  ∧ after r = after probe
  ∧ (∀ info, outcome r = Return info →
       outcome (getCurrentVersion file (after r))
       = Return (JString (oldVersion info))
       ∧ calculateNewVersion (oldVersion info) (bumpType options)
         = Return (newVersion info))
  ∧ (∀ old new,
       outcome probe = Return true →
       outcome (getCurrentVersion file (after probe)) = Return (JString old) →
       calculateNewVersion old (bumpType options) = Return new →
       outcome r = Return (mkVersionInfo old new)
       ∧ events r
         = events probe
           ++ events (report_dry_run old new
                        (default (mkBranches (Some "develop") (Some ["UAT"]))
                                 (branches options))
                        (default true (createTag options))
                        (default "v" (tagPrefix options)) (after probe)))
  ∧ (after probe = w → bumpVersion options (after r) = r).
Proof.
  intros Hdry r probe file.
  assert (R : ∃ result k,
             console_only k
             ∧ probe = mkRun [Git ["rev-parse"; "--git-dir"] result]
                             (after probe)
                             (Return (match result with
                                      | inl _ => true | inr _ => false end))
             ∧ r = mkRun (Git ["rev-parse"; "--git-dir"] result
                            :: events (k (after probe)))
                         (after (k (after probe))) (outcome (k (after probe)))
             ∧ (∀ w', outcome (k w') =
                  if (match result with inl _ => true | inr _ => false end) then
                   match outcome (getCurrentVersion file w') with
                   | Return (JString old) =>
                       match calculateNewVersion old (bumpType options) with
                       | Return new => Return (mkVersionInfo old new)
                       | Throw e => Throw e
                       | Unmodelled => Unmodelled
                       end
                   | Return _ =>
                       Throw (TypeError "currentVersion.split is not a function")
                   | Throw e => Throw e
                   | Unmodelled => Unmodelled
                   end
                  else Throw (Error "Not a git repository"))
             ∧ (∀ w' old new,
                  (match result with inl _ => true | inr _ => false end) = true →
                  outcome (getCurrentVersion file w') = Return (JString old) →
                  calculateNewVersion old (bumpType options) = Return new →
                  events (k w')
                  = events (report_dry_run old new
                        (default (mkBranches (Some "develop") (Some ["UAT"]))
                                 (branches options))
                        (default true (createTag options))
                        (default "v" (tagPrefix options)) w'))).
  { subst r probe. unfold bumpVersion. rewrite Hdry. cbv zeta.
    rewrite bind_run, isGitRepository_run.
    destruct (execFile_git _ w) as [[fs rp] result].
    cbn [events after outcome default from_option id].
    eexists result, _.
    split; [|split; [reflexivity|split; [reflexivity|split]]].
    - step_console.
    - intros w'. destruct result; cbn [negb]; [|reflexivity].
      rewrite bind_run. fold file.
      destruct (outcome (getCurrentVersion file w')) as [v| |]; try reflexivity.
      destruct v; try reflexivity.
      unfold lift. rewrite bind_run. cbn [outcome].
      destruct (calculateNewVersion _ (bumpType options));
        cbn [outcome events after]; try reflexivity.
    - intros w' old new -> Hv Hc. cbn [negb].
      rewrite bind_run. fold file.
      destruct (reads_only_getCurrentVersion file w') as [-> ->].
      rewrite Hv. cbn [events after outcome].
      unfold lift. rewrite bind_run. cbn [events after outcome]. rewrite Hc.
      cbn [events after outcome]. rewrite bind_run.
      rewrite !report_dry_run_run. cbn [events after outcome mret M_ret].
      now rewrite app_nil_r. }
  destruct R as (result & k & Hk & Hprobe & Hr & Hout & Hev).
  destruct (Hk (after probe)) as (Hafter & Hgits & Hwrites).
  assert (A : after r = after probe) by (rewrite Hr; exact Hafter).
  split.
  { rewrite Hr. cbn [events].
    change (gits (Git ?a ?x :: ?l)) with (a :: gits l). now rewrite Hgits. }
  split.
  { rewrite Hr. cbn [events].
    change (writes (Git ?a ?x :: ?l)) with (writes l). exact Hwrites. }
  split; [exact A|]. split; [|split].
  - intros info. rewrite A, Hr. cbn [outcome]. rewrite Hout.
    destruct result; [|discriminate].
    destruct (outcome (getCurrentVersion file (after probe))) as [v| |] eqn:G;
      try discriminate.
    destruct v as [| | |old| |]; try discriminate.
    destruct (calculateNewVersion old (bumpType options)) as [new| |] eqn:C;
      try discriminate.
    intros [= <-]. split; [reflexivity | exact C].
  - intros old new Hp Hv Hc.
    assert (Hb : (match result with inl _ => true | inr _ => false end) = true).
    { rewrite Hprobe in Hp. cbn [outcome] in Hp. congruence. }
    rewrite Hr. cbn [events outcome].
    rewrite (Hev _ old new Hb Hv Hc), Hout, Hb, Hv, Hc.
    split; [reflexivity|]. rewrite Hprobe. reflexivity.
  - intros Hw. now rewrite A, Hw.
Qed.

(** *** The options of the command line *)

Lemma parse_targets_override flags config s :
  Flags.targets flags = Some s → s ≠ "" →
  parse_targets flags config = Some (map trim (split "," s)).
Proof.
  intros Ht Hs. unfold parse_targets. rewrite Ht. cbn [truthy].
  destruct (String.eqb_spec s ""); [done | reflexivity].
Qed.

Lemma bumpOptions_fields bumpType flags config w resolved :
  outcome (bumpOptions bumpType flags config w) = Return resolved →
  branches resolved
  = Some (mkBranches
            (Some (or_else (Flags.source flags)
                     (or_else (Config.branches config ≫= source) "develop")))
            (Some (default ["UAT"] (parse_targets flags config))))
  ∧ packageFile resolved
    = Some (or_else (Flags.file flags)
              (or_else (Config.packageFile config) "package.json"))
  ∧ createTag resolved
    = Some (match Flags.tag flags with
            | Some t => t
            | None => default true (Config.createTag config)
            end)
  ∧ tagPrefix resolved
    = Some (or_else (Flags.tagPrefix flags)
              (or_else (Config.tagPrefix config) "v")).
Proof.
  unfold bumpOptions. cbv zeta. unfold mbind, M_bind.
  match goal with
  | |- outcome (match outcome ?m with _ => _ end) = _ → _ =>
      destruct (outcome m)
  end; cbn [outcome mret M_ret]; try discriminate.
  intros [= <-]. repeat split.
Qed.

Lemma bumpOptions_without_template bumpType flags config w :
  truthy (Config.commitMessageTemplate config) = None →
  ∃ resolved, bumpOptions bumpType flags config w = mkRun [] w (Return resolved)
              ∧ commitMessage resolved = truthy (Flags.message flags).
Proof.
  intros Ht. unfold bumpOptions. cbv zeta. rewrite Ht.
  destruct (truthy (Flags.message flags)); eexists; split; reflexivity.
Qed.

Lemma loadConfig_absent w :
  files w !! path_join (cwd w) CONFIG_FILE = None →
  loadConfig w = mkRun [] w (Return Config.empty).
Proof.
  intros Hfile. unfold loadConfig, mbind, M_bind, process_cwd, existsSync.
  cbn [outcome after events]. rewrite Hfile.
  rewrite bool_decide_eq_false_2 by (intros [? [=]]). reflexivity.
Qed.

Lemma bumpOptions_with_template bumpType flags config w template version :
  truthy (Flags.message flags) = None →
  truthy (Config.commitMessageTemplate config) = Some template →
  outcome (getCurrentVersion
             (Some (or_else (Flags.file flags)
                      (or_else (Config.packageFile config) "package.json"))) w)
  = Return (JString version) →
  commitMessage <$> outcome_value (outcome (bumpOptions bumpType flags config w))
  = Some (Some (replace "{version}" version template)).
Proof.
  intros Hm Ht Hv. unfold bumpOptions. cbv zeta. rewrite Hm, Ht.
  rewrite !bind_run, Hv. cbn [outcome after events ToString_json].
  reflexivity.
Qed.

(** The tag prefix: with ["r"] persisted and ["release-"] given the
    prefix is ["release-"], with ["r"] persisted alone it is ["r"], with
    neither it is ["v"]; and so for any given or persisted prefix that
    is not empty. *)
Lemma tagPrefix_cases (bumpType : BumpType) (w : World repository) :
  let given (prefix : option string) : Flags.t :=
    Flags.mk false false true None None None false false None false None prefix in
  let persisted (prefix : option string) : Config.t :=
    Config.mk None None None None prefix in
  (∃ resolved,
      outcome (bumpOptions bumpType (given (Some "release-")) (persisted (Some "r")) w)
      = Return resolved
      ∧ tagPrefix resolved = Some "release-")
  ∧ (∃ resolved,
        outcome (bumpOptions bumpType (given None) (persisted (Some "r")) w)
        = Return resolved
        ∧ tagPrefix resolved = Some "r")
  ∧ (∃ resolved,
        outcome (bumpOptions bumpType (given None) (persisted None) w)
        = Return resolved
        ∧ tagPrefix resolved = Some "v")
  ∧ ∀ flags config resolved,
      outcome (bumpOptions bumpType flags config w) = Return resolved →
      (∀ o, Flags.tagPrefix flags = Some o → o ≠ "" →
            tagPrefix resolved = Some o)
      ∧ (∀ p, truthy (Flags.tagPrefix flags) = None →
              Config.tagPrefix config = Some p → p ≠ "" →
              tagPrefix resolved = Some p)
      ∧ (truthy (Flags.tagPrefix flags) = None →
         truthy (Config.tagPrefix config) = None →
         tagPrefix resolved = Some "v").
Proof.
  intros given persisted.
  assert (Ex : ∀ f c,
            ∃ resolved,
              outcome (bumpOptions bumpType (given f) (persisted c) w)
              = Return resolved
              ∧ tagPrefix resolved = Some (or_else f (or_else c "v"))).
  { intros f c.
    destruct (bumpOptions_without_template bumpType (given f) (persisted c) w)
      as (resolved & R & _); [reflexivity|].
    exists resolved. rewrite R. split; [reflexivity|].
    destruct (bumpOptions_fields bumpType (given f) (persisted c) w resolved)
      as (_ & _ & _ & ->); [now rewrite R | reflexivity]. }
  split; [apply (Ex (Some "release-") (Some "r"))|].
  split; [apply (Ex None (Some "r"))|].
  split; [apply (Ex None None)|].
  intros flags config resolved (_ & _ & _ & ->)%bumpOptions_fields.
  unfold or_else. repeat split.
  - intros o -> Ho. cbn [truthy]. now destruct (String.eqb_spec o "").
  - intros p -> -> Hp. cbn [truthy default from_option id].
    now destruct (String.eqb_spec p "").
  - now intros -> ->.
Qed.

Lemma or_else_precedence override persisted default_ :
  precedence override persisted default_
             (or_else override (or_else persisted default_)).
Proof.
  unfold precedence, or_else. repeat split.
  - intros o -> Ho. cbn [truthy]. now destruct (String.eqb_spec o "").
  - intros p [-> | ->] -> Hp; cbn [truthy String.eqb default from_option id];
      now destruct (String.eqb_spec p "").
  - now intros [-> | ->] [-> | ->].
Qed.

Lemma bumpOptions_commitMessage bumpType flags config w resolved :
  outcome (bumpOptions bumpType flags config w) = Return resolved →
  match truthy (Flags.message flags),
        truthy (Config.commitMessageTemplate config) with
  | Some m, _ => commitMessage resolved = Some m
  | None, Some template =>
      ∃ version shown,
        outcome (getCurrentVersion
                   (Some (or_else (Flags.file flags)
                            (or_else (Config.packageFile config)
                                     "package.json"))) w)
        = Return version
        ∧ ToString_json version = Some shown
        ∧ commitMessage resolved
          = Some (replace "{version}" shown template)
  | None, None => commitMessage resolved = None
  end.
Proof.
  unfold bumpOptions. cbv zeta.
  destruct (truthy (Flags.message flags)) as [m|].
  { intros [= <-]. reflexivity. }
  destruct (truthy (Config.commitMessageTemplate config)) as [template|].
  2: { intros [= <-]. reflexivity. }
  rewrite !bind_run.
  destruct (outcome (getCurrentVersion _ w)) as [version| |];
    cbn [outcome]; try discriminate.
  destruct (ToString_json version) as [shown|] eqn:S;
    cbn [outcome lift mret M_ret]; try discriminate.
  intros [= <-]. now exists version, shown.
Qed.

(** C7, as the code has it.  The three cases of the tag prefix hold:
    with ["r"] persisted and ["release-"] given it is ["release-"],
    with ["r"] persisted alone it is ["r"], with neither it is ["v"].
    Field by field the options resolve override first, then the
    persisted value, then the default of the code, where for a string
    (source branch, package file, tag prefix, commit message) an empty
    one counts as not given.  The targets are the override split and
    trimmed when it is given and not empty, else the persisted list,
    whatever it is, else [["UAT"]].  Tags are made as the flag says
    whenever there is one, else as the persisted value says whenever
    there is one, else they are made.  The commit message is the one
    given, else the template with the placeholder filled, else none
    (and [bumpVersion] makes its own).  An empty override does not win:
    see [empty_prefix_override_does_not_win]. *)
Theorem precedence_field_by_field (bumpType : BumpType) (w : World repository) :
  let given (prefix : option string) : Flags.t :=
    Flags.mk false false true None None None false false None false None prefix in
  let persisted (prefix : option string) : Config.t :=
    Config.mk None None None None prefix in
  (∃ resolved,
      outcome (bumpOptions bumpType (given (Some "release-")) (persisted (Some "r")) w)
      = Return resolved
      ∧ tagPrefix resolved = Some "release-")
  ∧ (∃ resolved,
        outcome (bumpOptions bumpType (given None) (persisted (Some "r")) w)
        = Return resolved
        ∧ tagPrefix resolved = Some "r")
  ∧ (∃ resolved,
        outcome (bumpOptions bumpType (given None) (persisted None) w)
        = Return resolved
        ∧ tagPrefix resolved = Some "v")
  ∧ ∀ flags config resolved,
      outcome (bumpOptions bumpType flags config w) = Return resolved →
      let absent (a : option string) := a = None ∨ a = Some "" in
      ∃ source_ targets_ file_ prefix_,
        branches resolved = Some (mkBranches (Some source_) (Some targets_))
        ∧ packageFile resolved = Some file_
        ∧ tagPrefix resolved = Some prefix_
        ∧ precedence (Flags.source flags) (Config.branches config ≫= source)
                     "develop" source_
        ∧ precedence (Flags.file flags) (Config.packageFile config)
                     "package.json" file_
        ∧ precedence (Flags.tagPrefix flags) (Config.tagPrefix config)
                     "v" prefix_
        ∧ (∀ t, Flags.targets flags = Some t → t ≠ "" →
                targets_ = map trim (split "," t))
        ∧ (∀ ts, absent (Flags.targets flags) →
                 Config.branches config ≫= targets = Some ts → targets_ = ts)
        ∧ (absent (Flags.targets flags) →
           Config.branches config ≫= targets = None → targets_ = ["UAT"])
        ∧ (∀ t, Flags.tag flags = Some t → createTag resolved = Some t)
        ∧ (∀ c, Flags.tag flags = None → Config.createTag config = Some c →
                createTag resolved = Some c)
        ∧ (Flags.tag flags = None → Config.createTag config = None →
           createTag resolved = Some true)
        ∧ (∀ m, Flags.message flags = Some m → m ≠ "" →
                commitMessage resolved = Some m)
        ∧ (∀ template,
             absent (Flags.message flags) →
             Config.commitMessageTemplate config = Some template →
             template ≠ "" →
             ∃ shown,
               commitMessage resolved
               = Some (replace "{version}" shown template))
        ∧ (absent (Flags.message flags) →
           absent (Config.commitMessageTemplate config) →
           commitMessage resolved = None).
Proof.
  intros given persisted.
  destruct (tagPrefix_cases bumpType w) as (A & B & C & _).
  split; [exact A|]. split; [exact B|]. split; [exact C|].
  intros flags config resolved R absent.
  assert (T : ∀ a, absent a → truthy a = None).
  { now intros a [-> | ->]. }
  assert (S : ∀ a x, a = Some x → x ≠ "" → truthy a = Some x).
  { intros a x -> Hx. cbn [truthy]. now destruct (String.eqb_spec x ""). }
  pose proof (bumpOptions_commitMessage _ _ _ _ _ R) as M.
  destruct (bumpOptions_fields _ _ _ _ _ R) as (Hb & Hf & Hc & Hp).
  eexists _, _, _, _.
  split; [exact Hb|]. split; [exact Hf|]. split; [exact Hp|].
  split; [apply or_else_precedence|]. split; [apply or_else_precedence|].
  split; [apply or_else_precedence|].
  unfold parse_targets.
  split; [intros t Ht Hne; now rewrite (S _ _ Ht Hne)|].
  split; [intros ts Ha Hts; now rewrite (T _ Ha), Hts|].
  split; [intros Ha Hts; now rewrite (T _ Ha), Hts|].
  split; [intros t Ht; now rewrite Hc, Ht|].
  split; [intros c Ht Hcfg; now rewrite Hc, Ht, Hcfg|].
  split; [intros Ht Hcfg; now rewrite Hc, Ht, Hcfg|].
  split; [intros m Hm Hne; now rewrite (S _ _ Hm Hne) in M|].
  split.
  - intros template Ha Ht Hne. rewrite (T _ Ha), (S _ _ Ht Hne) in M.
    destruct M as (version & shown & _ & _ & M). now exists shown.
  - intros Ha Ht. now rewrite (T _ Ha), (T _ Ht) in M.
Qed.

(** C8, for an override that is not the empty string: the target list is
    the override split at the commas with each element trimmed; it has
    one element more than the override has commas, so that no element is
    dropped; after a trailing comma the last element is [""]; and this
    is the list of the resolved options. *)
Theorem targets_override_is_split_and_trimmed flags config s :
  Flags.targets flags = Some s → s ≠ "" →
  parse_targets flags config = Some (map trim (split "," s))
  ∧ length (map trim (split "," s)) = S (occurrences "," s)
  ∧ (∀ s', s = s' +:+ "," → last (map trim (split "," s)) = Some "")
  ∧ ∀ bumpType w resolved,
      outcome (bumpOptions bumpType flags config w) = Return resolved →
      branches resolved ≫= targets = Some (map trim (split "," s)).
Proof.
  intros Ht Hs.
  pose proof (parse_targets_override flags config s Ht Hs) as Hp.
  split; [exact Hp|]. split; [|split].
  - now rewrite length_map, length_split.
  - intros s' ->. rewrite (split_trailing "," s'), map_app.
    apply last_snoc.
  - intros bumpType w resolved (-> & _)%bumpOptions_fields.
    cbn [mbind option_bind targets]. now rewrite Hp.
Qed.

End Workflow.

(** ** Runs on the platform of [Fixture] *)

Lemma dry_run_changes_nothing_witness :
  let r := bumpVersion Fixture.dry_run_options (Fixture.project []) in
  gits (events r) = [["rev-parse"; "--git-dir"]]
  ∧ writes (events r) = []
  ∧ outcome r = Return (mkVersionInfo "1.2.3" "1.3.0")
  ∧ logs (events r)
    = [ "🔍 Dry run mode enabled"; "📦 Current version: 1.2.3";
        "📦 New version: 1.3.0"; "🔀 Source branch: develop";
        "🎯 Target branches: UAT"; "🏷️  Create tag: v1.3.0" ]
  ∧ bumpVersion Fixture.dry_run_options (after r) = r.
Proof.
  intros r.
  destruct (dry_run_changes_nothing Fixture.dry_run_options (Fixture.project [])
              eq_refl) as (G & W & _ & _ & Plan & Again).
  split; [exact G|]. split; [exact W|].
  destruct (Plan "1.2.3" "1.3.0") as [O E]; try (vm_compute; reflexivity).
  split; [exact O|]. split.
  - fold r in E. rewrite E. vm_compute. reflexivity.
  - apply Again. vm_compute. reflexivity.
Defined.


Lemma git_failure_stops_the_workflow_witness :
  let r := bumpVersion Fixture.two_targets
                       (Fixture.project [["push"; "origin"; "UAT"]]) in
  gits (events r)
  = [ ["rev-parse"; "--git-dir"]; ["fetch"]; ["switch"; "develop"]; ["pull"];
      ["add"; "package.json"]; ["commit"; "-m"; "build: 1.2.4"];
      ["tag"; "v1.2.4"]; ["push"; "origin"; "develop"];
      ["push"; "origin"; "--tags"] ]
    ++ merge_commands "develop" false "UAT"
  ∧ (["switch"; "production"] ∉ gits (events r))
  ∧ outcome r
    = Throw (git_command_failed ["push"; "origin"; "UAT"]
               "Command failed: git push origin UAT").
Proof.
  intros r.
  destruct (git_failure_stops_the_workflow Fixture.two_targets
              (Fixture.project [["push"; "origin"; "UAT"]])
              (take 23 (events r)) ["push"; "origin"; "UAT"]
              "Command failed: git push origin UAT" [])
    as (_ & O & _).
  - vm_compute. reflexivity.
  - vm_compute. discriminate.
  - split; [vm_compute; reflexivity|]. split; [|exact O].
    apply (bool_decide_unpack _). vm_compute. exact I.
Defined.

Lemma getCurrentVersion_rejects_falsy_version_witness :
  let rejected (v : json) :=
    outcome (getCurrentVersion None (Fixture.project_at v []))
    = Throw (Error "No version field found in package.json") in
  rejected (JString "") ∧ rejected (JNumber (Int 0))
  ∧ rejected (JBool false) ∧ rejected JNull.
Proof.
  intros rejected. unfold rejected.
  split; [|split; [|split]];
    match goal with
    | |- outcome (getCurrentVersion None (Fixture.project_at ?v [])) = _ =>
        apply (getCurrentVersion_rejects_falsy_version None
                 (Fixture.project_at v [])
                 (Fixture.text_of (Fixture.manifest v))
                 [("name", JString "demo"); ("version", v);
                  ("private", JBool true)] v);
        [vm_compute; reflexivity ..|]
    end; set_solver.
Defined.

Lemma targets_override_is_split_and_trimmed_witness :
  parse_targets
    (Flags.mk false false true None None (Some "staging, ,production,")
              false false None false None None)
    Config.empty
  = Some ["staging"; ""; "production"; ""].
Proof.
  apply (targets_override_is_split_and_trimmed
           (P := Fixture.platform)
           (Flags.mk false false true None None (Some "staging, ,production,")
                     false false None false None None)
           Config.empty "staging, ,production,");
    [reflexivity | discriminate].
Defined.

(** C8 as it is stated fails on the empty override: split and trimmed it
    would be the list of one empty string, but the guard
    [if (options.targets)] takes it for no override, and the targets are
    those of the configuration or, here, the default. *)
Lemma empty_override_is_no_override :
  let flags :=
    Flags.mk false false true None None (Some "") false false None false
             None None in
  map trim (split "," "") = [""]
  ∧ parse_targets flags Config.empty = None
  ∧ ∀ bumpType,
      (branches <$> outcome_value
         (outcome (bumpOptions (P := Fixture.platform) bumpType flags
                               Config.empty (Fixture.project []))))
      = Some (Some (mkBranches (Some "develop") (Some ["UAT"]))).
Proof. repeat split. Qed.

(** C7 as it is stated fails on the empty string.  The prefix is
    resolved with [||], which takes an empty override for no override,
    so that the persisted prefix wins over it; and which takes an empty
    persisted prefix for none, so that the default wins over it. *)
Lemma empty_prefix_override_does_not_win :
  let given_empty :=
    Flags.mk false false true None None None false false None false None
             (Some "") in
  let given_none :=
    Flags.mk false false true None None None false false None false None
             None in
  (tagPrefix <$> outcome_value
     (outcome (bumpOptions (P := Fixture.platform) patch given_empty
                 (Config.mk None None None None (Some "r"))
                 (Fixture.project []))))
  = Some (Some "r")
  ∧ (tagPrefix <$> outcome_value
       (outcome (bumpOptions (P := Fixture.platform) patch given_none
                   (Config.mk None None None None (Some ""))
                   (Fixture.project []))))
    = Some (Some "v").
Proof. split; vm_compute; reflexivity. Qed.


(** C1, on the code: without [vbump.json] the configuration is the empty
    one; with it and with no flag but the bump kind, the resolved
    branches are [develop] and the one target [UAT], on any platform; and
    the run of [vbump --patch] in a project without [vbump.json] merges
    into [UAT]. *)
Theorem default_run_merges_into_UAT :
  (∀ (P : Platform) w,
      files w !! path_join (cwd w) CONFIG_FILE = None →
      outcome (loadConfig w) = Return Config.empty)
  ∧ (∀ (P : Platform) bumpType w,
        branches <$> outcome_value
                       (outcome (bumpOptions bumpType Fixture.patch_flags
                                             Config.empty w))
        = Some (Some (mkBranches (Some "develop") (Some ["UAT"]))))
  ∧ let r := action Fixture.patch_flags (Fixture.project []) in
    outcome r = Return tt
    ∧ gits (events r)
      = [ ["rev-parse"; "--git-dir"]; ["fetch"]; ["switch"; "develop"];
          ["pull"]; ["add"; "package.json"];
          ["commit"; "-m"; "build: 1.2.4"]; ["tag"; "v1.2.4"];
          ["push"; "origin"; "develop"]; ["push"; "origin"; "--tags"];
          ["switch"; "UAT"]; ["pull"]; ["pull"; "origin"; "develop"];
          ["push"; "origin"; "UAT"]; ["switch"; "develop"] ].
Proof.
  split; [intros P w H; now rewrite loadConfig_absent|].
  split; [reflexivity|]. split; vm_compute; reflexivity.
Qed.

(** C2, on the code: with a template configured and no message given,
    the commit message of the resolved options is the template with the
    placeholder filled with the version the manifest holds when the
    options are resolved, before the bump.  So with the template
    ["chore(release): {version}"], [vbump --patch] on version 1.2.3
    writes and tags 1.2.4 and commits with the message
    ["chore(release): 1.2.3"]. *)
Theorem template_is_filled_with_the_old_version :
  (∀ (P : Platform) bumpType flags config w template version,
      truthy (Flags.message flags) = None →
      truthy (Config.commitMessageTemplate config) = Some template →
      outcome (getCurrentVersion
                 (Some (or_else (Flags.file flags)
                          (or_else (Config.packageFile config) "package.json")))
                 w)
      = Return (JString version) →
      commitMessage
        <$> outcome_value (outcome (bumpOptions bumpType flags config w))
      = Some (Some (replace "{version}" version template)))
  ∧ let r := action Fixture.patch_flags
                    (Fixture.with_config Fixture.config_template
                                         (Fixture.project [])) in
  outcome r = Return tt
  ∧ files (after r) !! "/app/package.json"
    = Some (Fixture.text_of (Fixture.manifest (JString "1.2.4")))
  ∧ gits (events r)
    = [ ["rev-parse"; "--git-dir"]; ["fetch"]; ["switch"; "develop"];
        ["pull"]; ["add"; "package.json"];
        ["commit"; "-m"; "chore(release): 1.2.3"]; ["tag"; "v1.2.4"];
        ["push"; "origin"; "develop"]; ["push"; "origin"; "--tags"];
        ["switch"; "UAT"]; ["pull"]; ["pull"; "origin"; "develop"];
        ["push"; "origin"; "UAT"]; ["switch"; "develop"] ].
Proof.
  split; [intros; now apply bumpOptions_with_template|].
  repeat split; vm_compute; reflexivity.
Qed.

(** ** Trimming *)

Lemma drop_ws_cons backwards a r1 :
  drop_ws backwards (a :: r1)
  = if ws1 a then drop_ws backwards r1
    else match r1 with
         | [] => a :: r1
         | b :: r2 =>
             if (if backwards then ws2 b a else ws2 a b)
             then drop_ws backwards r2
             else match r2 with
                  | [] => a :: r1
                  | c :: r3 =>
                      if (if backwards then ws3 c b a else ws3 a b c)
                      then drop_ws backwards r3
                      else a :: r1
                  end
         end.
Proof. reflexivity. Qed.

(** An induction that follows [drop_ws]: past one, two or three bytes of
    white space, or to a stop. *)
Lemma drop_ws_ind backwards (Q : list ascii → list ascii → Prop) :
  (∀ l, drop_ws backwards l = l → Q l l) →
  (∀ a l d, Q l d → Q (a :: l) d) →
  ∀ l, Q l (drop_ws backwards l).
Proof.
  intros Stop Step l.
  remember (length l) as n eqn:Hn. revert l Hn.
  induction n as [n IH] using lt_wf_ind. intros l ->.
  assert (Go : ∀ k, length k < length l → Q k (drop_ws backwards k)).
  { intros k Hk. now apply (IH (length k)). }
  destruct l as [|a r1]; [now apply Stop|].
  pose proof (drop_ws_cons backwards a r1) as E.
  destruct (ws1 a).
  { rewrite E. apply Step, Go. cbn [length]. lia. }
  destruct r1 as [|b r2]; [rewrite E; now apply Stop|].
  destruct (if backwards then ws2 b a else ws2 a b).
  { rewrite E. apply Step, Step, Go. cbn [length]. lia. }
  destruct r2 as [|c r3]; [rewrite E; now apply Stop|].
  destruct (if backwards then ws3 c b a else ws3 a b c).
  { rewrite E. apply Step, Step, Step, Go. cbn [length]. lia. }
  rewrite E. now apply Stop.
Qed.

Lemma drop_ws_length backwards l : length (drop_ws backwards l) ≤ length l.
Proof.
  apply (drop_ws_ind backwards (λ l d, length d ≤ length l)).
  - reflexivity.
  - intros a k d H. cbn [length]. lia.
Qed.

(** What [drop_ws] stops at: a list it leaves as it is. *)
Lemma drop_ws_stops backwards l :
  drop_ws backwards (drop_ws backwards l) = drop_ws backwards l.
Proof.
  apply (drop_ws_ind backwards (λ l d, drop_ws backwards d = d)).
  - auto.
  - auto.
Qed.

Lemma drop_ws_suffix backwards l : drop_ws backwards l `suffix_of` l.
Proof.
  apply (drop_ws_ind backwards (λ l d, d `suffix_of` l)).
  - reflexivity.
  - intros a k d H. now apply suffix_cons_r.
Qed.

(** A list that starts with no white space has no prefix that does. *)
Lemma drop_ws_prefix p l :
  drop_ws false l = l → p `prefix_of` l → drop_ws false p = p.
Proof.
  intros Hl Hp.
  assert (Short : ∀ k, length k < length l → drop_ws false k ≠ l).
  { intros k Hk E. pose proof (drop_ws_length false k). rewrite E in *. lia. }
  destruct p as [|a p]; [reflexivity|].
  destruct l as [|a' l]; [now apply prefix_nil_inv in Hp|].
  apply prefix_cons_inv_1 in Hp as Ha. subst a'.
  apply prefix_cons_inv_2 in Hp.
  cbn [drop_ws] in Hl |- *.
  destruct (ws1 a) eqn:A.
  { exfalso. apply (Short l); [cbn [length]; lia | exact Hl]. }
  destruct p as [|b p]; [reflexivity|].
  destruct l as [|b' l]; [now apply prefix_nil_inv in Hp|].
  apply prefix_cons_inv_1 in Hp as Hb. subst b'.
  apply prefix_cons_inv_2 in Hp.
  destruct (ws2 a b) eqn:B.
  { exfalso. apply (Short l); [cbn [length]; lia | exact Hl]. }
  destruct p as [|c p]; [reflexivity|].
  destruct l as [|c' l]; [now apply prefix_nil_inv in Hp|].
  apply prefix_cons_inv_1 in Hp as Hc. subst c'.
  destruct (ws3 a b c) eqn:C; [|reflexivity].
  exfalso. apply (Short l); [cbn [length]; lia | exact Hl].
Qed.

Lemma trimStart_of_trim s : trimStart (trim s) = trim s.
Proof.
  unfold trim, trimEnd, trimStart.
  rewrite !list_ascii_of_string_of_list_ascii. f_equal.
  set (l := drop_ws false (list_ascii_of_string s)).
  apply (drop_ws_prefix _ l); [apply drop_ws_stops|].
  destruct (drop_ws_suffix true (rev l)) as [k E].
  exists (rev k). rewrite <- rev_app_distr, <- E. now rewrite rev_involutive.
Qed.

Lemma trimEnd_of_trimEnd s : trimEnd (trimEnd s) = trimEnd s.
Proof.
  unfold trimEnd. rewrite !list_ascii_of_string_of_list_ascii.
  now rewrite rev_involutive, drop_ws_stops.
Qed.

(** [trim] removes all the white space there is to remove at the two
    ends: what it returns it leaves as it is. *)
Lemma trim_trim s : trim (trim s) = trim s.
Proof.
  unfold trim at 1. rewrite trimStart_of_trim. unfold trim.
  apply trimEnd_of_trimEnd.
Qed.

(** ** Numbers printed and read back *)

Section Numerals.

Local Open Scope Z_scope.
#[local] Arguments ascii_of_digit : simpl never.
#[local] Arguments is_digit : simpl never.
#[local] Arguments digit_of_ascii : simpl never.
#[local] Arguments hexdigit_of_ascii : simpl never.
#[local] Arguments Ascii.eqb : simpl never.
#[local] Arguments Z.modulo : simpl never.
#[local] Arguments Z.div : simpl never.
#[local] Arguments Z.pow : simpl never.
#[local] Arguments Z.add : simpl never.
#[local] Arguments decimal : simpl never.

Lemma ToString_integer z : ToString (Int z) = Some (integer_string z).
Proof. reflexivity. Qed.

Lemma of_Z_Int v z : of_Z v = Int z → Z.abs z ≤ two53.
Proof.
  unfold of_Z. destruct (Z.leb_spec (Z.abs v) two53); [|discriminate].
  now intros [= <-].
Qed.

Lemma of_decimal_Int neg m e z : of_decimal neg m e = Int z → Z.abs z ≤ two53.
Proof.
  unfold of_decimal.
  destruct (0 <=? e); [apply of_Z_Int|].
  destruct (_ =? 0); [apply of_Z_Int|].
  destruct (_ <=? _); [|discriminate].
  intros [= <-]. unfold two53. lia.
Qed.

Lemma unsigned_decimal_literal_Int neg s z :
  unsigned_decimal_literal neg s = Int z → Z.abs z ≤ two53.
Proof.
  unfold unsigned_decimal_literal.
  destruct (String.eqb s "Infinity"); [discriminate|].
  destruct (span_digits s) as [ip r].
  destruct (match r with
            | String "." r1 => let (fp, r2) := span_digits r1 in (fp, r2, true)
            | _ => ("", r, false)
            end) as [[fp r'] dot].
  destruct (match ip with "" => _ | _ => _ end); [|discriminate].
  destruct (exponent_part r'); [apply of_decimal_Int | discriminate].
Qed.

(** The integers [Number] makes are those a double counts exactly. *)
Lemma Number_Int s z : Number s = Int z → Z.abs z ≤ two53.
Proof.
  unfold Number. destruct (trim s) as [|c r] eqn:T.
  { intros [= <-]. unfold two53. lia. }
  destruct (nondecimal_literal (String c r)); [apply of_Z_Int|].
  destruct (Ascii.eqb c "-").
  { destruct (nondecimal_literal r); [discriminate|].
    apply unsigned_decimal_literal_Int. }
  destruct (Ascii.eqb c "+").
  { destruct (nondecimal_literal r); [discriminate|].
    apply unsigned_decimal_literal_Int. }
  apply unsigned_decimal_literal_Int.
Qed.

Lemma trim_minus_digits s :
  unsigned_integer s = true → trim (String "-" s) = String "-" s.
Proof.
  unfold unsigned_integer. intros [Hne Hs]%andb_prop.
  unfold trim, trimEnd, trimStart. cbn [list_ascii_of_string].
  rewrite (drop_ws_plain false) by (vm_compute; (lia || reflexivity)).
  rewrite list_ascii_of_string_of_list_ascii. cbn [rev].
  pose proof (all_digits_Forall _ Hs) as F. apply Forall_rev in F.
  destruct (rev (list_ascii_of_string s)) as [|x k] eqn:R.
  { apply (f_equal (@rev _)) in R. rewrite rev_involutive in R. cbn [rev] in R.
    destruct s; [discriminate Hne | discriminate R]. }
  inversion F as [|? ? Hx _]; subst.
  destruct (digit_plain x Hx).
  rewrite <- app_comm_cons, drop_ws_plain by assumption.
  rewrite app_comm_cons, <- R. rewrite rev_app_distr, rev_involutive.
  cbn [rev app string_of_list_ascii]. now rewrite string_of_list_ascii_of_string.
Qed.

Lemma unsigned_decimal_literal_digits neg s :
  unsigned_integer s = true →
  unsigned_decimal_literal neg s
  = of_Z (if neg then - decimal_value s else decimal_value s).
Proof.
  unfold unsigned_integer. intros [Hne Hs]%andb_prop.
  destruct s as [|c r]; [discriminate|].
  pose proof Hs as [Hc _]%andb_prop.
  unfold unsigned_decimal_literal.
  replace (String.eqb (String c r) "Infinity") with false
    by (simpl; now rewrite (digit_not_char c) by (assumption || reflexivity)).
  rewrite span_digits_all by assumption.
  rewrite append_empty_r. simpl exponent_part. cbv iota beta.
  unfold of_decimal. simpl String.length.
  change (0 - Z.of_nat 0) with 0. change (0 <=? 0) with true. cbv iota.
  rewrite Z.pow_0_r, Z.mul_1_r. reflexivity.
Qed.

(** [Number] reads back the numeral ToString writes. *)
Lemma Number_integer_string z :
  Z.abs z ≤ two53 → Number (integer_string z) = Int z.
Proof.
  intros Hz. unfold integer_string. destruct (Z.ltb_spec z 0).
  - unfold Number. rewrite trim_minus_digits by apply unsigned_integer_decimal.
    pose proof (unsigned_integer_decimal (- z)) as U.
    replace (nondecimal_literal (String "-" (decimal (- z)))) with (@None Z)
      by (destruct (decimal (- z)) as [|p [|c r]]; reflexivity).
    change (Ascii.eqb "-" "-") with true. cbv iota.
    rewrite nondecimal_literal_digits by apply all_digits_decimal.
    rewrite unsigned_decimal_literal_digits by exact U.
    rewrite decimal_value_decimal by lia. unfold of_Z.
    destruct (Z.leb_spec (Z.abs (- - z)) two53); [f_equal; lia | lia].
  - apply Number_decimal. lia.
Qed.

Lemma integer_string_no_dot z : occurrences "." (integer_string z) = 0%nat.
Proof.
  assert (D : ∀ s, all_digits s = true → occurrences "." s = 0%nat).
  { induction s as [|c s IH]; cbn [all_digits occurrences]; [reflexivity|].
    intros [Hc Hs]%andb_prop.
    rewrite (digit_not_char c ".") by (assumption || reflexivity). auto. }
  unfold integer_string. destruct (z <? 0); cbn [occurrences].
  - change (Ascii.eqb "-" ".") with false. apply D, all_digits_decimal.
  - apply D, all_digits_decimal.
Qed.

End Numerals.

Lemma split_no_sep sep s : occurrences sep s = 0 → split sep s = [s].
Proof.
  induction s as [|c s IH]; cbn [split occurrences]; [reflexivity|].
  destruct (Ascii.eqb c sep); [discriminate|].
  intros H. now rewrite IH.
Qed.

Lemma split_app_sep sep s r :
  occurrences sep s = 0 → split sep (s +:+ String sep r) = s :: split sep r.
Proof.
  induction s as [|c s IH]; cbn [split occurrences String.append].
  - now rewrite Ascii.eqb_refl.
  - destruct (Ascii.eqb c sep); [discriminate|].
    intros H. now rewrite IH.
Qed.

(** ** One bump after another *)

Section Bumps.

Local Open Scope Z_scope.
#[local] Arguments decimal : simpl never.
#[local] Arguments Z.add : simpl never.
#[local] Arguments integer_string : simpl never.

Lemma Number_parts_Int current a b c n :
  map Number (split "." current) = [a; b; c] →
  n ∈ [a; b; c] → ∀ x, n = Int x → Z.abs x ≤ two53.
Proof.
  intros E Hn x ->. rewrite <- E in Hn.
  apply (list_elem_of_fmap Number) in Hn as (s & Hs & _). symmetry in Hs.
  now apply Number_Int in Hs.
Qed.

Lemma parts_of_integer_strings x y z :
  Z.abs x ≤ two53 → Z.abs y ≤ two53 → Z.abs z ≤ two53 →
  map Number (split "." (integer_string x +:+ "." +:+ integer_string y
                         +:+ "." +:+ integer_string z))
  = [Int x; Int y; Int z].
Proof.
  intros Hx Hy Hz.
  change ("." +:+ integer_string y +:+ "." +:+ integer_string z)
    with (String "." (integer_string y +:+ String "." (integer_string z))).
  rewrite !split_app_sep, split_no_sep by apply integer_string_no_dot.
  cbn [map]. now rewrite !Number_integer_string.
Qed.

(** A version made of three numerals is bumped as its numbers say. *)
Lemma calculateNewVersion_integer_strings x y z kind :
  Z.abs x ≤ two53 → Z.abs y ≤ two53 → Z.abs z ≤ two53 →
  calculateNewVersion (integer_string x +:+ "." +:+ integer_string y
                       +:+ "." +:+ integer_string z) kind
  = match kind with
    | major => default Unmodelled
                 ((λ a, Return (a +:+ ".0.0")) <$> ToString (add1 (Int x)))
    | minor => default Unmodelled
                 ((λ b, Return (integer_string x +:+ "." +:+ b +:+ ".0"))
                    <$> ToString (add1 (Int y)))
    | patch => default Unmodelled
                 ((λ c, Return (integer_string x +:+ "." +:+ integer_string y
                                +:+ "." +:+ c))
                    <$> ToString (add1 (Int z)))
    end.
Proof.
  intros Hx Hy Hz. unfold calculateNewVersion.
  rewrite parts_of_integer_strings by assumption.
  cbn [length Nat.eqb negb orb existsb isNaN].
  destruct kind; cbn [ToString add1];
    repeat match goal with |- context [(?n =? two53)] => destruct (n =? two53) end;
    reflexivity.
Qed.

(** A version is bumped as the numbers of its components say, however
    they are written. *)
Lemma calculateNewVersion_numbers current kind x y z :
  map Number (split "." current) = [Int x; Int y; Int z] →
  Z.abs x ≤ two53 ∧ Z.abs y ≤ two53 ∧ Z.abs z ≤ two53
  ∧ calculateNewVersion current kind
    = calculateNewVersion (integer_string x +:+ "." +:+ integer_string y
                           +:+ "." +:+ integer_string z) kind.
Proof.
  intros E.
  pose proof (λ n Hn, Number_parts_Int _ _ _ _ n E Hn) as R.
  assert (Hx : Z.abs x ≤ two53)
    by (apply (R (Int x)); [set_solver | reflexivity]).
  assert (Hy : Z.abs y ≤ two53)
    by (apply (R (Int y)); [set_solver | reflexivity]).
  assert (Hz : Z.abs z ≤ two53)
    by (apply (R (Int z)); [set_solver | reflexivity]).
  repeat split; try assumption.
  unfold calculateNewVersion.
  now rewrite E, parts_of_integer_strings by assumption.
Qed.

Lemma calculateNewVersion_bumped x y z kind :
  Z.abs x ≤ two53 → Z.abs y ≤ two53 → Z.abs z ≤ two53 →
  ∃ x' y' z',
    [Int x'; Int y'; Int z'] = bumped kind x y z
    ∧ Z.abs x' ≤ two53 ∧ Z.abs y' ≤ two53 ∧ Z.abs z' ≤ two53
    ∧ calculateNewVersion (integer_string x +:+ "." +:+ integer_string y
                           +:+ "." +:+ integer_string z) kind
      = Return (integer_string x' +:+ "." +:+ integer_string y'
                +:+ "." +:+ integer_string z').
Proof.
  intros Hx Hy Hz.
  assert (Z0 : Z.abs 0 ≤ two53) by (unfold two53; lia).
  rewrite calculateNewVersion_integer_strings by assumption.
  unfold bumped.
  destruct kind; cbn [add1 ToString fmap option_fmap option_map default];
    match goal with |- context [(?n =? two53)] => destruct (Z.eqb_spec n two53) end;
    (eexists _, _, _; split; [reflexivity|]);
    (repeat split; try assumption; unfold two53 in *; lia).
Qed.

(** X1: a version of three integer components can be bumped again and
    again.  When [Number] reads the three components of [current] as
    integers (of magnitude 2^53 at most, as every integer [Number] gives
    here is), the bump returns the three integer numerals of the bumped
    numbers, [Number] reads these numerals back as the numbers they
    print, and so any bump of the result returns again.  A component
    with a fraction, as in [0.1e-1.0], is outside this statement. *)
Theorem bumped_version_can_be_bumped current kind x y z :
  map Number (split "." current) = [Int x; Int y; Int z] →
  ∃ x' y' z',
    [Int x'; Int y'; Int z'] = bumped kind x y z
    ∧ let new := integer_string x' +:+ "." +:+ integer_string y'
                 +:+ "." +:+ integer_string z' in
      calculateNewVersion current kind = Return new
      ∧ map Number (split "." new) = [Int x'; Int y'; Int z']
      ∧ ∀ kind', ∃ next, calculateNewVersion new kind' = Return next.
Proof.
  intros E.
  destruct (calculateNewVersion_numbers current kind x y z E)
    as (Hx & Hy & Hz & ->).
  destruct (calculateNewVersion_bumped x y z kind Hx Hy Hz)
    as (x' & y' & z' & B & Hx' & Hy' & Hz' & ->).
  exists x', y', z'. split; [exact B|]. cbv zeta.
  split; [reflexivity|]. split; [now apply parts_of_integer_strings|].
  intros kind'.
  destruct (calculateNewVersion_bumped x' y' z' kind' Hx' Hy' Hz')
    as (x2 & y2 & z2 & _ & _ & _ & _ & ->).
  eexists; reflexivity.
Qed.

(** X2: a larger bump forgets the smaller ones made before it.  For a
    version whose three components [Number] reads as integers, the three
    bumps return, the major bump of the version is also the major bump
    of its minor and of its patch bump, and its minor bump is also the
    minor bump of its patch bump. *)
Theorem larger_bump_forgets_smaller current x y z :
  map Number (split "." current) = [Int x; Int y; Int z] →
  ∃ major_ minor_ patch_,
    calculateNewVersion current major = Return major_
    ∧ calculateNewVersion current minor = Return minor_
    ∧ calculateNewVersion current patch = Return patch_
    ∧ calculateNewVersion minor_ major = Return major_
    ∧ calculateNewVersion patch_ major = Return major_
    ∧ calculateNewVersion patch_ minor = Return minor_.
Proof.
  intros E.
  assert (Z0 : Z.abs 0 ≤ two53) by (unfold two53; lia).
  destruct (calculateNewVersion_numbers current major x y z E)
    as (Hx & Hy & Hz & Major).
  destruct (calculateNewVersion_numbers current minor x y z E)
    as (_ & _ & _ & Minor).
  destruct (calculateNewVersion_numbers current patch x y z E)
    as (_ & _ & _ & Patch).
  rewrite Major, Minor, Patch.
  destruct (calculateNewVersion_bumped x y z major Hx Hy Hz)
    as (x1 & y1 & z1 & B1 & _ & _ & _ & ->).
  destruct (calculateNewVersion_bumped x y z minor Hx Hy Hz)
    as (x2 & y2 & z2 & B2 & Hx2 & Hy2 & Hz2 & ->).
  destruct (calculateNewVersion_bumped x y z patch Hx Hy Hz)
    as (x3 & y3 & z3 & B3 & Hx3 & Hy3 & Hz3 & ->).
  eexists _, _, _. repeat (split; [reflexivity|]).
  destruct (calculateNewVersion_bumped x2 y2 z2 major Hx2 Hy2 Hz2)
    as (x4 & y4 & z4 & B4 & _ & _ & _ & ->).
  destruct (calculateNewVersion_bumped x3 y3 z3 major Hx3 Hy3 Hz3)
    as (x5 & y5 & z5 & B5 & _ & _ & _ & ->).
  destruct (calculateNewVersion_bumped x3 y3 z3 minor Hx3 Hy3 Hz3)
    as (x6 & y6 & z6 & B6 & _ & _ & _ & ->).
  unfold bumped in *.
  injection B2 as -> B2 ->. injection B3 as -> -> B3.
  rewrite <- B1 in B4, B5. injection B4 as -> -> ->. injection B5 as -> -> ->.
  injection B6 as -> B6 ->. rewrite <- B2 in B6. injection B6 as ->.
  auto.
Qed.

End Bumps.

(** ** What a run does and does not do *)

Section Confined.
Context `{P : Platform}.

Lemma try_catch_run {A} (m : M A) (handler : exn → M A) w :
  try_catch m handler w
  = match outcome (m w) with
    | Throw e =>
        mkRun (events (m w) ++ events (handler e (after (m w))))
              (after (handler e (after (m w))))
              (outcome (handler e (after (m w))))
    | _ => m w
    end.
Proof. reflexivity. Qed.

Lemma emits_only_bind {A B} dir ok (m : M A) (f : A → M B) :
  emits_only dir ok m → (∀ a, emits_only dir ok (f a)) →
  emits_only dir ok (m ≫= f).
Proof.
  intros Hm Hf w Hw. rewrite bind_run. destruct (Hm w Hw) as [E C].
  destruct (outcome (m w)) as [a| |]; cbn [events after]; auto.
  destruct (Hf a (after (m w)) C) as [E' C'].
  split; [now apply Forall_app | exact C'].
Qed.

(** The continuation of [process.cwd()] is run with the directory. *)
Lemma emits_only_cwd_bind {B} dir ok (f : string → M B) :
  emits_only dir ok (f dir) → emits_only dir ok (process_cwd ≫= f).
Proof.
  intros Hf w Hw. rewrite bind_run. cbn [process_cwd outcome events after app].
  rewrite Hw. now apply Hf.
Qed.

Lemma emits_only_try_catch {A} dir ok (m : M A) (handler : exn → M A) :
  emits_only dir ok m → (∀ e, emits_only dir ok (handler e)) →
  emits_only dir ok (try_catch m handler).
Proof.
  intros Hm Hh w Hw. rewrite try_catch_run. destruct (Hm w Hw) as [E C].
  destruct (outcome (m w)) as [a|e|]; auto.
  destruct (Hh e (after (m w)) C) as [E' C']. cbn [events after].
  split; [now apply Forall_app | exact C'].
Qed.

Lemma emits_only_reads {A} dir ok (m : M A) : reads_only m → emits_only dir ok m.
Proof. intros H w Hw. destruct (H w) as [-> ->]. now split. Qed.

Lemma emits_only_emit dir (ok : event → Prop) e : ok e → emits_only dir ok (emit e).
Proof. intros H w Hw. split; [now constructor | exact Hw]. Qed.

Lemma emits_only_writeFile dir (ok : event → Prop) p c :
  ok (WriteFile p c) → emits_only dir ok (writeFile p c).
Proof. intros H w Hw. split; [now constructor | exact Hw]. Qed.

Lemma emits_only_execGit dir (ok : event → Prop) args :
  (∀ result, ok (Git args result)) → emits_only dir ok (execGit args).
Proof.
  intros H w Hw. rewrite execGit_run.
  destruct (execFile_git args w) as [[fs r] result]. cbn [events after cwd].
  split; [now constructor | exact Hw].
Qed.

Lemma emits_only_isGitRepository dir (ok : event → Prop) :
  (∀ result, ok (Git ["rev-parse"; "--git-dir"] result)) →
  emits_only dir ok isGitRepository.
Proof.
  intros H w Hw. rewrite isGitRepository_run.
  destruct (execFile_git _ w) as [[fs r] result]. cbn [events after cwd].
  split; [now constructor | exact Hw].
Qed.

Lemma emits_only_for_of {A} dir ok (xs : list A) (body : A → M unit) :
  (∀ x, emits_only dir ok (body x)) → emits_only dir ok (for_of xs body).
Proof.
  intros H. induction xs as [|x xs IH]; cbn [for_of].
  - apply emits_only_reads, reads_only_ret.
  - apply emits_only_bind; auto.
Qed.

End Confined.

Create HintDb confined discriminated.

(** Walks a computation, leaving to [side] that the events it can emit
    are allowed. *)
Ltac step_emits side :=
  repeat first
    [ apply emits_only_reads; solve [auto with confined]
    | progress cbv zeta
    | apply emits_only_emit; solve [side]
    | apply emits_only_writeFile; solve [side]
    | apply emits_only_execGit; intros ?; solve [side]
    | apply emits_only_isGitRepository; intros ?; solve [side]
    | apply emits_only_for_of; intros ?
    | apply emits_only_cwd_bind
    | apply emits_only_bind; [|intros ?]
    | match goal with
      | |- emits_only _ _ (if ?c then _ else _) => destruct c
      | |- emits_only _ _ (match ?x with _ => _ end) => destruct x
      end ].

(** An allowed event, by computation. *)
Ltac allowed := first [exact I | reflexivity | cbn; done | cbn; congruence].

Section Runs.
Context `{P : Platform}.

#[local] Hint Resolve reads_only_ret reads_only_throw reads_only_lift reads_only_cwd
  reads_only_existsSync reads_only_readFile reads_only_JSON_parse
  reads_only_getCurrentVersion : confined.

Lemma Forall_gits (Q : list string → Prop) evs :
  Forall (λ e, match e with Git args _ => Q args | _ => True end) evs →
  Forall Q (gits evs).
Proof.
  induction 1 as [|e evs He _ IH]; [constructor|].
  destruct e; cbn; auto.
Qed.

(** *** [execGit] and the probe *)

(** X3: [execGit] calls [git] once, whatever comes of it.  When the
    call succeeds the standard output is returned trimmed: trimming it
    again changes nothing; when it fails the error thrown is the one
    that names the command line and carries the message of the failure.
    So it is for the one command of [getCurrentBranch]. *)
Theorem execGit_calls_once_and_trims args w :
  (∃ result,
      events (execGit args w) = [Git args result]
      ∧ match result with
        | inl stdout => outcome (execGit args w) = Return (trim stdout)
        | inr msg => outcome (execGit args w) = Throw (git_command_failed args msg)
        end)
  ∧ (∀ out, outcome (execGit args w) = Return out → trim out = out)
  ∧ gits (events (getCurrentBranch w)) = [["branch"; "--show-current"]]
  ∧ ∀ name, outcome (getCurrentBranch w) = Return name → trim name = name.
Proof.
  assert (G : ∀ a, (∃ result,
      events (execGit a w) = [Git a result]
      ∧ match result with
        | inl stdout => outcome (execGit a w) = Return (trim stdout)
        | inr msg => outcome (execGit a w) = Throw (git_command_failed a msg)
        end)
      ∧ (∀ out, outcome (execGit a w) = Return out → trim out = out)).
  { intros a. rewrite execGit_run.
    destruct (execFile_git a w) as [[fs r] [stdout|msg]]; cbn [events outcome].
    - split; [now exists (inl stdout)|]. intros out [= <-]. apply trim_trim.
    - split; [now exists (inr msg)|]. discriminate. }
  destruct (G args) as [One Trim]. split; [exact One|]. split; [exact Trim|].
  unfold getCurrentBranch.
  destruct (G ["branch"; "--show-current"]) as [[r [-> _]] T].
  split; [reflexivity | exact T].
Qed.

(** X4: [isGitRepository] never throws: it calls [git rev-parse
    --git-dir] once and nothing else, and returns whether that call
    succeeded. *)
Theorem isGitRepository_never_throws w :
  ∃ result,
    events (isGitRepository w) = [Git ["rev-parse"; "--git-dir"] result]
    ∧ outcome (isGitRepository w)
      = Return (match result with inl _ => true | inr _ => false end)
    ∧ execFile_git ["rev-parse"; "--git-dir"] w
      = (files (after (isGitRepository w)), repo (after (isGitRepository w)),
         result).
Proof.
  rewrite isGitRepository_run.
  destruct (execFile_git _ w) as [[fs r] [out|msg]]; eexists; repeat split.
Qed.

(** *** Reading the manifest *)

Lemma getCurrentVersion_run f w :
  getCurrentVersion f w
  = mkRun [] w
      (match files w !! path_join (cwd w) (default "package.json" f) with
       | None =>
           Throw (Error ("Package file not found: "
                         +:+ path_join (cwd w) (default "package.json" f)))
       | Some text =>
           match JSON_parse text with
           | inr msg => Throw (SyntaxError msg)
           | inl JNull =>
               Throw (TypeError
                        "Cannot read properties of null (reading 'version')")
           | inl (JObject props) =>
               match get_property "version" props with
               | Some v =>
                   if ToBoolean v then Return v
                   else Throw (Error "No version field found in package.json")
               | None => Throw (Error "No version field found in package.json")
               end
           | inl _ => Throw (Error "No version field found in package.json")
           end
       end).
Proof.
  unfold getCurrentVersion, mbind, M_bind, process_cwd, existsSync, readFile,
    JSON_parse_.
  cbn [outcome after events].
  destruct (files w !! _) as [text|] eqn:F.
  - rewrite bool_decide_eq_true_2 by eauto.
    cbn [negb outcome after events]. rewrite !F.
    cbn [outcome after events].
    destruct (JSON_parse text) as [doc|msg] eqn:J;
      cbn [outcome after events mret M_ret throw]; [|reflexivity].
    destruct doc as [| | | | |props]; try reflexivity.
    cbv zeta. destruct (get_property "version" props) as [v|]; [|reflexivity].
    destruct (ToBoolean v); reflexivity.
  - rewrite bool_decide_eq_false_2 by (intros [? [=]]). reflexivity.
Qed.

(** X5: [getCurrentVersion] only reads, and reads nothing but the
    manifest: it prints nothing, calls no [git], leaves the world as it
    is, and what it returns or throws is the same in any two worlds with
    the same current directory and the same text (or none) at the path
    of the manifest. *)
Theorem getCurrentVersion_reads_the_manifest_only f w :
  events (getCurrentVersion f w) = []
  ∧ after (getCurrentVersion f w) = w
  ∧ ∀ w', cwd w' = cwd w →
          files w' !! path_join (cwd w) (default "package.json" f)
          = files w !! path_join (cwd w) (default "package.json" f) →
          outcome (getCurrentVersion f w') = outcome (getCurrentVersion f w).
Proof.
  rewrite !getCurrentVersion_run. split; [reflexivity|]. split; [reflexivity|].
  intros w' C F. rewrite getCurrentVersion_run, C, F. reflexivity.
Qed.

(** X6: the errors of [getCurrentVersion].  A missing file is reported
    with its full path; a text that is not JSON gives the SyntaxError of
    [JSON.parse]; the document [null] gives a TypeError; and any other
    document that is not an object (an array, a string, a number, a
    boolean) or that is an object without a [version] property is
    reported as having no version field. *)
Theorem getCurrentVersion_errors f w :
  let path := path_join (cwd w) (default "package.json" f) in
  let r := outcome (getCurrentVersion f w) in
  (files w !! path = None →
   r = Throw (Error ("Package file not found: " +:+ path)))
  ∧ ∀ text, files w !! path = Some text →
      (∀ msg, JSON_parse text = inr msg → r = Throw (SyntaxError msg))
      ∧ (JSON_parse text = inl JNull →
         r = Throw (TypeError "Cannot read properties of null (reading 'version')"))
      ∧ (∀ doc, JSON_parse text = inl doc → doc ≠ JNull →
           match doc with
           | JObject props => get_property "version" props = None
           | _ => True
           end →
           r = Throw (Error "No version field found in package.json")).
Proof.
  intros path r. subst r. rewrite getCurrentVersion_run. fold path.
  cbn [outcome]. split; [now intros ->|].
  intros text ->. split; [now intros msg ->|]. split; [now intros ->|].
  intros doc -> Hnull Hv. destruct doc; try done. now rewrite Hv.
Qed.

(** *** Writing the manifest *)

Lemma updatePackageVersion_run v f w :
  let path := path_join (cwd w) (default "package.json" f) in
  let write (doc : json) :=
    let content := JSON_stringify doc 2 +:+ String "010" "" in
    mkRun [WriteFile path content]
          (mkWorld (cwd w) (<[path := content]> (files w)) (repo w))
          (Return tt) in
  updatePackageVersion v f w
  = match files w !! path with
    | None =>
        mkRun [] w (Throw (Error ("ENOENT: no such file or directory, open '"
                                  +:+ path +:+ "'")))
    | Some text =>
        match JSON_parse text with
        | inr msg => mkRun [] w (Throw (SyntaxError msg))
        | inl (JObject props) =>
            write (JObject (set_property "version" (JString v) props))
        | inl (JArray items) => write (JArray items)
        | inl JNull =>
            mkRun [] w
              (Throw (TypeError
                        "Cannot set properties of null (setting 'version')"))
        | inl doc =>
            mkRun [] w
              (match ToString_json doc with
               | Some shown =>
                   Throw (TypeError ("Cannot create property 'version' on "
                                     +:+ typeof doc +:+ " '" +:+ shown +:+ "'"))
               | None => Unmodelled
               end)
        end
    end.
Proof.
  intros path write. subst write.
  unfold updatePackageVersion, mbind, M_bind, process_cwd, readFile, JSON_parse_.
  cbn [outcome after events]. fold path.
  destruct (files w !! path) as [text|] eqn:F; [|reflexivity].
  cbn [outcome after events]. rewrite ?F. cbn [outcome after events].
  destruct (JSON_parse text) as [doc|msg] eqn:J;
    cbn [outcome after events mret M_ret throw]; [|reflexivity].
  destruct doc as [|b|n|s| |]; try reflexivity;
    cbn [outcome after events mret M_ret throw];
    match goal with
    | |- context [ToString_json ?d] => destruct (ToString_json d)
    end; reflexivity.
Qed.

(** X7: [updatePackageVersion] fails before it writes.  When the
    manifest is not there, when its text is not JSON, when it holds
    [null] or a primitive (a boolean, a number, a string), the call
    throws and has done nothing up to then: no file was written,
    nothing was printed, the world is as it was.  A manifest that is not
    there is the error of [readFile], not the one of
    [getCurrentVersion].  And the call returns only when the manifest
    was there and held an object or an array. *)
Theorem updatePackageVersion_fails_before_writing v f w :
  let path := path_join (cwd w) (default "package.json" f) in
  let r := updatePackageVersion v f w in
  let fails (e : exn) := r = mkRun [] w (Throw e) in
  (files w !! path = None →
   fails (Error ("ENOENT: no such file or directory, open '"
                 +:+ path +:+ "'")))
  ∧ (∀ text, files w !! path = Some text →
       (∀ msg, JSON_parse text = inr msg → fails (SyntaxError msg))
       ∧ (JSON_parse text = inl JNull →
          fails (TypeError "Cannot set properties of null (setting 'version')"))
       ∧ (∀ doc shown,
            JSON_parse text = inl doc → typeof doc ≠ "object" →
            ToString_json doc = Some shown →
            fails (TypeError ("Cannot create property 'version' on "
                              +:+ typeof doc +:+ " '" +:+ shown +:+ "'"))))
  ∧ (outcome r = Return tt →
     ∃ text, files w !! path = Some text
             ∧ match JSON_parse text with
               | inl (JObject _) | inl (JArray _) => True
               | _ => False
               end).
Proof.
  intros path r fails. subst r fails. cbv beta.
  rewrite updatePackageVersion_run. fold path.
  split; [now intros ->|]. split.
  - intros text ->. split; [now intros msg ->|]. split; [now intros ->|].
    intros doc shown -> T S. destruct doc; try done; now rewrite S.
  - destruct (files w !! path) as [text|]; [|discriminate].
    intros R. exists text. split; [reflexivity|].
    destruct (JSON_parse text) as [[| | | | |]|]; try done;
      cbn [outcome] in R; try discriminate;
      destruct (ToString_json _); discriminate.
Qed.

Lemma set_property_absent key v props :
  get_property key props = None → set_property key v props = props ++ [(key, v)].
Proof.
  induction props as [|[k x] props IH]; cbn [get_property set_property app];
    [reflexivity|].
  destruct (String.eqb k key); [discriminate|]. intros H. now rewrite IH.
Qed.

Lemma set_property_present key v props old :
  get_property key props = Some old →
  ∃ before rest,
    props = before ++ (key, old) :: rest
    ∧ set_property key v props = before ++ (key, v) :: rest
    ∧ get_property key before = None.
Proof.
  induction props as [|[k x] props IH]; cbn [get_property set_property];
    [discriminate|].
  destruct (String.eqb_spec k key) as [->|Hk].
  - intros [= ->]. now exists [], props.
  - intros (before & rest & -> & -> & Hb)%IH.
    exists ((k, x) :: before), rest. repeat split. cbn [get_property].
    destruct (String.eqb_spec k key); [done | exact Hb].
Qed.

Lemma set_property_twice key v v' props :
  set_property key v' (set_property key v props) = set_property key v' props.
Proof.
  induction props as [|[k x] props IH]; cbn [set_property].
  - now rewrite String.eqb_refl.
  - destruct (String.eqb k key) eqn:E; cbn [set_property]; rewrite E;
      [reflexivity | now rewrite IH].
Qed.

(** X8: on a manifest that holds an object [updatePackageVersion]
    changes the [version] property where it stands, or adds it after the
    last property when there is none, and writes every other property
    back in its place with its value. *)
Theorem updatePackageVersion_keeps_the_order v f w text props :
  let path := path_join (cwd w) (default "package.json" f) in
  files w !! path = Some text →
  JSON_parse text = inl (JObject props) →
  ∃ props',
    events (updatePackageVersion v f w)
    = [WriteFile path (JSON_stringify (JObject props') 2 +:+ String "010" "")]
    ∧ match get_property "version" props with
      | None => props' = props ++ [("version", JString v)]
      | Some old =>
          ∃ before rest,
            props = before ++ ("version", old) :: rest
            ∧ props' = before ++ ("version", JString v) :: rest
            ∧ get_property "version" before = None
      end.
Proof.
  intros path Hfile Hparse. rewrite updatePackageVersion_run. fold path.
  rewrite Hfile, Hparse.
  exists (set_property "version" (JString v) props). split; [reflexivity|].
  destruct (get_property "version" props) as [old|] eqn:G.
  - now apply set_property_present.
  - now apply set_property_absent.
Qed.

(** X9: the last update wins.  On a platform whose [JSON.parse] reads
    back the document the first update wrote, a second update leaves the
    files as if it had been the only one; in particular an update with
    the same version a second time changes nothing. *)
Theorem updatePackageVersion_last_wins v v' f w text props :
  let path := path_join (cwd w) (default "package.json" f) in
  let first := JObject (set_property "version" (JString v) props) in
  files w !! path = Some text →
  JSON_parse text = inl (JObject props) →
  JSON_parse (JSON_stringify first 2 +:+ String "010" "") = inl first →
  after (updatePackageVersion v' f (after (updatePackageVersion v f w)))
  = after (updatePackageVersion v' f w)
  ∧ after (updatePackageVersion v f (after (updatePackageVersion v f w)))
    = after (updatePackageVersion v f w).
Proof.
  intros path first Hfile Hparse Hback.
  assert (Two : ∀ x,
            after (updatePackageVersion x f (after (updatePackageVersion v f w)))
            = after (updatePackageVersion x f w)).
  { intros x. rewrite (updatePackageVersion_run v f w). fold path.
    rewrite Hfile, Hparse. cbv zeta. cbn [after].
    rewrite !updatePackageVersion_run. cbn [cwd files repo]. fold path.
    rewrite lookup_insert_eq. fold first. rewrite Hback, Hfile, Hparse.
    unfold first. rewrite set_property_twice. cbn [after].
    now rewrite insert_insert_eq. }
  split; apply Two.
Qed.

(** ** The steps of [bumpVersion] *)

Lemma bind_Return {A B} (m : M A) (f : A → M B) w b :
  outcome ((m ≫= f) w) = Return b →
  ∃ a, outcome (m w) = Return a ∧ outcome (f a (after (m w))) = Return b.
Proof.
  rewrite bind_run. destruct (outcome (m w)) as [a| |]; cbn [outcome];
    [eauto | discriminate..].
Qed.

Lemma release_Return c n b m sp sm f t p w info :
  outcome (release c n b m sp sm f t p w) = Return info →
  info = mkVersionInfo c n.
Proof.
  unfold release. cbv zeta. intros H.
  repeat (apply bind_Return in H as (? & _ & H)).
  now injection H as <-.
Qed.

(** The run of [bumpVersion] after the probe, by what the manifest
    holds. *)
Lemma bumpVersion_run options w :
  let probe := isGitRepository w in
  let file := default "package.json" (packageFile options) in
  let stop {A} (c : completion A) := mkRun (events probe) (after probe) c in
  bumpVersion options w
  = match outcome probe with
    | Return true =>
        match outcome (getCurrentVersion (Some file) (after probe)) with
        | Return (JString currentVersion) =>
            match calculateNewVersion currentVersion (bumpType options) with
            | Return newVersion =>
                let branches_ :=
                  default (mkBranches (Some "develop") (Some ["UAT"]))
                          (branches options) in
                let createTag_ := default true (createTag options) in
                let tagPrefix_ := default "v" (tagPrefix options) in
                let rest :=
                  if default false (dryRun options) then
                    (report_dry_run currentVersion newVersion branches_
                                    createTag_ tagPrefix_ ;;
                     mret (mkVersionInfo currentVersion newVersion))
                      (after probe)
                  else
                    release currentVersion newVersion branches_
                            (commitMessage options)
                            (default false (skipPush options))
                            (default false (skipMerge options))
                            file createTag_ tagPrefix_ (after probe) in
                mkRun (events probe ++ events rest) (after rest) (outcome rest)
            | Throw e => stop (Throw e)
            | Unmodelled => stop Unmodelled
            end
        | Return _ =>
            stop (Throw (TypeError "currentVersion.split is not a function"))
        | Throw e => stop (Throw e)
        | Unmodelled => stop Unmodelled
        end
    | Return false => stop (Throw (Error "Not a git repository"))
    | Throw e => stop (Throw e)
    | Unmodelled => stop Unmodelled
    end.
Proof.
  intros probe file stop. subst stop. unfold bumpVersion. cbv zeta.
  rewrite bind_run. fold probe.
  destruct (outcome probe) as [[|]| |]; try reflexivity;
    cbn [negb throw events after outcome]; rewrite ?app_nil_r; try reflexivity.
  rewrite (bind_run (getCurrentVersion _) _ (after probe)). fold file.
  destruct (reads_only_getCurrentVersion (Some file) (after probe)) as [E W].
  rewrite E, W.
  destruct (outcome (getCurrentVersion (Some file) (after probe)))
    as [[| | |currentVersion| |]| |];
    cbn [throw events after outcome app]; rewrite ?app_nil_r; try reflexivity.
  rewrite (bind_run (lift _) _ (after probe)).
  cbn [lift outcome events after app].
  destruct (calculateNewVersion currentVersion (bumpType options));
    cbn [events after outcome]; rewrite ?app_nil_r; try reflexivity.
  now destruct (default false (dryRun options)).
Qed.

Lemma updatePackageVersion_events v f w :
  events (updatePackageVersion v f w) = []
  ∨ ∃ content,
      events (updatePackageVersion v f w)
      = [WriteFile (path_join (cwd w) (default "package.json" f)) content].
Proof.
  rewrite updatePackageVersion_run.
  destruct (files w !! _) as [text|]; [|now left].
  destruct (JSON_parse text) as [[| | | | |]|]; eauto.
Qed.

Lemma updatePackageVersion_cwd v f w :
  cwd (after (updatePackageVersion v f w)) = cwd w.
Proof.
  rewrite updatePackageVersion_run.
  destruct (files w !! _) as [text|]; [|reflexivity].
  destruct (JSON_parse text) as [[| | | | |]|]; reflexivity.
Qed.

Lemma follows_no_git {A} (m : M A) :
  (∀ w, gits (events (m w)) = []) → follows [] m.
Proof. intros H w. rewrite H. split; [done | reflexivity]. Qed.

Lemma follows_updatePackageVersion v f : follows [] (updatePackageVersion v f).
Proof.
  apply follows_no_git. intros w.
  destruct (updatePackageVersion_events v f w) as [-> | [c ->]]; reflexivity.
Qed.

Lemma follows_bind_last {A B} plan (m : M A) (f : A → M B) :
  follows plan m → (∀ a, follows [] (f a)) → follows plan (m ≫= f).
Proof. intros Hm Hf. rewrite <- (app_nil_r plan). now apply follows_bind. Qed.

Lemma follows_ret {A} (a : A) : follows [] (mret a).
Proof. apply follows_console, reads_console, reads_only_ret. Qed.

Lemma follows_log {A} l (k : M A) plan :
  follows plan k → follows plan (console_log l ;; k).
Proof.
  intros H. apply (follows_bind [] plan); [|intros _; exact H].
  apply follows_console, console_only_log.
Qed.

Lemma follows_git {A} args (k : M A) plan :
  follows plan k → follows (args :: plan) (execGit args ;; k).
Proof.
  intros H. apply (follows_bind [args] plan); [|intros _; exact H].
  apply follows_execGit.
Qed.

Lemma follows_release currentVersion newVersion branches commitMessage
    skipPush skipMerge packageFile createTag tagPrefix :
  follows (release_plan newVersion branches commitMessage skipPush skipMerge
                        packageFile createTag tagPrefix)
          (release currentVersion newVersion branches commitMessage skipPush
                   skipMerge packageFile createTag tagPrefix).
Proof.
  unfold release, release_plan. cbv zeta.
  apply follows_log, follows_git, follows_log, follows_git, follows_git.
  apply follows_log.
  apply (follows_bind []); [apply follows_updatePackageVersion | intros _].
  apply follows_log, follows_git, follows_git.
  apply follows_bind.
  { destruct createTag; [|apply follows_ret].
    apply follows_log, follows_git, follows_ret. }
  intros _. apply follows_bind.
  { destruct skipPush; cbn [negb]; [apply follows_ret|].
    apply follows_log, follows_git.
    destruct createTag; [|apply follows_ret].
    apply follows_log, follows_git, follows_ret. }
  intros _. apply follows_bind_last.
  { destruct (targets branches) as [ts|]; [|apply follows_ret].
    destruct (negb skipMerge && (0 <? length ts)); [|apply follows_ret].
    apply follows_merge_to_targets. }
  intros _. apply follows_log, follows_ret.
Qed.


(** X10: the calls of [git] that [release] makes are those of
    [release_plan], in that order: fetch, switch to the source branch,
    pull, add the manifest, commit, then the tag if tags are made, the
    push of the branch and of the tags unless pushing is skipped, and
    the merge into the targets unless merging is skipped or there is no
    target.  A run that returns has made them all; a run that does not
    has made the first of them, up to the one that failed. *)
Theorem release_follows_its_plan currentVersion newVersion branches commitMessage
    skipPush skipMerge packageFile createTag tagPrefix :
  follows (release_plan newVersion branches commitMessage skipPush skipMerge
                        packageFile createTag tagPrefix)
          (release currentVersion newVersion branches commitMessage skipPush
                   skipMerge packageFile createTag tagPrefix).
Proof. apply follows_release. Qed.

Lemma bumpVersion_Return_inv options w info :
  outcome (bumpVersion options w) = Return info →
  outcome (isGitRepository w) = Return true
  ∧ ∃ currentVersion newVersion,
      outcome (getCurrentVersion
                 (Some (default "package.json" (packageFile options)))
                 (after (isGitRepository w)))
      = Return (JString currentVersion)
      ∧ calculateNewVersion currentVersion (bumpType options) = Return newVersion.
Proof.
  rewrite bumpVersion_run. cbv zeta.
  destruct (outcome (isGitRepository w)) as [[|]| |]; try discriminate.
  destruct (outcome (getCurrentVersion _ _)) as [[| | |currentVersion| |]| |] eqn:V;
    try discriminate.
  destruct (calculateNewVersion currentVersion (bumpType options)) as [new| |] eqn:C;
    try discriminate.
  intros _. split; [reflexivity|]. exists currentVersion, new.
  split; [reflexivity | exact C].
Qed.

Lemma bumpVersion_release_run options w currentVersion newVersion :
  outcome (isGitRepository w) = Return true →
  outcome (getCurrentVersion
             (Some (default "package.json" (packageFile options)))
             (after (isGitRepository w)))
  = Return (JString currentVersion) →
  calculateNewVersion currentVersion (bumpType options) = Return newVersion →
  default false (dryRun options) = false →
  bumpVersion options w
  = let r :=
      release currentVersion newVersion
              (default (mkBranches (Some "develop") (Some ["UAT"]))
                       (branches options))
              (commitMessage options)
              (default false (skipPush options))
              (default false (skipMerge options))
              (default "package.json" (packageFile options))
              (default true (createTag options))
              (default "v" (tagPrefix options))
              (after (isGitRepository w)) in
    mkRun (events (isGitRepository w) ++ events r) (after r) (outcome r).
Proof.
  intros Hp Hv Hc Hd. rewrite bumpVersion_run. cbv zeta.
  rewrite Hp, Hv, Hc, Hd. reflexivity.
Qed.

Lemma not_dry_run options :
  dryRun options ≠ Some true → default false (dryRun options) = false.
Proof. destruct (dryRun options) as [[|]|]; [done | reflexivity..]. Qed.

(** X11: a run of [bumpVersion] that returns, and is no dry run, has
    read the old version from the manifest, computed the new one from
    it, and called [git] for the probe and then for every command of
    [release_plan], in order; the commit message is the one given or
    ["build: "] and the new version, the tag the prefix and the new
    version. *)
Theorem completed_run_follows_the_plan options w info :
  dryRun options ≠ Some true →
  outcome (bumpVersion options w) = Return info →
  outcome (getCurrentVersion
             (Some (default "package.json" (packageFile options)))
             (after (isGitRepository w)))
  = Return (JString (oldVersion info))
  ∧ calculateNewVersion (oldVersion info) (bumpType options)
    = Return (newVersion info)
  ∧ gits (events (bumpVersion options w))
    = ["rev-parse"; "--git-dir"]
      :: release_plan (newVersion info)
           (default (mkBranches (Some "develop") (Some ["UAT"]))
                    (branches options))
           (commitMessage options)
           (default false (skipPush options))
           (default false (skipMerge options))
           (default "package.json" (packageFile options))
           (default true (createTag options))
           (default "v" (tagPrefix options)).
Proof.
  intros Hdry%not_dry_run R.
  destruct (bumpVersion_Return_inv _ _ _ R) as (Hp & cur & new & Hv & Hc).
  rewrite (bumpVersion_release_run _ _ _ _ Hp Hv Hc Hdry) in R |- *.
  cbv zeta in R |- *. cbn [outcome events] in R |- *.
  pose proof (release_Return _ _ _ _ _ _ _ _ _ _ _ R) as ->.
  cbn [oldVersion newVersion]. split; [exact Hv|]. split; [exact Hc|].
  rewrite gits_app.
  destruct (isGitRepository_one_event w) as (result & -> & _).
  destruct (follows_release cur new
              (default (mkBranches (Some "develop") (Some ["UAT"]))
                       (branches options))
              (commitMessage options)
              (default false (skipPush options))
              (default false (skipMerge options))
              (default "package.json" (packageFile options))
              (default true (createTag options))
              (default "v" (tagPrefix options))
              (after (isGitRepository w))) as [_ F].
  now rewrite (F _ R).
Qed.

(** X12: outside a git repository [bumpVersion] stops at the probe.  It
    throws "Not a git repository"; the failed probe is all it has done:
    nothing was printed, the manifest was not read (whatever it holds,
    and whether it is there or not), and nothing was written. *)
Theorem bumpVersion_outside_a_repository options w fs r msg :
  execFile_git ["rev-parse"; "--git-dir"] w = (fs, r, inr msg) →
  bumpVersion options w
  = mkRun [Git ["rev-parse"; "--git-dir"] (inr msg)] (mkWorld (cwd w) fs r)
          (Throw (Error "Not a git repository")).
Proof.
  intros H. rewrite bumpVersion_run, isGitRepository_run, H. reflexivity.
Qed.

(** X13: [bumpVersion] validates before it changes anything.  In a
    repository, when the manifest cannot be read, holds no version,
    holds a version that is not a string, or holds a string that is not
    a valid version, the run ends with that error, and the probe is all
    it has done: no other call of [git], no file written, nothing
    printed.  A version that is not a string is a TypeError, not the
    invalid-version error. *)
Theorem bumpVersion_validates_first options w :
  let probe := isGitRepository w in
  let read :=
    outcome (getCurrentVersion
               (Some (default "package.json" (packageFile options)))
               (after probe)) in
  let stop (c : completion VersionInfo) :=
    bumpVersion options w = mkRun (events probe) (after probe) c in
  outcome probe = Return true →
  (∀ e, read = Throw e → stop (Throw e))
  ∧ (∀ v, read = Return v → (∀ s, v ≠ JString s) →
          stop (Throw (TypeError "currentVersion.split is not a function")))
  ∧ (∀ current e,
       read = Return (JString current) →
       calculateNewVersion current (bumpType options) = Throw e →
       stop (Throw (invalid_version_format current))).
Proof.
  intros probe read stop Hp. subst probe read stop. cbv beta.
  split; [|split].
  - intros e H. rewrite bumpVersion_run. cbv zeta. now rewrite Hp, H.
  - intros v H Hs. rewrite bumpVersion_run. cbv zeta. rewrite Hp, H.
    destruct v; try reflexivity. now destruct (Hs s).
  - intros current e H C. rewrite bumpVersion_run. cbv zeta. rewrite Hp, H, C.
    now destruct (calculateNewVersion_Throw _ _ _ C) as [-> _].
Qed.

(** *** What the options rule out *)

Lemma emits_only_updatePackageVersion dir ok v f :
  (∀ c, ok (WriteFile (path_join dir (default "package.json" f)) c)) →
  emits_only dir ok (updatePackageVersion v f).
Proof.
  intros H w Hw. split; [|now rewrite updatePackageVersion_cwd].
  destruct (updatePackageVersion_events v f w) as [-> | [c ->]]; [constructor|].
  rewrite Hw. repeat constructor. apply H.
Qed.

Lemma emits_only_report dir (ok : event → Prop) c n b t p :
  (∀ l, ok (ConsoleLog l)) → emits_only dir ok (report_dry_run c n b t p).
Proof.
  intros H w Hw. rewrite report_dry_run_run. cbn [events after].
  split; [|exact Hw]. apply Forall_fmap, Forall_forall. intros l _. apply H.
Qed.

(** The same for the whole of [bumpVersion], from what holds of the
    probe, of the report and of [release]. *)
Lemma emits_only_bumpVersion dir (ok : event → Prop) options :
  (∀ result, ok (Git ["rev-parse"; "--git-dir"] result)) →
  (∀ l, ok (ConsoleLog l)) →
  (default false (dryRun options) = false →
   ∀ c n,
     emits_only dir ok
       (release c n
          (default (mkBranches (Some "develop") (Some ["UAT"])) (branches options))
          (commitMessage options)
          (default false (skipPush options))
          (default false (skipMerge options))
          (default "package.json" (packageFile options))
          (default true (createTag options))
          (default "v" (tagPrefix options)))) →
  emits_only dir ok (bumpVersion options).
Proof.
  intros Hprobe Hlog Hrelease. unfold bumpVersion. cbv zeta.
  apply emits_only_bind; [now apply emits_only_isGitRepository|].
  intros [|]; cbn [negb]; [|apply emits_only_reads, reads_only_throw].
  apply emits_only_bind; [apply emits_only_reads, reads_only_getCurrentVersion|].
  intros [| | |currentVersion| |]; try apply emits_only_reads, reads_only_throw.
  apply emits_only_bind; [apply emits_only_reads, reads_only_lift|].
  intros newVersion. destruct (default false (dryRun options)) eqn:D.
  - apply emits_only_bind; [now apply emits_only_report|].
    intros _. apply emits_only_reads, reads_only_ret.
  - now apply Hrelease.
Qed.

Lemma release_without_push dir c n b m sm f t p :
  emits_only dir (no_git "push") (release c n b m true sm f t p).
Proof.
  unfold release, merge_to_targets. cbn [negb].
  step_emits allowed.
Qed.

Lemma release_without_tag dir c n b m sp sm f p :
  emits_only dir (no_git "tag") (release c n b m sp sm f false p).
Proof. unfold release, merge_to_targets. step_emits allowed. Qed.

Lemma release_without_merge dir c n b m sp sm f t p :
  sm = true ∨ default [] (targets b) = [] →
  emits_only dir (switches_to (or_else (source b) "develop"))
             (release c n b m sp sm f t p).
Proof.
  intros H.
  assert (E : match targets b with
              | Some ts =>
                  if negb sm && (0 <? length ts)
                  then merge_to_targets (or_else (source b) "develop") sp ts
                  else mret tt
              | None => mret tt
              end = mret tt).
  { destruct (targets b) as [ts|]; [|reflexivity].
    destruct H as [-> | H]; [reflexivity|]. cbn in H. subst ts.
    now rewrite andb_false_r. }
  unfold release. cbv zeta. rewrite E. step_emits allowed.
Qed.

Lemma Forall_gits_elem (Q : list string → Prop) evs :
  Forall (λ e, match e with Git args _ => Q args | _ => True end) evs →
  ∀ args, args ∈ gits evs → Q args.
Proof. intros H%Forall_gits. now apply Forall_forall. Qed.

(** X14: with [skipPush] nothing is pushed: no call of [git] of the run
    is a [push], neither of the source branch, nor of the tags, nor of a
    target branch, however the run ends. *)
Theorem skipPush_pushes_nothing options w :
  skipPush options = Some true →
  ∀ args, args ∈ gits (events (bumpVersion options w)) → head args ≠ Some "push".
Proof.
  intros H. apply (Forall_gits_elem (λ args, head args ≠ Some "push")).
  apply (emits_only_bumpVersion (cwd w) (no_git "push") options); try done.
  intros _ c n. rewrite H. apply release_without_push.
Qed.

(** X15: with [createTag] false no tag is made: no call of [git] of the
    run is a [tag], however the run ends. *)
Theorem no_createTag_tags_nothing options w :
  createTag options = Some false →
  ∀ args, args ∈ gits (events (bumpVersion options w)) → head args ≠ Some "tag".
Proof.
  intros H. apply (Forall_gits_elem (λ args, head args ≠ Some "tag")).
  apply (emits_only_bumpVersion (cwd w) (no_git "tag") options); try done.
  intros _ c n. rewrite H. apply release_without_tag.
Qed.

(** X16: with [skipMerge], or with an empty list of targets, the run
    never leaves the source branch: the only branch a call of [git
    switch] names is the source branch, however the run ends. *)
Theorem skipMerge_stays_on_the_source_branch options w :
  let branches_ :=
    default (mkBranches (Some "develop") (Some ["UAT"])) (branches options) in
  skipMerge options = Some true ∨ default [] (targets branches_) = [] →
  ∀ args, args ∈ gits (events (bumpVersion options w)) →
          head args = Some "switch" →
          args = ["switch"; or_else (source branches_) "develop"].
Proof.
  intros branches_ H.
  apply (Forall_gits_elem
           (λ args, head args = Some "switch" →
                    args = ["switch"; or_else (source branches_) "develop"])).
  apply (emits_only_bumpVersion (cwd w)
           (switches_to (or_else (source branches_) "develop")) options);
    try done.
  intros _ c n. apply release_without_merge.
  destruct H as [-> | H]; [now left | now right].
Qed.

Lemma no_write_writes evs : Forall no_write evs → writes evs = [].
Proof.
  induction 1 as [|e evs He _ IH]; [reflexivity|].
  destruct e; cbn in *; done.
Qed.

Lemma writes_once_none {A} dir path (m : M A) :
  emits_only dir no_write m → writes_once dir path m.
Proof. intros H w Hw. left. apply no_write_writes, H, Hw. Qed.

Lemma writes_once_bind_l {A B} dir path (m : M A) (f : A → M B) :
  emits_only dir no_write m → (∀ a, writes_once dir path (f a)) →
  writes_once dir path (m ≫= f).
Proof.
  intros Hm Hf w Hw. rewrite bind_run. destruct (Hm w Hw) as [E C].
  apply no_write_writes in E.
  destruct (outcome (m w)) as [a| |]; cbn [events]; auto.
  rewrite writes_app, E. now apply Hf.
Qed.

Lemma writes_once_bind_r {A B} dir path (m : M A) (f : A → M B) :
  writes_once dir path m → (∀ w, cwd (after (m w)) = cwd w) →
  (∀ a, emits_only dir no_write (f a)) →
  writes_once dir path (m ≫= f).
Proof.
  intros Hm Hc Hf w Hw. rewrite bind_run.
  destruct (outcome (m w)) as [a| |]; cbn [events]; auto.
  rewrite writes_app.
  destruct (Hf a (after (m w))) as [E _]; [now rewrite Hc|].
  apply no_write_writes in E. rewrite E, app_nil_r. now apply Hm.
Qed.

Lemma writes_once_updatePackageVersion dir v f :
  writes_once dir (path_join dir (default "package.json" f))
              (updatePackageVersion v f).
Proof.
  intros w <-.
  destruct (updatePackageVersion_events v f w) as [-> | [c ->]]; [now left|].
  right. now exists c.
Qed.

Lemma writes_once_release dir c n b m sp sm f t p :
  writes_once dir (path_join dir f) (release c n b m sp sm f t p).
Proof.
  unfold release. cbv zeta.
  do 6 (apply writes_once_bind_l; [step_emits allowed | intros _]).
  apply writes_once_bind_r.
  - apply (writes_once_updatePackageVersion dir n (Some f)).
  - apply updatePackageVersion_cwd.
  - intros _. unfold merge_to_targets. step_emits allowed.
Qed.

(** X17: [bumpVersion] writes at most one file, and no other file than
    the manifest: the files its run writes are none, or the manifest,
    once. *)
Theorem bumpVersion_writes_the_manifest_only options w :
  let path := path_join (cwd w) (default "package.json" (packageFile options)) in
  writes (events (bumpVersion options w)) = []
  ∨ ∃ content, writes (events (bumpVersion options w)) = [(path, content)].
Proof.
  intros path.
  cut (writes_once (cwd w) path (bumpVersion options)); [intros H; now apply H|].
  unfold bumpVersion. cbv zeta.
  apply writes_once_bind_l; [step_emits allowed|].
  intros [|]; cbn [negb]; [|apply writes_once_none; step_emits allowed].
  apply writes_once_bind_l; [step_emits allowed|].
  intros [| | |currentVersion| |];
    try solve [apply writes_once_none; step_emits allowed].
  apply writes_once_bind_l; [step_emits allowed|].
  intros newVersion. destruct (default false (dryRun options)).
  - apply writes_once_none. unfold report_dry_run. step_emits allowed.
  - apply writes_once_release.
Qed.

End Runs.

(** ** The command line *)

Section CommandLine.
Context `{P : Platform}.

#[local] Hint Resolve reads_only_ret reads_only_throw reads_only_lift reads_only_cwd
  reads_only_existsSync reads_only_readFile reads_only_JSON_parse
  reads_only_getCurrentVersion : confined.

Lemma bind_pure {A B} (m : M A) (f : A → M B) w a :
  m w = mkRun [] w (Return a) → (m ≫= f) w = f a w.
Proof.
  intros E. rewrite bind_run, E. cbn [outcome events after app].
  now destruct (f a w).
Qed.

Lemma loadConfig_run w :
  loadConfig w
  = match files w !! path_join (cwd w) CONFIG_FILE with
    | None => mkRun [] w (Return Config.empty)
    | Some text =>
        match JSON_parse text with
        | inl v => mkRun [] w (as_VBumpConfig v)
        | inr msg =>
            mkRun [ConsoleWarn ("⚠️  Failed to load config file: " +:+ msg)] w
                  (Return Config.empty)
        end
    end.
Proof.
  destruct (files w !! _) as [text|] eqn:F; [|now apply loadConfig_absent].
  unfold loadConfig.
  rewrite (bind_pure process_cwd _ w (cwd w) eq_refl).
  rewrite (bind_pure (existsSync _) _ w true)
    by (unfold existsSync; now rewrite bool_decide_eq_true_2 by eauto).
  cbn [negb]. rewrite bind_run, try_catch_run.
  rewrite (bind_pure (readFile _) _ w text) by (unfold readFile; now rewrite F).
  unfold JSON_parse_. destruct (JSON_parse text) as [v|msg].
  - rewrite (bind_pure (mret v) _ w v eq_refl).
    cbn [mret M_ret outcome events after lift app]. now destruct (as_VBumpConfig v).
  - reflexivity.
Qed.

(** X18: a configuration file that cannot be parsed is not fatal.
    [loadConfig] prints one warning with the message of the parser and
    goes on with the empty configuration; without a file it prints
    nothing and has the empty configuration as well.  In no case does
    it call [git], write a file or change the world. *)
Theorem loadConfig_survives_a_broken_file w :
  let path := path_join (cwd w) CONFIG_FILE in
  (files w !! path = None → loadConfig w = mkRun [] w (Return Config.empty))
  ∧ (∀ text msg,
       files w !! path = Some text → JSON_parse text = inr msg →
       loadConfig w
       = mkRun [ConsoleWarn ("⚠️  Failed to load config file: " +:+ msg)] w
               (Return Config.empty))
  ∧ after (loadConfig w) = w
  ∧ gits (events (loadConfig w)) = []
  ∧ writes (events (loadConfig w)) = [].
Proof.
  intros path. rewrite loadConfig_run. fold path.
  split; [now intros ->|]. split; [now intros text msg -> ->|].
  destruct (files w !! path) as [text|]; [|done].
  destruct (JSON_parse text); done.
Qed.

Lemma console_only_loadConfig : console_only loadConfig.
Proof.
  intros w. rewrite loadConfig_run.
  destruct (files w !! _) as [text|]; [|done].
  destruct (JSON_parse text); done.
Qed.

Lemma emits_only_loadConfig dir (ok : event → Prop) :
  (∀ l, ok (ConsoleWarn l)) → emits_only dir ok loadConfig.
Proof.
  intros H w Hw. rewrite loadConfig_run.
  destruct (files w !! _) as [text|]; [|now split].
  destruct (JSON_parse text); [now split|].
  split; [|exact Hw]. repeat constructor. apply H.
Qed.

Lemma reads_only_bumpOptions bumpType flags config :
  reads_only (bumpOptions bumpType flags config).
Proof.
  unfold bumpOptions. cbv zeta.
  apply reads_only_bind; [|intros ?; apply reads_only_ret].
  destruct (truthy (Flags.message flags)); [apply reads_only_ret|].
  destruct (truthy (Config.commitMessageTemplate config)); [|apply reads_only_ret].
  apply reads_only_bind; [apply reads_only_getCurrentVersion|].
  intros v. destruct (ToString_json v); [apply reads_only_ret | apply reads_only_lift].
Qed.
#[local] Hint Resolve reads_only_bumpOptions : confined.

(** The switches of the command line go to [bumpVersion] as they are. *)
Lemma bumpOptions_switches bumpType flags config w resolved :
  outcome (bumpOptions bumpType flags config w) = Return resolved →
  skipPush resolved = Some (Flags.skipPush flags)
  ∧ skipMerge resolved = Some (Flags.skipMerge flags)
  ∧ dryRun resolved = Some (Flags.dryRun flags)
  ∧ createTag resolved
    = Some (match Flags.tag flags with
            | Some t => t
            | None => default true (Config.createTag config)
            end).
Proof.
  unfold bumpOptions. cbv zeta. unfold mbind, M_bind.
  match goal with
  | |- outcome (match outcome ?m with _ => _ end) = _ → _ =>
      destruct (outcome m)
  end; cbn [outcome mret M_ret]; try discriminate.
  intros [= <-]. repeat split.
Qed.

Lemma emits_only_bind_with {A B} (Q : A → Prop) dir ok (m : M A) (f : A → M B) :
  (∀ w a, outcome (m w) = Return a → Q a) →
  emits_only dir ok m → (∀ a, Q a → emits_only dir ok (f a)) →
  emits_only dir ok (m ≫= f).
Proof.
  intros HQ Hm Hf w Hw. rewrite bind_run. destruct (Hm w Hw) as [E C].
  destruct (outcome (m w)) as [a| |] eqn:O; cbn [events after]; auto.
  destruct (Hf a (HQ w a O) (after (m w)) C) as [E' C'].
  split; [now apply Forall_app | exact C'].
Qed.

(** X19: without [--major], [--minor] or [--patch] the bump command
    prints that a bump type is needed and ends the process with code 1.
    That is all it does: the configuration file is not read, [git] is
    not called, nothing is written. *)
Theorem action_without_a_bump_type flags w :
  Flags.major flags = false → Flags.minor flags = false →
  Flags.patch flags = false →
  action flags w
  = mkRun [ ConsoleError
              "❌ Please specify a bump type: --major, --minor, or --patch";
            Exit 1 ] w (Return tt).
Proof.
  intros HM Hm Hp. unfold action, bumpType_of_flags. now rewrite HM, Hm, Hp.
Qed.

Lemma emits_only_release dir (ok : event → Prop) c n b m sp sm f t p :
  (∀ args result, ok (Git args result)) → (∀ l, ok (ConsoleLog l)) →
  (∀ path content, ok (WriteFile path content)) →
  emits_only dir ok (release c n b m sp sm f t p).
Proof.
  intros Hg Hl Hw. unfold release, merge_to_targets.
  step_emits ltac:(first [apply Hg | apply Hl | apply Hw]).
Qed.

(** The body of the action, after the bump type is known. *)
Lemma emits_only_action_body dir (ok : event → Prop) bumpType flags :
  (∀ args result, ok (Git args result)) → (∀ l, ok (ConsoleLog l)) →
  (∀ l, ok (ConsoleWarn l)) → (∀ path content, ok (WriteFile path content)) →
  emits_only dir ok
    (config ← loadConfig;
     opts ← bumpOptions bumpType flags config;
     result ← bumpVersion opts;
     if negb (Flags.dryRun flags) then
       console_log (String "010" "🎉 Version successfully bumped from "
                    +:+ oldVersion result +:+ " to " +:+ newVersion result)
     else mret tt).
Proof.
  intros Hg Hl Hwarn Hw.
  apply emits_only_bind; [now apply emits_only_loadConfig|]. intros config.
  apply emits_only_bind; [apply emits_only_reads, reads_only_bumpOptions|].
  intros opts. apply emits_only_bind.
  - apply emits_only_bumpVersion; auto. intros _ c n.
    now apply emits_only_release.
  - intros result. destruct (negb (Flags.dryRun flags)).
    + now apply emits_only_emit.
    + apply emits_only_reads, reads_only_ret.
Qed.

(** X20: the bump command never throws, and an error ends the process
    with code 1.  With a bump type given, either the run prints no error
    line and does not end the process, or the last two things it does
    are to print ["❌ Error: "] with the message of the error and to end
    the process with code 1, and it has printed no error line and has
    not ended the process before. *)
Theorem action_reports_errors_and_exits flags w bumpType :
  bumpType_of_flags flags = Some bumpType →
  let r := action flags w in
  (∀ e, outcome r ≠ Throw e)
  ∧ (Forall no_error_exit (events r)
     ∨ ∃ pre msg,
         events r = pre ++ [ConsoleError ("❌ Error: " +:+ msg); Exit 1]
         ∧ Forall no_error_exit pre
         ∧ outcome r = Return tt).
Proof.
  intros Hb r. subst r. unfold action. rewrite Hb, try_catch_run.
  match goal with
  | |- context [outcome (?body w)] =>
      destruct (emits_only_action_body (cwd w) no_error_exit bumpType flags
                  ltac:(done) ltac:(done) ltac:(done) ltac:(done) w eq_refl)
        as [E _];
      destruct (outcome (body w)) as [[]|e|] eqn:O
  end.
  - rewrite O. split; [discriminate | now left].
  - split; [discriminate|]. right. eexists _, (message e).
    split; [reflexivity|]. split; [exact E | reflexivity].
  - rewrite O. split; [discriminate | now left].
Qed.

(** The action, from what holds of [bumpVersion] on the options the
    flags resolve to. *)
Lemma emits_only_action dir (ok : event → Prop) flags :
  (∀ l, ok (ConsoleLog l)) → (∀ l, ok (ConsoleWarn l)) →
  (∀ l, ok (ConsoleError l)) → (∀ code, ok (Exit code)) →
  (∀ opts,
     skipPush opts = Some (Flags.skipPush flags) →
     skipMerge opts = Some (Flags.skipMerge flags) →
     dryRun opts = Some (Flags.dryRun flags) →
     (∀ t, Flags.tag flags = Some t → createTag opts = Some t) →
     emits_only dir ok (bumpVersion opts)) →
  emits_only dir ok (action flags).
Proof.
  intros Hl Hwarn Herr Hexit Hbump. unfold action.
  apply emits_only_try_catch.
  - destruct (bumpType_of_flags flags) as [bumpType|].
    + apply emits_only_bind; [now apply emits_only_loadConfig|]. intros config.
      apply (emits_only_bind_with
               (λ opts, skipPush opts = Some (Flags.skipPush flags)
                        ∧ skipMerge opts = Some (Flags.skipMerge flags)
                        ∧ dryRun opts = Some (Flags.dryRun flags)
                        ∧ ∀ t, Flags.tag flags = Some t → createTag opts = Some t)).
      * intros w' opts (? & ? & ? & T)%bumpOptions_switches.
        repeat split; try assumption. intros t Ht. now rewrite T, Ht.
      * apply emits_only_reads, reads_only_bumpOptions.
      * intros opts (? & ? & ? & ?). apply emits_only_bind; [now apply Hbump|].
        intros result. destruct (negb (Flags.dryRun flags)).
        -- now apply emits_only_emit.
        -- apply emits_only_reads, reads_only_ret.
    + apply emits_only_bind; [now apply emits_only_emit|].
      intros _. now apply emits_only_emit.
  - intros e. apply emits_only_bind; [now apply emits_only_emit|].
    intros _. now apply emits_only_emit.
Qed.

Lemma emits_only_dry_run dir options :
  dryRun options = Some true → emits_only dir probe_only (bumpVersion options).
Proof.
  intros H. apply emits_only_bumpVersion; try done.
  now rewrite H.
Qed.

Lemma Forall_no_write_probe evs : Forall probe_only evs → Forall no_write evs.
Proof. intros H. apply (Forall_impl _ _ _ H). now intros []. Qed.

(** X21: [vbump --dry-run], whatever the other options and whatever the
    configuration file holds, writes no file, and calls [git] for
    nothing but the repository probe. *)
Theorem dry_run_flag_changes_nothing flags w :
  Flags.dryRun flags = true →
  writes (events (action flags w)) = []
  ∧ ∀ args, args ∈ gits (events (action flags w)) →
            args = ["rev-parse"; "--git-dir"].
Proof.
  intros H.
  assert (E : Forall probe_only (events (action flags w))).
  { apply (emits_only_action (cwd w) probe_only flags); try done.
    intros opts _ _ D _. apply emits_only_dry_run. now rewrite D, H. }
  split; [now apply no_write_writes, Forall_no_write_probe|].
  apply (Forall_gits_elem (λ args, args = ["rev-parse"; "--git-dir"])).
  apply (Forall_impl _ _ _ E). now intros [].
Qed.

(** X22: the switches of the command line reach the workflow.  With
    [--skip-push] no call of [git] of the command is a [push]; with
    [--no-tag] none is a [tag], whatever the configuration file says
    about tags. *)
Theorem switches_reach_the_workflow flags w :
  (Flags.skipPush flags = true →
   ∀ args, args ∈ gits (events (action flags w)) → head args ≠ Some "push")
  ∧ (Flags.tag flags = Some false →
     ∀ args, args ∈ gits (events (action flags w)) → head args ≠ Some "tag").
Proof.
  split; intros H.
  - apply (Forall_gits_elem (λ args, head args ≠ Some "push")).
    apply (emits_only_action (cwd w) (no_git "push") flags); try done.
    intros opts S _ _ _. apply emits_only_bumpVersion; try done.
    intros _ c n. rewrite S, H. apply release_without_push.
  - apply (Forall_gits_elem (λ args, head args ≠ Some "tag")).
    apply (emits_only_action (cwd w) (no_git "tag") flags); try done.
    intros opts _ _ _ T. apply emits_only_bumpVersion; try done.
    intros _ c n. rewrite (T false H). apply release_without_tag.
Qed.

(** X23: a commit message given with [--message] is taken as it is.
    The options are then resolved without reading the manifest, so that
    this cannot fail, whatever template the configuration file has; and
    the message is not searched for the placeholder. *)
Theorem message_flag_is_taken_verbatim bumpType flags config w m :
  Flags.message flags = Some m → m ≠ "" →
  ∃ resolved,
    bumpOptions bumpType flags config w = mkRun [] w (Return resolved)
    ∧ commitMessage resolved = Some m.
Proof.
  intros Hm Hne. unfold bumpOptions. cbv zeta. rewrite Hm. cbn [truthy].
  destruct (String.eqb_spec m ""); [done|].
  eexists. split; reflexivity.
Qed.

(** ** [vbump current] *)

Lemma console_only_try_catch {A} (m : M A) (handler : exn → M A) :
  console_only m → (∀ e, console_only (handler e)) →
  console_only (try_catch m handler).
Proof.
  intros Hm Hh w. rewrite try_catch_run. destruct (Hm w) as (W & G & Wr).
  destruct (outcome (m w)) as [a|e|]; auto.
  destruct (Hh e (after (m w))) as (W' & G' & Wr'). cbn [events after].
  split; [congruence|].
  split; [rewrite gits_app, G, G' | rewrite writes_app, Wr, Wr']; reflexivity.
Qed.

Lemma console_only_error_exit msg :
  console_only (console_error msg ;; process_exit 1).
Proof. intros w. repeat split. Qed.

Lemma try_catch_never_throws {A} (m : M A) (handler : exn → M A) w :
  (∀ e w', ∀ e', outcome (handler e w') ≠ Throw e') →
  ∀ e, outcome (try_catch m handler w) ≠ Throw e.
Proof.
  intros H e. rewrite try_catch_run.
  destruct (outcome (m w)) as [a|e'|] eqn:O; [now rewrite O | apply H | now rewrite O].
Qed.

Lemma loadConfig_document_run w :
  loadConfig_document w
  = match files w !! path_join (cwd w) CONFIG_FILE with
    | None => mkRun [] w (Return (JObject []))
    | Some text =>
        match JSON_parse text with
        | inl v => mkRun [] w (Return v)
        | inr msg =>
            mkRun [ConsoleWarn ("⚠️  Failed to load config file: " +:+ msg)] w
                  (Return (JObject []))
        end
    end.
Proof.
  unfold loadConfig_document.
  rewrite (bind_pure process_cwd _ w (cwd w) eq_refl).
  destruct (files w !! _) as [text|] eqn:F.
  - rewrite (bind_pure (existsSync _) _ w true)
      by (unfold existsSync; now rewrite bool_decide_eq_true_2 by eauto).
    cbn [negb]. rewrite try_catch_run.
    rewrite (bind_pure (readFile _) _ w text) by (unfold readFile; now rewrite F).
    unfold JSON_parse_. now destruct (JSON_parse text).
  - rewrite (bind_pure (existsSync _) _ w false); [reflexivity|].
    unfold existsSync.
    now rewrite bool_decide_eq_false_2 by (rewrite F; intros [? [=]]).
Qed.

Lemma console_only_loadConfig_document : console_only loadConfig_document.
Proof.
  intros w. rewrite loadConfig_document_run.
  destruct (files w !! _) as [text|]; [|done].
  destruct (JSON_parse text); done.
Qed.

(** The run of the action, from the document and the manifest. *)
Lemma current_action_run file w warnings document :
  loadConfig_document w = mkRun warnings w (Return document) →
  current_action file w
  = let failed (e : exn) :=
      mkRun (warnings ++ [ConsoleError ("❌ Error: " +:+ message e); Exit 1]) w
            (Return tt) in
    match current_packageFile file document with
    | Return packageFile =>
        match outcome (getCurrentVersion (Some packageFile) w) with
        | Return version =>
            match ToString_json version with
            | Some shown =>
                mkRun (warnings
                       ++ [ConsoleLog ("📦 Current version: " +:+ shown)]) w
                      (Return tt)
            | None => mkRun warnings w Unmodelled
            end
        | Throw e => failed e
        | Unmodelled => mkRun warnings w Unmodelled
        end
    | Throw e => failed e
    | Unmodelled => mkRun warnings w Unmodelled
    end.
Proof.
  intros L. unfold current_action.
  rewrite try_catch_run, (bind_run loadConfig_document _ w), L.
  cbn [outcome events after].
  rewrite (bind_run (lift _) _ w). cbn [lift outcome events after app].
  destruct (current_packageFile file document) as [packageFile|e|];
    cbn [outcome events after]; rewrite ?app_nil_r; try reflexivity.
  rewrite (bind_run (getCurrentVersion _) _ w).
  destruct (reads_only_getCurrentVersion (Some packageFile) w) as [E W].
  rewrite E, W.
  destruct (outcome (getCurrentVersion (Some packageFile) w)) as [version|e|];
    cbn [outcome events after app]; rewrite ?app_nil_r; try reflexivity.
  destruct (ToString_json version); cbn [outcome events after lift];
    rewrite ?app_nil_r; reflexivity.
Qed.

(** X24: [vbump current] only reads and prints.  It calls no [git] (it
    needs no repository), writes no file and leaves the world as it is;
    and it never throws: an error is printed and ends the process. *)
Theorem current_only_reads_and_prints file w :
  let r := current_action file w in
  after r = w
  ∧ gits (events r) = []
  ∧ writes (events r) = []
  ∧ ∀ e, outcome r ≠ Throw e.
Proof.
  intros r. subst r.
  assert (C : console_only (current_action file)).
  { unfold current_action. apply console_only_try_catch.
    - apply console_only_bind; [apply console_only_loadConfig_document|].
      intros config.
      apply console_only_bind; [apply reads_console, reads_only_lift|].
      intros packageFile.
      apply console_only_bind;
        [apply reads_console, reads_only_getCurrentVersion|].
      intros v. destruct (ToString_json v);
        [apply console_only_log | apply reads_console, reads_only_lift].
    - intros e. apply console_only_error_exit. }
  destruct (C w) as (W & G & Wr). repeat split; try assumption.
  apply try_catch_never_throws. discriminate.
Qed.

(** X25: what [vbump current] prints.  The manifest it reads is the one
    the configuration file names, when that file holds an object with a
    [packageFile] that is a string and not empty, and [package.json]
    when there is no configuration file, when it cannot be parsed (after
    the warning), or when it holds an object without [packageFile]; the
    [--file] option does not reach the action (see [current_action]).
    When the version is read the command prints it after ["📦 Current
    version: "] and returns; when reading fails it prints ["❌ Error: "]
    with the message and ends the process with code 1.  A configuration
    file that holds [null] is such an error, of the access to
    [packageFile]. *)
Theorem current_prints_the_version w :
  let path := path_join (cwd w) CONFIG_FILE in
  let failed (warnings : list event) (e : exn) :=
    current_action None w
    = mkRun (warnings ++ [ConsoleError ("❌ Error: " +:+ message e); Exit 1]) w
            (Return tt) in
  let prints (warnings : list event) (packageFile : string) :=
    let read := outcome (getCurrentVersion (Some packageFile) w) in
    (∀ version shown,
       read = Return version → ToString_json version = Some shown →
       current_action None w
       = mkRun (warnings ++ [ConsoleLog ("📦 Current version: " +:+ shown)]) w
               (Return tt))
    ∧ (∀ e, read = Throw e → failed warnings e) in
  (files w !! path = None → prints [] "package.json")
  ∧ ∀ text, files w !! path = Some text →
      (∀ msg, JSON_parse text = inr msg →
              prints [ConsoleWarn ("⚠️  Failed to load config file: " +:+ msg)]
                     "package.json")
      ∧ (∀ props, JSON_parse text = inl (JObject props) →
           (∀ s, get_property "packageFile" props = Some (JString s) →
                 s ≠ "" → prints [] s)
           ∧ (get_property "packageFile" props = None →
              prints [] "package.json"))
      ∧ (JSON_parse text = inl JNull →
         failed [] (TypeError
                      "Cannot read properties of null (reading 'packageFile')")).
Proof.
  intros path failed prints.
  assert (Prints : ∀ warnings document packageFile,
            loadConfig_document w = mkRun warnings w (Return document) →
            current_packageFile None document = Return packageFile →
            prints warnings packageFile).
  { intros warnings document packageFile L C. subst prints failed. cbv beta zeta.
    split.
    - intros version shown V S.
      rewrite (current_action_run None w warnings document L), C, V, S.
      reflexivity.
    - intros e V.
      rewrite (current_action_run None w warnings document L), C, V.
      reflexivity. }
  pose proof (loadConfig_document_run w) as L. fold path in L.
  split.
  - intros F. rewrite F in L. now apply (Prints [] (JObject [])).
  - intros text F. rewrite F in L. split; [|split].
    + intros msg J. rewrite J in L. now apply (Prints _ (JObject [])).
    + intros props J. rewrite J in L. split.
      * intros s G Hs. apply (Prints [] (JObject props)); [exact L|].
        cbn [current_packageFile truthy member]. rewrite G.
        unfold or_else. cbn [truthy].
        now destruct (String.eqb_spec s "").
      * intros G. apply (Prints [] (JObject props)); [exact L|].
        cbn [current_packageFile truthy member]. now rewrite G.
    + intros J. rewrite J in L. subst failed. cbv beta.
      rewrite (current_action_run None w [] JNull L). reflexivity.
Qed.

End CommandLine.

(** ** [vbump init] *)

Section InitCommand.
Context `{P : Platform}.

(** X26: [initConfig] never overwrites a configuration file.  When
    [vbump.json] is there, whatever it holds, the command prints two
    lines and returns: no question is asked (the answers play no part),
    no file is written, and the world is as it was. *)
Theorem initConfig_keeps_an_existing_file input w text :
  files w !! path_join (cwd w) CONFIG_FILE = Some text →
  initConfig input w
  = mkRun [ ConsoleLog "⚠️  Configuration file already exists: vbump.json";
            ConsoleLog "Delete the existing file if you want to reinitialize." ]
          w (Return tt).
Proof.
  intros F. unfold initConfig.
  rewrite (bind_pure process_cwd _ w (cwd w) eq_refl).
  rewrite (bind_pure (existsSync _) _ w true)
    by (unfold existsSync; now rewrite bool_decide_eq_true_2 by eauto).
  reflexivity.
Qed.

Lemma initConfig_fresh input w :
  let path := path_join (cwd w) CONFIG_FILE in
  files w !! path = None →
  (∀ sourceBranch targetsInput commitMessage packageFile createTag tagPrefix rest,
     input = sourceBranch :: targetsInput :: commitMessage :: packageFile
             :: createTag :: tagPrefix :: rest →
     let config :=
       build_config sourceBranch targetsInput commitMessage packageFile
                    createTag tagPrefix in
     let content := JSON_stringify config 2 +:+ String "010" "" in
     initConfig input w
     = mkRun [ ConsoleLog ("🚀 Initializing vbump configuration..."
                           +:+ String "010" "");
               WriteFile path content;
               ConsoleLog (String "010" "✅ Configuration file created: vbump.json");
               ConsoleLog (String "010" "Configuration:");
               ConsoleLog (JSON_stringify config 2);
               ConsoleLog (String "010"
                             "You can now run: vbump --major | --minor | --patch") ]
             (mkWorld (cwd w) (<[path := content]> (files w)) (repo w))
             (Return tt))
  ∧ (length input < 6 →
     writes (events (initConfig input w)) = []
     ∧ after (initConfig input w) = w
     ∧ outcome (initConfig input w) = Unmodelled).
Proof.
  intros path F.
  assert (Start : ∀ k,
            initConfig input w
            = (console_log ("🚀 Initializing vbump configuration..."
                            +:+ String "010" "") ;; k) w →
            initConfig input w
            = mkRun (ConsoleLog ("🚀 Initializing vbump configuration..."
                                 +:+ String "010" "") :: events (k w))
                    (after (k w)) (outcome (k w))).
  { intros k ->. rewrite bind_run. reflexivity. }
  assert (Fresh : ∀ A (f : bool → M A) ,
            (existsSync path ≫= f) w = f false w).
  { intros A f. apply bind_pure. unfold existsSync.
    now rewrite bool_decide_eq_false_2 by (rewrite F; intros [? [=]]). }
  split.
  - intros a1 a2 a3 a4 a5 a6 rest -> config content.
    erewrite Start.
    2: { unfold initConfig.
         rewrite (bind_pure process_cwd _ w (cwd w) eq_refl). fold path.
         rewrite Fresh. reflexivity. }
    reflexivity.
  - intros Hlen.
    erewrite Start.
    2: { unfold initConfig.
         rewrite (bind_pure process_cwd _ w (cwd w) eq_refl). fold path.
         rewrite Fresh. reflexivity. }
    cbn [events after outcome].
    destruct input as [|a1 [|a2 [|a3 [|a4 [|a5 [|a6 rest]]]]]];
      [repeat split.. | cbn [length] in Hlen; lia].
Qed.


(** X27: in a directory without [vbump.json], and with the six answers
    typed, [initConfig] writes one file, [vbump.json] in the current
    directory: the configuration built from the answers, printed with
    an indentation of 2 and followed by a newline.  Every other file
    and the repository stay as they were, and [git] is not called.
    When the input ends before the sixth answer nothing is written. *)
Theorem initConfig_writes_the_configuration input w :
  let path := path_join (cwd w) CONFIG_FILE in
  files w !! path = None →
  (∀ sourceBranch targetsInput commitMessage packageFile createTag tagPrefix rest,
     input = sourceBranch :: targetsInput :: commitMessage :: packageFile
             :: createTag :: tagPrefix :: rest →
     let config :=
       build_config sourceBranch targetsInput commitMessage packageFile
                    createTag tagPrefix in
     let content := JSON_stringify config 2 +:+ String "010" "" in
     initConfig input w
     = mkRun [ ConsoleLog ("🚀 Initializing vbump configuration..."
                           +:+ String "010" "");
               WriteFile path content;
               ConsoleLog (String "010" "✅ Configuration file created: vbump.json");
               ConsoleLog (String "010" "Configuration:");
               ConsoleLog (JSON_stringify config 2);
               ConsoleLog (String "010"
                             "You can now run: vbump --major | --minor | --patch") ]
             (mkWorld (cwd w) (<[path := content]> (files w)) (repo w))
             (Return tt))
  ∧ (length input < 6 →
     writes (events (initConfig input w)) = []
     ∧ after (initConfig input w) = w
     ∧ outcome (initConfig input w) = Unmodelled).
Proof. apply initConfig_fresh. Qed.

End InitCommand.

(** *** The configuration [init] builds *)

Lemma as_strings_JString (l : list string) :
  as_strings (JArray (JString <$> l)) = Some l.
Proof.
  unfold as_strings. induction l as [|s l IH]; [reflexivity|].
  cbn [fmap list_fmap mapM as_string mbind option_bind mret option_ret] in *.
  now rewrite IH.
Qed.

Lemma toLowerCase_n s :
  String.eqb (toLowerCase s) "n" = bool_decide (s = "n" ∨ s = "N").
Proof.
  destruct s as [|c [|d r]].
  - reflexivity.
  - destruct c as [[] [] [] [] [] [] [] []]; vm_compute; reflexivity.
  - rewrite bool_decide_eq_false_2 by (intros [[=] | [=]]).
    unfold toLowerCase.
    cbn [list_ascii_of_string fmap list_fmap string_of_list_ascii].
    apply String.eqb_neq. intros [= _ [=]].
Qed.

Lemma as_VBumpConfig_build_config
    sourceBranch targetsInput commitMessage packageFile createTag tagPrefix :
  as_VBumpConfig (build_config sourceBranch targetsInput commitMessage
                               packageFile createTag tagPrefix)
  = Return
      (Config.mk
         (Some (mkBranches
                  (truthy (Some (trim sourceBranch)))
                  (Some (if String.eqb targetsInput "" then []
                         else map trim (split "," targetsInput)))))
         (truthy (Some (trim commitMessage)))
         (if String.eqb (trim packageFile) "package.json" then None
          else truthy (Some (trim packageFile)))
         (if bool_decide (createTag = "n" ∨ createTag = "N")
          then Some false else None)
         (truthy (Some (trim tagPrefix)))).
Proof.
  unfold build_config. cbv zeta. rewrite toLowerCase_n.
  pose proof (as_strings_JString
                (if String.eqb targetsInput "" then []
                 else map trim (split "," targetsInput))) as T.
  replace (if negb (String.eqb targetsInput "")
           then map trim (split "," targetsInput) else [])
    with (if String.eqb targetsInput "" then []
          else map trim (split "," targetsInput))
    by now destruct (String.eqb targetsInput "").
  revert T.
  generalize (if String.eqb targetsInput "" then []
              else map trim (split "," targetsInput)).
  generalize (trim sourceBranch), (trim commitMessage), (trim packageFile),
    (trim tagPrefix), (bool_decide (createTag = "n" ∨ createTag = "N")).
  intros s1 s3 s4 s6 no ts T. unfold as_strings in T. cbn [truthy].
  destruct (String.eqb s1 ""), (String.eqb s3 ""), (String.eqb s4 "") eqn:E4,
    (String.eqb s4 "package.json"), no, (String.eqb s6 "");
    cbn [negb andb set_property get_property as_VBumpConfig as_Branches
         as_strings as_string as_bool optional mbind option_bind truthy
         String.eqb Ascii.eqb Bool.eqb];
    rewrite ?T, ?E4; cbn [mbind option_bind]; reflexivity.
Qed.

(** X28: the configuration [init] builds is of the type of
    [vbump.json], and what it holds is this.  The targets are always
    there: the answer split at the commas and trimmed, or the empty
    list after an empty answer.  The source branch, the template and
    the tag prefix are the trimmed answers, and they are left out when
    the trimmed answer is empty; the package file as well, and also
    when it is [package.json].  Tags are turned off after the answer
    [n] or [N], and never turned on. *)
Theorem build_config_is_a_configuration
    sourceBranch targetsInput commitMessage packageFile createTag tagPrefix :
  as_VBumpConfig (build_config sourceBranch targetsInput commitMessage
                               packageFile createTag tagPrefix)
  = Return
      (Config.mk
         (Some (mkBranches
                  (truthy (Some (trim sourceBranch)))
                  (Some (if String.eqb targetsInput "" then []
                         else map trim (split "," targetsInput)))))
         (truthy (Some (trim commitMessage)))
         (if String.eqb (trim packageFile) "package.json" then None
          else truthy (Some (trim packageFile)))
         (if bool_decide (createTag = "n" ∨ createTag = "N")
          then Some false else None)
         (truthy (Some (trim tagPrefix)))).
Proof. apply as_VBumpConfig_build_config. Qed.

Section InitThenLoad.
Context `{P : Platform}.

(** X29: [init], then a bump.  On a platform whose [JSON.parse] reads
    back the configuration [init] wrote, [loadConfig] after [init]
    prints nothing and returns that configuration; a second [init]
    then keeps the file; and in the options of a bump without
    [--targets] the targets are those answered to [init], so that the
    default target [UAT] is not used: after an empty answer there is no
    target. *)
Theorem init_then_load w sourceBranch targetsInput commitMessage packageFile
    createTag tagPrefix rest :
  let input :=
    sourceBranch :: targetsInput :: commitMessage :: packageFile
    :: createTag :: tagPrefix :: rest in
  let config :=
    build_config sourceBranch targetsInput commitMessage packageFile
                 createTag tagPrefix in
  let answered :=
    if String.eqb targetsInput "" then []
    else map trim (split "," targetsInput) in
  let w' := after (initConfig input w) in
  files w !! path_join (cwd w) CONFIG_FILE = None →
  JSON_parse (JSON_stringify config 2 +:+ String "010" "") = inl config →
  ∃ loaded,
    loadConfig w' = mkRun [] w' (Return loaded)
    ∧ after (initConfig input w') = w'
    ∧ ∀ bumpType flags resolved,
        truthy (Flags.targets flags) = None →
        outcome (bumpOptions bumpType flags loaded w') = Return resolved →
        branches resolved ≫= targets = Some answered.
Proof.
  intros input config answered w' F Hback.
  destruct (initConfig_fresh input w F) as [Run _].
  specialize (Run _ _ _ _ _ _ _ eq_refl). cbv zeta in Run.
  assert (W : w' = mkWorld (cwd w)
                     (<[path_join (cwd w) CONFIG_FILE
                        := JSON_stringify config 2 +:+ String "010" ""]> (files w))
                     (repo w)).
  { subst w'. now rewrite Run. }
  assert (L : files w' !! path_join (cwd w') CONFIG_FILE
              = Some (JSON_stringify config 2 +:+ String "010" "")).
  { rewrite W. cbn [cwd files]. apply lookup_insert_eq. }
  eexists. split; [|split].
  - rewrite loadConfig_run, L, Hback. unfold config.
    rewrite as_VBumpConfig_build_config. reflexivity.
  - unfold initConfig.
    rewrite (bind_pure process_cwd _ w' (cwd w') eq_refl).
    rewrite (bind_pure (existsSync _) _ w' true)
      by (unfold existsSync; now rewrite bool_decide_eq_true_2 by eauto).
    reflexivity.
  - intros bumpType flags resolved Ht (-> & _)%bumpOptions_fields.
    unfold parse_targets. rewrite Ht. reflexivity.
Qed.

End InitThenLoad.

(** X30: the names of the target branches carry no white space at
    their ends, whether they come from [--targets] or from the answer
    to [init]: trimming one of them again changes nothing. *)
Theorem target_names_are_trimmed :
  (∀ flags config s ts,
     Flags.targets flags = Some s → s ≠ "" →
     parse_targets flags config = Some ts → ∀ t, t ∈ ts → trim t = t)
  ∧ (∀ sourceBranch targetsInput commitMessage packageFile createTag tagPrefix
       loaded ts,
       as_VBumpConfig (build_config sourceBranch targetsInput commitMessage
                                    packageFile createTag tagPrefix)
       = Return loaded →
       Config.branches loaded ≫= targets = Some ts → ∀ t, t ∈ ts → trim t = t).
Proof.
  assert (T : ∀ s t, t ∈ map trim (split "," s) → trim t = t).
  { intros s t (x & -> & _)%(list_elem_of_fmap trim). apply trim_trim. }
  split.
  - intros flags config s ts Hs Hne. unfold parse_targets. rewrite Hs.
    cbn [truthy]. destruct (String.eqb_spec s ""); [done|].
    intros [= <-]. apply T.
  - intros a1 a2 a3 a4 a5 a6 loaded ts. rewrite as_VBumpConfig_build_config.
    intros [= <-]. cbn [Config.branches mbind option_bind targets].
    intros [= <-]. destruct (String.eqb a2 ""); [intros t Ht; inversion Ht|].
    apply T.
Qed.

(** ** Further runs on the platform of [Fixture] *)

Lemma bumped_version_can_be_bumped_witness :
  calculateNewVersion "1.2.3" patch = Return "1.2.4"
  ∧ map Number (split "." "1.2.4") = [Int 1; Int 2; Int 4]
  ∧ ∃ next, calculateNewVersion "1.2.4" minor = Return next.
Proof.
  destruct (bumped_version_can_be_bumped "1.2.3" patch 1 2 3)
    as (x' & y' & z' & B & R & N & Again); [vm_compute; reflexivity|].
  vm_compute in B. injection B as -> -> ->.
  split; [exact R|]. split; [exact N|]. exact (Again minor).
Defined.

Lemma larger_bump_forgets_smaller_witness :
  ∃ major_ minor_ patch_,
    calculateNewVersion "1.2.3" major = Return major_
    ∧ calculateNewVersion "1.2.3" minor = Return minor_
    ∧ calculateNewVersion "1.2.3" patch = Return patch_
    ∧ calculateNewVersion minor_ major = Return major_
    ∧ calculateNewVersion patch_ major = Return major_
    ∧ calculateNewVersion patch_ minor = Return minor_.
Proof.
  apply (larger_bump_forgets_smaller "1.2.3" 1 2 3).
  vm_compute. reflexivity.
Defined.

Lemma getCurrentVersion_errors_witness :
  outcome (getCurrentVersion (P := Fixture.platform) None (mkWorld "/app" ∅ []))
  = Throw (Error "Package file not found: /app/package.json").
Proof.
  apply (getCurrentVersion_errors (P := Fixture.platform) None
           (mkWorld "/app" ∅ [])).
  vm_compute. reflexivity.
Defined.

Lemma updatePackageVersion_fails_before_writing_witness :
  let w : World (@repository Fixture.platform) := mkWorld "/app" ∅ [] in
  updatePackageVersion "1.2.4" None w
  = mkRun [] w
      (Throw (Error
                "ENOENT: no such file or directory, open '/app/package.json'")).
Proof.
  intros w.
  destruct (updatePackageVersion_fails_before_writing "1.2.4" None w)
    as (Missing & _).
  apply Missing. reflexivity.
Defined.

Lemma updatePackageVersion_keeps_the_order_witness :
  ∃ props',
    events (updatePackageVersion "1.2.4" None (Fixture.project []))
    = [WriteFile "/app/package.json"
         (Fixture.stringify (JObject props') 2 +:+ String "010" "")]
    ∧ map fst props' = ["name"; "version"; "private"].
Proof.
  destruct (updatePackageVersion_keeps_the_order "1.2.4" None (Fixture.project [])
              (Fixture.text_of (Fixture.manifest (JString "1.2.3")))
              [("name", JString "demo"); ("version", JString "1.2.3");
               ("private", JBool true)])
    as (props' & E & before & rest & B & -> & N);
    [vm_compute; reflexivity | vm_compute; reflexivity |].
  eexists. split; [exact E|].
  apply (f_equal (map fst)) in B. rewrite map_app in B |- *. symmetry. exact B.
Defined.

Lemma updatePackageVersion_last_wins_witness :
  files (after (updatePackageVersion "2.0.0" None
                  (after (updatePackageVersion "1.2.4" None (Fixture.project [])))))
  !! "/app/package.json"
  = Some (Fixture.text_of (Fixture.manifest (JString "2.0.0"))).
Proof.
  destruct (updatePackageVersion_last_wins "1.2.4" "2.0.0" None (Fixture.project [])
              (Fixture.text_of (Fixture.manifest (JString "1.2.3")))
              [("name", JString "demo"); ("version", JString "1.2.3");
               ("private", JBool true)])
    as [E _]; [vm_compute; reflexivity ..|].
  rewrite E. vm_compute. reflexivity.
Defined.

Lemma completed_run_follows_the_plan_witness :
  gits (events (bumpVersion Fixture.two_targets (Fixture.project [])))
  = [ ["rev-parse"; "--git-dir"]; ["fetch"]; ["switch"; "develop"]; ["pull"];
      ["add"; "package.json"]; ["commit"; "-m"; "build: 1.2.4"];
      ["tag"; "v1.2.4"]; ["push"; "origin"; "develop"];
      ["push"; "origin"; "--tags"];
      ["switch"; "UAT"]; ["pull"]; ["pull"; "origin"; "develop"];
      ["push"; "origin"; "UAT"];
      ["switch"; "production"]; ["pull"]; ["pull"; "origin"; "develop"];
      ["push"; "origin"; "production"]; ["switch"; "develop"] ].
Proof.
  destruct (completed_run_follows_the_plan Fixture.two_targets (Fixture.project [])
              (mkVersionInfo "1.2.3" "1.2.4"))
    as (_ & _ & G); [discriminate | vm_compute; reflexivity |].
  rewrite G. vm_compute. reflexivity.
Defined.

Lemma bumpVersion_outside_a_repository_witness :
  let w := Fixture.project [["rev-parse"; "--git-dir"]] in
  bumpVersion Fixture.two_targets w
  = mkRun [Git ["rev-parse"; "--git-dir"]
               (inr "Command failed: git rev-parse --git-dir")]
          w (Throw (Error "Not a git repository")).
Proof.
  intros w.
  apply (bumpVersion_outside_a_repository Fixture.two_targets w (files w) (repo w)).
  vm_compute. reflexivity.
Defined.

Lemma bumpVersion_validates_first_witness :
  let P := platform_knowing [Fixture.manifest (JString "1.2")] in
  let w : World (@repository P) :=
    mkWorld "/app"
      {[ "/app/package.json" := Fixture.text_of (Fixture.manifest (JString "1.2")) ]}
      [] in
  bumpVersion Fixture.two_targets w
  = mkRun [Git ["rev-parse"; "--git-dir"] (inl "")] w
          (Throw (invalid_version_format "1.2")).
Proof.
  intros P w.
  destruct (bumpVersion_validates_first (P := P) Fixture.two_targets w)
    as (_ & _ & V); [vm_compute; reflexivity|].
  rewrite (V "1.2" (invalid_version_format "1.2")); vm_compute; reflexivity.
Defined.

Lemma skipPush_pushes_nothing_witness :
  let options :=
    mkBumpOptions patch None None (Some true) None None None None None in
  ["push"; "origin"; "develop"]
  ∉ gits (events (bumpVersion options (Fixture.project []))).
Proof.
  intros options Hin.
  apply (skipPush_pushes_nothing options (Fixture.project []) eq_refl _ Hin).
  reflexivity.
Defined.

Lemma no_createTag_tags_nothing_witness :
  let options :=
    mkBumpOptions patch None None None None None None (Some false) None in
  ["tag"; "v1.2.4"] ∉ gits (events (bumpVersion options (Fixture.project []))).
Proof.
  intros options Hin.
  apply (no_createTag_tags_nothing options (Fixture.project []) eq_refl _ Hin).
  reflexivity.
Defined.

Lemma skipMerge_stays_on_the_source_branch_witness :
  let options :=
    mkBumpOptions patch None None None (Some true) None None None None in
  ["switch"; "UAT"] ∉ gits (events (bumpVersion options (Fixture.project []))).
Proof.
  intros options Hin.
  discriminate (skipMerge_stays_on_the_source_branch options (Fixture.project [])
                  (or_introl eq_refl) _ Hin eq_refl).
Defined.

Lemma loadConfig_survives_a_broken_file_witness :
  let w : World (@repository Fixture.platform) :=
    mkWorld "/app" {[ "/app/vbump.json" := "{ branches: " ]} [] in
  loadConfig w
  = mkRun [ConsoleWarn
             "⚠️  Failed to load config file: Unexpected token in JSON"]
          w (Return Config.empty).
Proof.
  intros w.
  destruct (loadConfig_survives_a_broken_file w) as (_ & Broken & _).
  apply (Broken "{ branches: " "Unexpected token in JSON");
    vm_compute; reflexivity.
Defined.

Lemma action_without_a_bump_type_witness :
  let flags :=
    Flags.mk false false false None None None false false None true None None in
  gits (events (action flags (Fixture.project []))) = []
  ∧ outcome (action flags (Fixture.project [])) = Return tt.
Proof.
  intros flags.
  rewrite (action_without_a_bump_type flags (Fixture.project []) eq_refl eq_refl
             eq_refl).
  split; reflexivity.
Defined.

Lemma action_reports_errors_and_exits_witness :
  let r := action Fixture.patch_flags (Fixture.project [["fetch"]]) in
  (∀ e, outcome r ≠ Throw e) ∧ last (events r) = Some (Exit 1).
Proof.
  intros r.
  destruct (action_reports_errors_and_exits Fixture.patch_flags
              (Fixture.project [["fetch"]]) patch eq_refl) as [N _].
  split; [exact N | vm_compute; reflexivity].
Defined.

Lemma dry_run_flag_changes_nothing_witness :
  let flags :=
    Flags.mk false true false None None None false false None true None None in
  writes (events (action flags (Fixture.project []))) = [].
Proof.
  intros flags.
  apply (dry_run_flag_changes_nothing flags (Fixture.project []) eq_refl).
Defined.

Lemma switches_reach_the_workflow_witness :
  let flags :=
    Flags.mk false false true None None None true false None false (Some false)
             None in
  (["push"; "origin"; "develop"] ∉ gits (events (action flags (Fixture.project []))))
  ∧ (["tag"; "v1.2.4"] ∉ gits (events (action flags (Fixture.project [])))).
Proof.
  intros flags.
  destruct (switches_reach_the_workflow flags (Fixture.project [])) as [S T].
  split; intros Hin.
  - now apply (S eq_refl _ Hin).
  - now apply (T eq_refl _ Hin).
Defined.

Lemma message_flag_is_taken_verbatim_witness :
  let flags :=
    Flags.mk false false true (Some "release {version}") None None false false
             None false None None in
  commitMessage
    <$> outcome_value
          (outcome (bumpOptions (P := Fixture.platform) patch flags
                      (Config.mk None (Some "chore: {version}") None None None)
                      (mkWorld "/app" ∅ [])))
  = Some (Some "release {version}").
Proof.
  intros flags.
  destruct (message_flag_is_taken_verbatim (P := Fixture.platform) patch flags
              (Config.mk None (Some "chore: {version}") None None None)
              (mkWorld "/app" ∅ []) "release {version}" eq_refl)
    as (resolved & -> & M); [discriminate|].
  cbn [outcome outcome_value fmap option_fmap option_map]. now rewrite M.
Defined.

Lemma current_prints_the_version_witness :
  current_action None (Fixture.project [])
  = mkRun [ConsoleLog "📦 Current version: 1.2.3"] (Fixture.project [])
          (Return tt).
Proof.
  destruct (current_prints_the_version (Fixture.project []))
    as [None_ _].
  destruct None_ as [Prints _]; [vm_compute; reflexivity|].
  apply (Prints (JString "1.2.3") "1.2.3"); vm_compute; reflexivity.
Defined.

Lemma initConfig_keeps_an_existing_file_witness :
  let w := Fixture.with_config Fixture.config_template (Fixture.project []) in
  writes (events (initConfig ["main"; "staging"; ""; ""; "n"; "v"] w)) = []
  ∧ after (initConfig ["main"; "staging"; ""; ""; "n"; "v"] w) = w.
Proof.
  intros w.
  rewrite (initConfig_keeps_an_existing_file _ w
             (Fixture.text_of Fixture.config_template))
    by (vm_compute; reflexivity).
  split; reflexivity.
Defined.

Lemma initConfig_writes_the_configuration_witness :
  writes (events (initConfig ["main"; "staging, production"; ""; ""; "N"; " v "]
                             (Fixture.project [])))
  = [("/app/vbump.json",
      Fixture.text_of
        (JObject [("branches",
                   JObject [("targets",
                             JArray [JString "staging"; JString "production"]);
                            ("source", JString "main")]);
                  ("createTag", JBool false);
                  ("tagPrefix", JString "v")]))].
Proof.
  destruct (initConfig_writes_the_configuration
              ["main"; "staging, production"; ""; ""; "N"; " v "]
              (Fixture.project [])) as [Run _]; [vm_compute; reflexivity|].
  rewrite (Run _ _ _ _ _ _ _ eq_refl). vm_compute. reflexivity.
Defined.

Lemma init_then_load_witness :
  let config := build_config "main" "staging, production" "" "" "N" " v " in
  let P := platform_knowing [config] in
  let w : World (@repository P) := mkWorld "/app" ∅ [] in
  let w' := after (initConfig ["main"; "staging, production"; ""; ""; "N"; " v "] w) in
  ∃ loaded,
    outcome (loadConfig w') = Return loaded
    ∧ ∀ resolved,
        outcome (bumpOptions patch Fixture.patch_flags loaded w') = Return resolved →
        branches resolved ≫= targets = Some ["staging"; "production"].
Proof.
  intros config P w w'.
  destruct (init_then_load (P := P) w "main" "staging, production" "" "" "N" " v " [])
    as (loaded & L & _ & T); [vm_compute; reflexivity ..|].
  exists loaded. fold w' in L. rewrite L. split; [reflexivity|].
  intros resolved R. now apply (T patch Fixture.patch_flags resolved eq_refl).
Defined.

Lemma target_names_are_trimmed_witness :
  Forall (λ t, trim t = t) ["staging"; ""; "production"].
Proof.
  apply Forall_forall.
  apply (proj1 target_names_are_trimmed
           (Flags.mk false false true None None (Some "staging, ,production")
                     false false None false None None)
           Config.empty "staging, ,production");
    [reflexivity | discriminate | reflexivity].
Defined.
